(** * relix: the repository state engine of [main.cpp]

    A shallow embedding of the parsing, mutation, undo and probe code of
    [src/main.cpp], with the file system as a finite map from paths to file
    contents, and the properties of the specification stated over it. *)

From Stdlib Require Import Ascii.
From Stdlib Require String.
From stdpp Require Import strings list gmap pretty.

(** ** Section 1 of main.cpp: string utilities *)

Module Str.

(** The character set [" \t\r\n"] of [trimStr]. *)
Definition isTrimWs (c : ascii) : bool :=
  (Ascii.eqb c " " || Ascii.eqb c "009" || Ascii.eqb c "013" || Ascii.eqb c "010")%char%bool.

(** [std::isspace] in the C locale, the delimiters of [iss >> w]. *)
Definition isSpace (c : ascii) : bool :=
  (Ascii.eqb c " " || Ascii.eqb c "009" || Ascii.eqb c "010"
   || Ascii.eqb c "011" || Ascii.eqb c "012" || Ascii.eqb c "013")%char.

(** [s.find_first_not_of(" \t\r\n")]; [None] is [npos]. *)
Fixpoint find_first_not_of (s : string) : option nat :=
  match s with
  | EmptyString => None
  | String c s' => if isTrimWs c then S <$> find_first_not_of s' else Some O
  end.

(** [s.find_last_not_of(" \t\r\n")]; [None] is [npos]. *)
Fixpoint find_last_not_of (s : string) : option nat :=
  match s with
  | EmptyString => None
  | String c s' =>
      match find_last_not_of s' with
      | Some i => Some (S i)
      | None => if isTrimWs c then None else Some O
      end
  end.

(** [s.substr(pos, len)] for [pos <= s.size()]: clipped at the end of [s]. *)
Definition substr (s : string) (pos len : nat) : string := String.substring pos len s.

(** [s.substr(pos)]: throws [std::out_of_range] when [pos > s.size()],
    which is [None] here. *)
Fixpoint substrFrom (s : string) (pos : nat) {struct pos} : option string :=
  match pos, s with
  | O, _ => Some s
  | S _, EmptyString => None
  | S p, String _ s' => substrFrom s' p
  end.

Definition trimStr (s : string) : string :=
  match find_first_not_of s with
  | None => EmptyString
  | Some st =>
      match find_last_not_of s with
      | None => EmptyString
      | Some en => substr s st (en - st + 1)
      end
  end.

(** [s.empty()] *)
Definition empty (s : string) : bool :=
  match s with EmptyString => true | String _ _ => false end.

(** [s.rfind(p, 0) == 0]: [p] is a prefix of [s]. *)
Definition startsWith (p s : string) : bool := String.prefix p s.

(** [s.find(needle) != std::string::npos] *)
Fixpoint contains (needle s : string) : bool :=
  String.prefix needle s
  || match s with
     | EmptyString => false
     | String _ s' => contains needle s'
     end.

(** [s[i]]: the character at [i], the terminating NUL at [i = s.size()]. *)
Definition at_ (s : string) (i : nat) : ascii :=
  match String.get i s with Some c => c | None => "000"%char end.

(** The loop [while (iss >> w) r.push_back(w)] over the characters of
    [s], [w] being the word read so far. *)
Fixpoint splitWordsFrom (w : string) (s : string) : list string :=
  match s with
  | EmptyString => if empty w then [] else [w]
  | String c s' =>
      if isSpace c
      then (if empty w then splitWordsFrom EmptyString s'
            else w :: splitWordsFrom EmptyString s')
      else splitWordsFrom (w +:+ String c EmptyString) s'
  end.

Definition splitWords (s : string) : list string := splitWordsFrom EmptyString s.

(** [tolower] in the C locale. *)
Definition lowerChar (c : ascii) : ascii :=
  let n := nat_of_ascii c in
  if (Nat.leb 65 n && Nat.leb n 90)%bool then ascii_of_nat (n + 32) else c.

Fixpoint toLower (s : string) : string :=
  match s with
  | EmptyString => EmptyString
  | String c s' => String (lowerChar c) (toLower s')
  end.

End Str.

Import Str.

(** ** Section 5 of main.cpp: the entry model *)

Record RepoEntry := mkRepoEntry {
  file : string;
  display : string;
  enabled : bool;
  isDeb822 : bool;
  blockIndex : Z;
  uri : string;
  suite : string;
  components : string;
  types : string
}.

Record UndoEntry := mkUndoEntry {
  ufile : string;
  ulines : list string
}.

Definition k_maxUndo : nat := 20.

(** ** Section 6 of main.cpp: the one-line parser *)

(** [words[i]] when [words.size() > i], the default-constructed empty
    string otherwise. *)
Definition wordOr (words : list string) (i : nat) : string :=
  match words !! i with Some w => w | None => EmptyString end.

(** The loop over [words[3..]] that joins the components with single spaces. *)
Definition joinComponents (words : list string) : string :=
  fold_left (fun acc w => (if empty acc then acc else acc +:+ " ") +:+ w)
            (drop 3 words) EmptyString.

(** [t.substr(t[1] == ' ' ? 2 : 1)] on a [t] that holds at least the
    characters the position asks for; [None] is the [std::out_of_range]
    of an empty [t]. *)
Definition dropMarker (t : string) : option string :=
  substrFrom t (if Ascii.eqb (at_ t 1) " " then 2%nat else 1%nat).

(** The body of the [while (std::getline(file, line))] loop of
    [parseListFile]: the entry pushed for [line], if any. *)
Definition parseListLine (path line : string) : option RepoEntry :=
  let t := trimStr line in
  if empty t then None else
  let isDeb := startsWith "deb" t in
  let isHDeb := Ascii.eqb (at_ t 0) "#"
                && startsWith "deb" (trimStr (default EmptyString (substrFrom t 1))) in
  if negb isDeb && negb isHDeb then None else
  let enabled := negb (Ascii.eqb (at_ t 0) "#") in
  let parseable :=
    if enabled then t else trimStr (default EmptyString (dropMarker t)) in
  let words := splitWords parseable in
  Some {| file := path; display := line; enabled := enabled;
          isDeb822 := false; blockIndex := (-1)%Z; types := "deb";
          uri := wordOr words 1; suite := wordOr words 2;
          components := joinComponents words |}.

(** [parseListFile] over the lines [std::getline] yields: the entries it
    appends to [g_repos], in file order. *)
Definition parseListFile (path : string) (lines : list string) : list RepoEntry :=
  omap (parseListLine path) lines.

(** ** Section 6 of main.cpp: the paragraph parser *)

(** The locals of the [processBlock] lambda that its field loop assigns. *)
Record BlockFields := mkBlockFields {
  bTypes : string;
  bUris : list string;
  bSuites : list string;
  bCompRaw : string;
  bComps : list string;
  bEnabled : bool
}.

Definition noFields : BlockFields :=
  {| bTypes := EmptyString; bUris := []; bSuites := []; bCompRaw := EmptyString;
     bComps := []; bEnabled := true |}.

(** [l.substr(n)] behind a successful [l.rfind(key, 0) == 0] with [key] of
    [n] characters: the rest of [l] after the key. *)
Definition afterKey (n : nat) (l : string) : string :=
  String.substring n (String.length l - n) l.

(** One iteration of [for (auto l : blines)] in [processBlock]. *)
Definition fieldStep (f : BlockFields) (l0 : string) : BlockFields :=
  let l := trimStr l0 in
  if empty l || Ascii.eqb (at_ l 0) "#" then f
  else if startsWith "Types:" l then
    mkBlockFields (trimStr (afterKey 6 l)) (bUris f) (bSuites f) (bCompRaw f) (bComps f) (bEnabled f)
  else if startsWith "URIs:" l then
    mkBlockFields (bTypes f) (splitWords (trimStr (afterKey 5 l))) (bSuites f) (bCompRaw f) (bComps f) (bEnabled f)
  else if startsWith "Suites:" l then
    mkBlockFields (bTypes f) (bUris f) (splitWords (trimStr (afterKey 7 l))) (bCompRaw f) (bComps f) (bEnabled f)
  else if startsWith "Components:" l then
    let comp_raw := trimStr (afterKey 11 l) in
    mkBlockFields (bTypes f) (bUris f) (bSuites f) comp_raw (splitWords comp_raw) (bEnabled f)
  else if startsWith "Enabled:" l then
    let v := trimStr (afterKey 8 l) in
    mkBlockFields (bTypes f) (bUris f) (bSuites f) (bCompRaw f) (bComps f)
      (String.eqb v "yes" || String.eqb v "Yes" || String.eqb v "YES")
  else f.

Definition blockFields (blines : list string) : BlockFields :=
  fold_left fieldStep blines noFields.

(** The two early [return]s of [processBlock]: the block is rejected. *)
Definition accepted (blines : list string) : bool :=
  let f := blockFields blines in
  contains "deb" (bTypes f)
  && negb (match bUris f with [] => true | _ => false end
           || match bSuites f with [] => true | _ => false end).

(** [display] as [processBlock] builds it: the [c + " "] loop and the
    [pop_back] of the last space. *)
Definition sourcesDisplay (tys u s : string) (comps : list string) : string :=
  let d := tys +:+ " " +:+ u +:+ " " +:+ s in
  match comps with
  | [] => d
  | _ =>
      let d' := fold_left (fun acc c => acc +:+ c +:+ " ") comps (d +:+ " ") in
      String.substring 0 (String.length d' - 1) d'
  end.

(** The entries an accepted block pushes, all with the counter's value
    [idx]: the nested loops over [uris] and [suites]. *)
Definition blockEntries (path : string) (blines : list string) (idx : Z)
  : list RepoEntry :=
  let f := blockFields blines in
  u ← bUris f; s ← bSuites f;
  [ {| file := path; display := sourcesDisplay (bTypes f) u s (bComps f);
       enabled := bEnabled f; isDeb822 := true; blockIndex := idx;
       types := bTypes f; uri := u; suite := s; components := bCompRaw f |} ].

(** [processBlock(blines)] on the captured [blockIndex] and [g_repos]. *)
Definition processBlock (path : string) (blines : list string)
    (st : Z * list RepoEntry) : Z * list RepoEntry :=
  let '(idx, repos) := st in
  if accepted blines then ((idx + 1)%Z, repos ++ blockEntries path blines idx)
  else (idx, repos).

(** The [while (std::getline(file, line))] loop of [parseSourcesFile] and
    the [if (!block.empty()) processBlock(block)] after it. *)
Fixpoint sourcesLoop (path : string) (lines block : list string)
    (st : Z * list RepoEntry) : Z * list RepoEntry :=
  match lines with
  | [] => match block with [] => st | _ => processBlock path block st end
  | line :: rest =>
      if empty (trimStr line) then
        match block with
        | [] => sourcesLoop path rest [] st
        | _ => sourcesLoop path rest [] (processBlock path block st)
        end
      else sourcesLoop path rest (block ++ [line]) st
  end.

Definition parseSourcesFile (path : string) (lines : list string) : list RepoEntry :=
  snd (sourcesLoop path lines [] (0%Z, [])).

(** The calls of [processBlock] that [parseSourcesFile] makes, in order:
    the block handed over and the value of [blockIndex] at the call. *)
Fixpoint sourcesCalls (lines block : list string) (idx : Z)
  : list (list string * Z) :=
  let next b := if accepted b then (idx + 1)%Z else idx in
  match lines with
  | [] => match block with [] => [] | _ => [(block, idx)] end
  | line :: rest =>
      if empty (trimStr line) then
        match block with
        | [] => sourcesCalls rest [] idx
        | _ => (block, idx) :: sourcesCalls rest [] (next block)
        end
      else sourcesCalls rest (block ++ [line]) idx
  end.

(** ** The process state and the file system *)

(** What a call can end in: a normal return, or an exception nothing in
    main.cpp catches ([std::terminate]). *)
Inductive Outcome (A : Type) : Type :=
| Ret (a : A)
| Throw (what : string).
Arguments Ret {A} a.
Arguments Throw {A} what.

#[global] Instance outcome_ret : MRet Outcome := @Ret.
#[global] Instance outcome_bind : MBind Outcome := fun A B k m =>
  match m with Ret a => k a | Throw e => Throw e end.
#[global] Instance outcome_fmap : FMap Outcome := fun A B f m =>
  match m with Ret a => Ret (f a) | Throw e => Throw e end.

(** The system calls the engine makes on files, as they reach the disk. *)
Inductive FsOp : Type :=
| OpRead (p : string)           (* ifstream: open and read to the end *)
| OpMkdir (p : string)          (* fs::create_directories *)
| OpCreate (p : string)         (* ofstream(p, std::ios::trunc) *)
| OpAppend (p data : string)    (* bytes of a stream reaching the file *)
| OpRename (src dst : string)   (* std::rename *)
| OpRemove (p : string)         (* std::remove *)
| OpCopy (src dst : string).    (* fs::copy_file, overwrite_existing *)

#[global] Instance FsOp_eq_dec : EqDecision FsOp.
Proof. solve_decision. Defined.

Definition applyOp (op : FsOp) (d : gmap string string) : gmap string string :=
  match op with
  | OpRead _ | OpMkdir _ => d
  | OpCreate p => <[p := EmptyString]> d
  | OpAppend p data => <[p := default EmptyString (d !! p) +:+ data]> d
  | OpRename src dst =>
      match d !! src with
      | Some c => <[dst := c]> (delete src d)
      | None => d
      end
  | OpRemove p => delete p d
  | OpCopy src dst =>
      match d !! src with
      | Some c => <[dst := c]> d
      | None => d
      end
  end.

(** [g_undoStack] (its [back()] is the last element), [g_cfg.backupDir],
    the disk, and the journal of the system calls made so far. *)
Record World := mkWorld {
  disk : gmap string string;
  undoStack : list UndoEntry;
  backupDir : string;
  journal : list FsOp
}.

#[global] Instance UndoEntry_eq_dec : EqDecision UndoEntry.
Proof. solve_decision. Defined.
#[global] Instance World_eq_dec : EqDecision World.
Proof. solve_decision. Defined.

(** What the environment decides for one operation: the I/O faults and the
    clock. *)
Record Faults := mkFaults {
  mkdirErr : option string;   (* [ec.message()] of create_directories *)
  stamp : string;             (* the strftime text of the backup *)
  copyErr : option (string * option nat);
                              (* copy_file fails on an existing source:
                                 [ec.message()], and the bytes it had
                                 written to the destination it had opened
                                 and truncated, if it got that far *)
  tmpOpens : bool;            (* [out.is_open()] *)
  written : option nat;       (* [Some k]: the stream goes bad after [k] bytes *)
  renameErr : option string   (* [strerror(errno)] of a failed rename *)
}.

Definition noFaults (ts : string) : Faults :=
  {| mkdirErr := None; stamp := ts; copyErr := None; tmpOpens := true;
     written := None; renameErr := None |}.

Definition IO (A : Type) : Type := World -> Outcome (A * World).

Definition ret {A} (a : A) : IO A := fun w => Ret (a, w).
Definition bind {A B} (m : IO A) (k : A -> IO B) : IO B := fun w =>
  match m w with
  | Ret (a, w') => k a w'
  | Throw e => Throw e
  end.
Definition lift {A} (o : Outcome A) : IO A := fun w =>
  match o with Ret a => Ret (a, w) | Throw e => Throw e end.

Declare Scope io_scope.
Delimit Scope io_scope with io.
Notation "x <~ m ;; k" := (bind m (fun x => k))
  (at level 100, m at next level, right associativity) : io_scope.
Notation "m ;;; k" := (bind m (fun _ => k))
  (at level 100, right associativity) : io_scope.
Local Open Scope io_scope.

(** One system call: it acts on the disk and is journalled. *)
Definition sys (op : FsOp) : IO unit := fun w =>
  Ret (tt, {| disk := applyOp op (disk w); undoStack := undoStack w;
              backupDir := backupDir w; journal := journal w ++ [op] |}).

Definition getDisk : IO (gmap string string) := fun w => Ret (disk w, w).
Definition getUndo : IO (list UndoEntry) := fun w => Ret (undoStack w, w).
Definition setUndo (u : list UndoEntry) : IO unit := fun w =>
  Ret (tt, {| disk := disk w; undoStack := u; backupDir := backupDir w;
              journal := journal w |}).
Definition getBackupDir : IO string := fun w => Ret (backupDir w, w).

(** ** Section 9 of main.cpp: lines, atomic write, undo stack *)

(** [while (std::getline(f, l)) lines.push_back(l)] over the bytes of a
    file, [cur] being the line read so far: a last line without its
    terminator is still a line, unless it is empty. *)
Fixpoint getlines (cur : string) (bytes : string) : list string :=
  match bytes with
  | EmptyString => if empty cur then [] else [cur]
  | String c rest =>
      if Ascii.eqb c "010" then cur :: getlines EmptyString rest
      else getlines (cur +:+ String c EmptyString) rest
  end.

(** [for (const auto& l : lines) out << l << "\n"] *)
Definition unlines (lines : list string) : string :=
  fold_right (fun l acc => l +:+ String "010" acc) EmptyString lines.

(** A file that cannot be opened reads as no lines. *)
Definition readAllLines (path : string) : IO (list string) :=
  sys (OpRead path) ;;;
  d <~ getDisk ;;
  ret (match d !! path with Some bytes => getlines EmptyString bytes | None => [] end).

Definition tmpPath (path : string) : string := path +:+ ".relix.tmp".

Definition atomicWriteLines (flt : Faults) (path : string) (lines : list string)
    (errMsg : string) : IO (bool * string) :=
  let tmp := tmpPath path in
  if negb (tmpOpens flt) then ret (false, "Cannot open tmp file")
  else
    sys (OpCreate tmp) ;;;
    match written flt with
    | Some k =>
        sys (OpAppend tmp (String.substring 0 k (unlines lines))) ;;;
        ret (false, "Write error on tmp file")
    | None =>
        sys (OpAppend tmp (unlines lines)) ;;;
        match renameErr flt with
        | Some e =>
            sys (OpRemove tmp) ;;;
            ret (false, "rename() failed: " +:+ e)
        | None =>
            sys (OpRename tmp path) ;;;
            ret (true, errMsg)
        end
    end.

Definition pushUndo (path : string) : IO unit :=
  lines <~ readAllLines path ;;
  st <~ getUndo ;;
  let st' := if decide (k_maxUndo <= length st)%nat then drop 1 st else st in
  setUndo (st' ++ [ {| ufile := path; ulines := lines |} ]).

Definition applyUndo (flt : Faults) (errMsg : string) : IO (bool * string) :=
  st <~ getUndo ;;
  match last st with
  | None => ret (false, "Nothing to undo.")
  | Some u =>
      r <~ atomicWriteLines flt (ufile u) (ulines u) errMsg ;;
      if negb (fst r) then ret (false, snd r)
      else setUndo (removelast st) ;;; ret (true, snd r)
  end.

(** ** Section 8 of main.cpp: backup *)

(** [std::replace(base.begin(), base.end(), '/', '_')] *)
Fixpoint replaceSlash (s : string) : string :=
  match s with
  | EmptyString => EmptyString
  | String c s' => String (if Ascii.eqb c "/" then "_"%char else c) (replaceSlash s')
  end.

Definition backupDest (dir src ts : string) : string :=
  dir +:+ "/" +:+ replaceSlash src +:+ "." +:+ ts +:+ ".bak".

(** [backupFile(src, errMsg)]: the flag and the message it leaves. *)
Definition backupFile (flt : Faults) (src : string) : IO (bool * string) :=
  dir <~ getBackupDir ;;
  match mkdirErr flt with
  | Some e => ret (false, "Cannot create backup dir: " +:+ e)
  | None =>
      sys (OpMkdir dir) ;;;
      d <~ getDisk ;;
      let dest := backupDest dir src (stamp flt) in
      match d !! src, copyErr flt with
      | None, _ => ret (false, "Backup copy failed: No such file or directory")
      | Some c, Some (e, Some k) =>
          sys (OpCreate dest) ;;;
          sys (OpAppend dest (String.substring 0 k c)) ;;;
          ret (false, "Backup copy failed: " +:+ e)
      | Some _, Some (e, None) => ret (false, "Backup copy failed: " +:+ e)
      | Some _, None => sys (OpCopy src dest) ;;; ret (true, EmptyString)
      end
  end.

(** ** Section 10 of main.cpp: toggle *)

(** The rewrite of the matched line in [toggleList]:
    [repo.enabled ? ("# " + l) : trimStr(l.substr(l[1] == ' ' ? 2 : 1))]. *)
Definition toggledLine (en : bool) (l : string) : Outcome string :=
  if en then Ret ("# " +:+ l)
  else match dropMarker l with
       | Some r => Ret (trimStr r)
       | None => Throw "std::out_of_range"
       end.

(** The [for (auto& l : lines)] loop of [toggleList] with its [found] flag. *)
Fixpoint toggleLoop (repo : RepoEntry) (found : bool) (lines : list string)
  : Outcome (bool * list string) :=
  match lines with
  | [] => Ret (found, [])
  | l :: rest =>
      if negb found && String.eqb l (display repo) then
        l' ← toggledLine (enabled repo) l;
        r ← toggleLoop repo true rest;
        Ret (fst r, l' :: snd r)
      else
        r ← toggleLoop repo found rest;
        Ret (fst r, l :: snd r)
  end.

(** The tail shared by toggle and delete: snapshot, backup (a failure is a
    warning left in [errMsg]), atomic write. *)
Definition commitLines (flt : Faults) (path : string) (lines : list string)
  : IO (bool * string) :=
  pushUndo path ;;;
  b <~ backupFile flt path ;;
  let errMsg := if fst b then EmptyString else "[warn] backup skipped: " +:+ snd b in
  atomicWriteLines flt path lines errMsg.

Definition toggleList (flt : Faults) (repo : RepoEntry) : IO (bool * string) :=
  lines <~ readAllLines (file repo) ;;
  r <~ lift (toggleLoop repo false lines) ;;
  if negb (fst r) then ret (false, "Line not found in file (changed externally?)")
  else commitLines flt (file repo) (snd r).

(** The block-range scan shared by [toggleDeb822] and [deleteRepoClean]:
    [i] is the loop index, [bs] and [inB] its two locals; a range is
    [(s, e)], both ends included. [bs] is only read while [inB] holds, so
    its initial [-1] is never observed. *)
Fixpoint scanBlocks (lines : list string) (i bs : nat) (inB : bool)
  : list (nat * nat) :=
  match lines with
  | [] => if inB then [(bs, (i - 1)%nat)] else []
  | l :: rest =>
      let blank := empty (trimStr l) in
      if negb blank && negb inB then scanBlocks rest (S i) i true
      else if blank && inB then (bs, (i - 1)%nat) :: scanBlocks rest (S i) bs false
      else scanBlocks rest (S i) bs inB
  end.

Definition blockRanges (allLines : list string) : list (nat * nat) :=
  scanBlocks allLines 0 0 false.

(** [for (int i = b.s; i <= b.e; i++) if (...) { b.enabledLine = i; break; }]
    with [n] lines still to look at; [None] is the initial [-1]. *)
Fixpoint findEnabledLine (allLines : list string) (i n : nat) : option nat :=
  match n with
  | O => None
  | S n' =>
      if startsWith "Enabled:" (trimStr (default EmptyString (allLines !! i)))
      then Some i else findEnabledLine allLines (S i) n'
  end.

Definition enabledLine (allLines : list string) (b : nat * nat) : option nat :=
  findEnabledLine allLines (fst b) (S (snd b) - fst b).

(** [blocks[repo.blockIndex]] behind the range check of the callers. *)
Definition blockAt (blocks : list (nat * nat)) (idx : Z) : option (nat * nat) :=
  if decide (idx < 0 ∨ Z.of_nat (length blocks) <= idx)%Z then None
  else blocks !! Z.to_nat idx.

(** [allLines.insert(allLines.begin() + pos, v)] *)
Definition insertAt (pos : nat) (v : string) (allLines : list string) : list string :=
  take pos allLines ++ v :: drop pos allLines.

(** The line sequence [toggleDeb822] writes, [None] when the block index
    is out of range. *)
Definition toggledBlockLines (repo : RepoEntry) (allLines : list string)
  : option (list string) :=
  match blockAt (blockRanges allLines) (blockIndex repo) with
  | None => None
  | Some b =>
      let newVal := if enabled repo then "Enabled: no" else "Enabled: yes" in
      match enabledLine allLines b with
      | Some i => Some (<[i := newVal]> allLines)
      | None => Some (insertAt (S (fst b)) newVal allLines)
      end
  end.

Definition toggleDeb822 (flt : Faults) (repo : RepoEntry) : IO (bool * string) :=
  allLines <~ readAllLines (file repo) ;;
  match toggledBlockLines repo allLines with
  | None => ret (false, "Block index out of range (file changed externally?)")
  | Some out => commitLines flt (file repo) out
  end.

(** The dispatch of the F2 handler and of the double click. *)
Definition toggle (flt : Faults) (repo : RepoEntry) : IO (bool * string) :=
  if isDeb822 repo then toggleDeb822 flt repo else toggleList flt repo.

(** ** Section 11 of main.cpp: delete *)

(** The one-line branch: the copy loop that skips the first match. *)
Fixpoint deleteLoop (repo : RepoEntry) (found : bool) (lines : list string)
  : bool * list string :=
  match lines with
  | [] => (found, [])
  | l :: rest =>
      if negb found && String.eqb l (display repo) then deleteLoop repo true rest
      else let r := deleteLoop repo found rest in (fst r, l :: snd r)
  end.

(** The copy loop of the paragraph branch: every line whose index is
    outside [bStart..bEnd], [i] being the index of the first line of
    [lines]. *)
Fixpoint dropRange (bStart bEnd i : nat) (lines : list string) : list string :=
  match lines with
  | [] => []
  | l :: rest =>
      if (Nat.leb bStart i && Nat.leb i bEnd)%bool then dropRange bStart bEnd (S i) rest
      else l :: dropRange bStart bEnd (S i) rest
  end.

Definition deletedBlockLines (repo : RepoEntry) (allLines : list string)
  : option (list string) :=
  match blockAt (blockRanges allLines) (blockIndex repo) with
  | None => None
  | Some b =>
      let bStart := fst b in
      let bEnd :=
        match allLines !! S (snd b) with
        | Some l => if empty (trimStr l) then S (snd b) else snd b
        | None => snd b
        end in
      Some (dropRange bStart bEnd 0 allLines)
  end.

Definition deleteRepoClean (flt : Faults) (repo : RepoEntry) : IO (bool * string) :=
  allLines <~ readAllLines (file repo) ;;
  if negb (isDeb822 repo) then
    let r := deleteLoop repo false allLines in
    if negb (fst r) then ret (false, "Line not found in file")
    else commitLines flt (file repo) (snd r)
  else
    match deletedBlockLines repo allLines with
    | None => ret (false, "Block index out of range")
    | Some out => commitLines flt (file repo) out
    end.

(** ** Section 21 of main.cpp: the F3 handler (add) *)

(** What the environment decides for a stream opened with [std::ios::app]. *)
Record AppendFaults := mkAppendFaults {
  appOpens : bool;          (* [f.is_open()] *)
  appWritten : option nat   (* [Some k]: the stream goes bad after [k] bytes *)
}.

(** [f << data] on an append stream: the bytes that reach the file, and
    [f.good()] afterwards. *)
Definition appendBytes (af : AppendFaults) (path data : string) : IO bool :=
  match appWritten af with
  | Some k => sys (OpAppend path (String.substring 0 k data)) ;;; ret false
  | None => sys (OpAppend path data) ;;; ret true
  end.

(** The handler from the validation of [newLine] on; [dest0] is the answer
    to the target-file dialog. The result is the status text and its error
    flag. *)
Definition addRepo (flt : Faults) (af : AppendFaults) (newLine dest0 : string)
  : IO (string * bool) :=
  if empty newLine then ret ("Add cancelled.", false)
  else if negb (startsWith "deb" newLine)
  then ret ("Invalid — must start with 'deb'.", true)
  else
    let dest := if empty dest0 then "/etc/apt/sources.list" else dest0 in
    pushUndo dest ;;;
    backupFile flt dest ;;;
    if negb (appOpens af) then ret ("Cannot open " +:+ dest, true)
    else
      sys (OpAppend dest EmptyString) ;;;
      good <~ appendBytes af dest (newLine +:+ String "010" EmptyString) ;;
      if good then ret ("Repository added to " +:+ dest, false)
      else ret ("Write error!", true).

(** ** Section 12 of main.cpp: import *)

Definition mainList : string := "/etc/apt/sources.list".

(** The dedup loop over [existing] for one trimmed line [t]: [t.substr(4)]
    is evaluated in every iteration, and throws when [t] has fewer than
    four characters. *)
Fixpoint isDup (t : string) (existing : list string) : Outcome bool :=
  match existing with
  | [] => Ret false
  | ex :: rest =>
      match substrFrom t 4 with
      | None => Throw "std::out_of_range"
      | Some key =>
          if contains (toLower key) (toLower ex) then Ret true
          else isDup t rest
      end
  end.

(** [out << data] on a stream whose state nobody looks at: [left] is the
    number of bytes the environment still lets through before the stream
    goes bad, [None] when it lets everything through. What does not get
    through is lost, and so is every later write. *)
Definition streamWrite (path data : string) (left : option nat) : IO (option nat) :=
  match left with
  | None => sys (OpAppend path data) ;;; ret None
  | Some k =>
      sys (OpAppend path (String.substring 0 k data)) ;;;
      ret (Some (k - String.length data)%nat)
  end.

(** The [while (std::getline(f, line))] loop of [importRepos]; the result
    is [added], which counts a line whether its bytes got through or not. *)
Fixpoint importLoop (existing : list string) (lines : list string) (added : nat)
    (left : option nat) : IO nat :=
  match lines with
  | [] => ret added
  | line :: rest =>
      let t := trimStr line in
      if empty t || Ascii.eqb (at_ t 0) "#" then importLoop existing rest added left
      else if negb (startsWith "deb" t) then importLoop existing rest added left
      else
        dup <~ lift (isDup t existing) ;;
        if dup then importLoop existing rest added left
        else
          left' <~ streamWrite mainList (t +:+ String "010" EmptyString) left ;;
          importLoop existing rest (S added) left'
  end.

(** [importRepos(path, errMsg)] with [g_repos]; [af] is what the
    environment decides for the append stream on the primary file, whose
    [good()] the source never asks for. *)
Definition importRepos (g_repos : list RepoEntry) (af : AppendFaults) (path : string)
  : IO (bool * string) :=
  sys (OpRead path) ;;;
  d <~ getDisk ;;
  match d !! path with
  | None => ret (false, "Cannot open " +:+ path)
  | Some bytes =>
      let existing := map (fun r => trimStr (display r)) g_repos in
      if negb (appOpens af)
      then ret (false, "Cannot open /etc/apt/sources.list for append")
      else
        sys (OpAppend mainList EmptyString) ;;;
        added <~ importLoop existing (getlines EmptyString bytes) 0%nat
                   (appWritten af) ;;
        if decide (added = 0%nat) then ret (true, "No new repos found to import.")
        else ret (true, pretty added +:+ " repo(s) imported.")
  end.

(** ** Section 13 of main.cpp: the metadata probe *)

Record RepoMeta := mkRepoMeta {
  origin : string;
  codename : string;
  msuite : string;
  version : string;
  date : string;
  description : string;
  lastUpdate : string;
  reachable : bool;
  error : string
}.

(** The default-constructed [RepoMeta m]. *)
Definition emptyMeta : RepoMeta :=
  {| origin := EmptyString; codename := EmptyString; msuite := EmptyString;
     version := EmptyString; date := EmptyString; description := EmptyString;
     lastUpdate := EmptyString; reachable := false; error := EmptyString |}.

(** [s.find(needle)]; [None] is [npos]. *)
Fixpoint findStr (needle s : string) : option nat :=
  if String.prefix needle s then Some O
  else match s with
       | EmptyString => None
       | String _ s' => S <$> findStr needle s'
       end.

(** [while (!host.empty() && host.back() == '_') host.pop_back()] *)
Fixpoint stripUnderscores (s : string) : string :=
  match s with
  | EmptyString => EmptyString
  | String c s' =>
      match stripUnderscores s' with
      | EmptyString => if Ascii.eqb c "_" then EmptyString else String c EmptyString
      | r => String c r
      end
  end.

(** The cache path [metaFromCache] derives from the URI and the suite. *)
Definition relPath (repo : RepoEntry) : string :=
  let host0 := uri repo in
  let host1 := match findStr "://" host0 with
               | Some spos => afterKey (spos + 3) host0
               | None => host0
               end in
  let host := stripUnderscores (replaceSlash host1) in
  "/var/lib/apt/lists/" +:+ host +:+ "_dists_" +:+ replaceSlash (suite repo) +:+ "_Release".

(** One iteration of the field loop over the Release file. *)
Definition metaStep (m : RepoMeta) (line : string) : RepoMeta :=
  let upd o c s v d ds :=
    mkRepoMeta o c s v d ds (lastUpdate m) (reachable m) (error m) in
  if startsWith "Origin:" line then
    upd (trimStr (afterKey 7 line)) (codename m) (msuite m) (version m) (date m) (description m)
  else if startsWith "Codename:" line then
    upd (origin m) (trimStr (afterKey 9 line)) (msuite m) (version m) (date m) (description m)
  else if startsWith "Suite:" line then
    upd (origin m) (codename m) (trimStr (afterKey 6 line)) (version m) (date m) (description m)
  else if startsWith "Version:" line then
    upd (origin m) (codename m) (msuite m) (trimStr (afterKey 8 line)) (date m) (description m)
  else if startsWith "Date:" line then
    upd (origin m) (codename m) (msuite m) (version m) (trimStr (afterKey 5 line)) (description m)
  else if startsWith "Description:" line then
    upd (origin m) (codename m) (msuite m) (version m) (date m) (trimStr (afterKey 12 line))
  else m.

Section Probe.

(** The two things the probe asks of the machine besides the bytes of the
    cache file: the formatted modification time of an existing file, and
    the TCP reachability check [checkReachable(uri, timeout_ms)], whose
    threads, sockets and clock stay outside this development. *)
Variable mtimeText : string -> string.
Variable checkReachable : string -> Z -> bool.

Definition withLastUpdate (m : RepoMeta) (t : string) : RepoMeta :=
  mkRepoMeta (origin m) (codename m) (msuite m) (version m) (date m)
    (description m) t (reachable m) (error m).
Definition withError (m : RepoMeta) (e : string) : RepoMeta :=
  mkRepoMeta (origin m) (codename m) (msuite m) (version m) (date m)
    (description m) (lastUpdate m) (reachable m) e.
Definition withReachable (m : RepoMeta) (r : bool) : RepoMeta :=
  mkRepoMeta (origin m) (codename m) (msuite m) (version m) (date m)
    (description m) (lastUpdate m) r (error m).

(** [metaFromCache(repo)] on the disk [d]: a file that is there can be
    stat-ed and opened. *)
Definition metaFromCache (d : gmap string string) (repo : RepoEntry) : RepoMeta :=
  let m := emptyMeta in
  if empty (uri repo) || empty (suite repo) then m
  else
    let p := relPath repo in
    match d !! p with
    | None => withError m "Cache not found (run apt update)"
    | Some bytes =>
        fold_left metaStep (getlines EmptyString bytes)
                  (withLastUpdate m (mtimeText p))
    end.

(** The body of the worker thread of [fetchMetaAsync]: the [RepoMeta] it
    stores in the mailbox. *)
Definition probe (d : gmap string string) (r : RepoEntry) : RepoMeta :=
  let m := metaFromCache d r in
  withReachable m (checkReachable (uri r) 3000%Z).

(** [g_asyncMeta]. *)
Record AsyncMeta := mkAsyncMeta {
  meta : RepoMeta;
  ready : bool;
  running : bool;
  lastUri : string
}.

(** [fetchMetaAsync(repo)] followed by the completion of its worker. *)
Definition fetchMetaAsync (d : gmap string string) (a : AsyncMeta) (repo : RepoEntry)
  : AsyncMeta :=
  if running a then a
  else {| meta := probe d repo; ready := true; running := false;
          lastUri := uri repo +:+ suite repo |}.

End Probe.

(** ** Section 1 of main.cpp: case-insensitive search *)

(** [containsCI(haystack, needle)] *)
Definition containsCI (haystack needle : string) : bool :=
  contains (toLower needle) (toLower haystack).

(** ** Section 7 of main.cpp: filter and sort *)

(** The loop of [rebuildFiltered] over [g_repos], [i] being the index of
    the first entry of [repos]. *)
Fixpoint filterFrom (g_filterStr : string) (i : nat) (repos : list RepoEntry)
  : list nat :=
  match repos with
  | [] => []
  | r :: rest =>
      if empty g_filterStr || containsCI (display r) g_filterStr
      then i :: filterFrom g_filterStr (S i) rest
      else filterFrom g_filterStr (S i) rest
  end.

(** The lambda [cmp] on two entries: [switch (g_cfg.sortMode)]. The
    [operator<] of [std::string] compares the bytes as unsigned, which is
    [String.ltb]; [ra.enabled > rb.enabled] holds for [true > false]. *)
Definition cmpRepos (sortMode : Z) (ra rb : RepoEntry) : bool :=
  if (sortMode =? 1)%Z then
    if negb (Bool.eqb (enabled ra) (enabled rb)) then enabled ra && negb (enabled rb)
    else String.ltb (display ra) (display rb)
  else if (sortMode =? 2)%Z then
    String.ltb (toLower (display ra)) (toLower (display rb))
  else
    if negb (String.eqb (file ra) (file rb)) then String.ltb (file ra) (file rb)
    else String.ltb (display ra) (display rb).

(** [cmp(a, b)] on indices into [g_repos]. *)
Definition cmp (sortMode : Z) (g_repos : list RepoEntry) (a b : nat) : bool :=
  match g_repos !! a, g_repos !! b with
  | Some ra, Some rb => cmpRepos sortMode ra rb
  | _, _ => false
  end.

(** [std::stable_sort(first, last, cmp)]: the sorted order in which
    equivalent elements keep their relative order, computed by inserting
    each element in front of the sorted rest. *)
Fixpoint insertSorted (lt : nat -> nat -> bool) (x : nat) (l : list nat) : list nat :=
  match l with
  | [] => [x]
  | y :: ys => if lt y x then y :: insertSorted lt x ys else x :: l
  end.

Definition stable_sort (lt : nat -> nat -> bool) (l : list nat) : list nat :=
  foldr (insertSorted lt) [] l.

(** [rebuildFiltered()]: the new [g_filtered]. *)
Definition rebuildFiltered (sortMode : Z) (g_filterStr : string)
    (g_repos : list RepoEntry) : list nat :=
  stable_sort (cmp sortMode g_repos) (filterFrom g_filterStr 0 g_repos).

(** ** Section 14 of main.cpp: the selection *)

(** Arithmetic of [int]: the result taken modulo [2^32] into the range of
    a 32-bit two's complement integer. *)
Definition wrapInt (z : Z) : Z :=
  ((z + 2147483648) mod 4294967296 - 2147483648)%Z.

(** [g_selected] and [g_scrollOff]. *)
Record Selection := mkSelection {
  g_selected : Z;
  g_scrollOff : Z
}.

(** [clampSelection()] with the terminal height [LINES]. *)
Definition clampSelection (LINES : Z) (g_filtered : list nat) (v : Selection)
  : Selection :=
  let sz := wrapInt (Z.of_nat (length g_filtered)) in
  if (sz =? 0)%Z then {| g_selected := 0; g_scrollOff := 0 |}
  else
    let selected := Z.max 0 (Z.min (g_selected v) (wrapInt (sz - 1))) in
    let listH0 := wrapInt (LINES - 5) in
    let listH := if (listH0 <? 1)%Z then 1%Z else listH0 in
    let off1 := if (selected <? g_scrollOff v)%Z then selected else g_scrollOff v in
    let off2 := if (wrapInt (off1 + listH) <=? selected)%Z
                then wrapInt (wrapInt (selected - listH) + 1) else off1 in
    {| g_selected := selected; g_scrollOff := Z.max 0 off2 |}.

(** [currentRepoIndex()]; [None] is a read of [g_filtered] outside its
    bounds. *)
Definition currentRepoIndex (g_filtered : list nat) (v : Selection) : option Z :=
  match g_filtered with
  | [] => Some (-1)%Z
  | _ =>
      if (g_selected v <? 0)%Z then None
      else Z.of_nat <$> g_filtered !! Z.to_nat (g_selected v)
  end.

(** ** Section 2 of main.cpp: the configuration *)

Module Cfg.

(** [struct Config]. *)
Record Config := mkConfig {
  themeIndex : Z;
  sortMode : Z;
  backupDir : string;
  confirmToggle : bool
}.

(** The default-constructed [g_cfg]. *)
Definition defaults : Config :=
  {| themeIndex := 0; sortMode := 0; backupDir := "/var/backups/relix";
     confirmToggle := false |}.

(** [configPath()], [home] being [getenv("HOME")], and its
    [parent_path()]. *)
Definition configPath (home : option string) : string :=
  match home with
  | Some h => h +:+ "/.config/relix/config"
  | None => "/tmp/relix.config"
  end.

Definition configDir (home : option string) : string :=
  match home with
  | Some h => h +:+ "/.config/relix"
  | None => "/tmp"
  end.

Definition isDigit (c : ascii) : bool :=
  (Nat.leb 48 (nat_of_ascii c) && Nat.leb (nat_of_ascii c) 57)%bool.

Fixpoint skipSpace (s : string) : string :=
  match s with
  | EmptyString => EmptyString
  | String c r => if isSpace c then skipSpace r else s
  end.

(** The value of the leading digits of [s], after the digits of [acc]. *)
Fixpoint digitsFrom (acc : Z) (s : string) : Z :=
  match s with
  | EmptyString => acc
  | String c r =>
      if isDigit c then digitsFrom (10 * acc + (Z.of_nat (nat_of_ascii c) - 48))%Z r
      else acc
  end.

(** [std::stoi(s)], which is [strtol] in base 10: white space, an optional
    sign, then the digits up to the first other character. [None] is an
    exception, [std::invalid_argument] without a digit and
    [std::out_of_range] for a value that is no [int]. *)
Definition stoi (s : string) : option Z :=
  let s1 := skipSpace s in
  let neg := match s1 with String c _ => Ascii.eqb c "-" | EmptyString => false end in
  let s2 := match s1 with
            | String c r => if (Ascii.eqb c "-" || Ascii.eqb c "+")%bool then r else s1
            | EmptyString => s1
            end in
  match s2 with
  | String c _ =>
      if isDigit c then
        let v := digitsFrom 0 s2 in
        let n := if neg then (- v)%Z else v in
        if ((-2147483648 <=? n)%Z && (n <=? 2147483647)%Z)%bool then Some n else None
      else None
  | EmptyString => None
  end.

(** [s.find(c)]; [None] is [npos]. *)
Fixpoint findChar (c : ascii) (s : string) : option nat :=
  match s with
  | EmptyString => None
  | String x r => if Ascii.eqb x c then Some O else S <$> findChar c r
  end.

(** One iteration of the [while (std::getline(f, line))] of [loadConfig];
    a [std::stoi] that throws leaves the field as it is. *)
Definition configStep (cfg : Config) (line : string) : Config :=
  match findChar "=" line with
  | None => cfg
  | Some eq =>
      let key := trimStr (substr line 0 eq) in
      let val := trimStr (default EmptyString (substrFrom line (S eq))) in
      if String.eqb key "theme" then
        match stoi val with
        | Some n => mkConfig n (sortMode cfg) (backupDir cfg) (confirmToggle cfg)
        | None => cfg
        end
      else if String.eqb key "sort" then
        match stoi val with
        | Some n => mkConfig (themeIndex cfg) n (backupDir cfg) (confirmToggle cfg)
        | None => cfg
        end
      else if String.eqb key "backup_dir" then
        mkConfig (themeIndex cfg) (sortMode cfg) val (confirmToggle cfg)
      else if String.eqb key "confirmToggle" then
        mkConfig (themeIndex cfg) (sortMode cfg) (backupDir cfg) (String.eqb val "1")
      else cfg
  end.

(** [loadConfig()] on [g_cfg], [file] being the bytes of the file at
    [configPath()] if it opens. *)
Definition loadConfig (g_cfg : Config) (file : option string) : Config :=
  match file with
  | None => g_cfg
  | Some bytes =>
      let c := fold_left configStep (getlines EmptyString bytes) g_cfg in
      mkConfig (Z.max 0 (Z.min 3 (themeIndex c))) (Z.max 0 (Z.min 2 (sortMode c)))
               (backupDir c) (confirmToggle c)
  end.

(** What [saveConfig] sends to the stream. *)
Definition configText (cfg : Config) : string :=
  "theme=" +:+ pretty (themeIndex cfg) +:+ String "010" EmptyString +:+
  "sort=" +:+ pretty (sortMode cfg) +:+ String "010" EmptyString +:+
  "backup_dir=" +:+ backupDir cfg +:+ String "010" EmptyString +:+
  "confirmToggle=" +:+ (if confirmToggle cfg then "1" else "0") +:+
  String "010" EmptyString.

(** [saveConfig()]: [create_directories] without an [error_code] throws
    when it fails; a stream that does not open is passed over in silence,
    and so is one that goes bad. *)
Definition saveConfig (mkdirErr : option string) (af : AppendFaults)
    (home : option string) (cfg : Config) : IO unit :=
  match mkdirErr with
  | Some e => lift (Throw ("filesystem error: " +:+ e))
  | None =>
      sys (OpMkdir (configDir home)) ;;;
      if negb (appOpens af) then ret tt
      else
        sys (OpCreate (configPath home)) ;;;
        appendBytes af (configPath home) (configText cfg) ;;;
        ret tt
  end.

End Cfg.

(** ** Section 12 of main.cpp: export *)




(** ** Section 13 of main.cpp: the address of the reachability check *)

(** [s.rfind(c)]; [None] is [npos]. *)
Fixpoint rfindChar (c : ascii) (s : string) : option nat :=
  match s with
  | EmptyString => None
  | String x r =>
      match rfindChar c r with
      | Some i => Some (S i)
      | None => if Ascii.eqb x c then Some O else None
      end
  end.

(** The head of [checkReachable(uri, timeout_ms)]: [host] and [portStr]
    as they are handed to [getaddrinfo]. *)
Definition hostPort (uri : string) : string * string :=
  let host0 := match findStr "://" uri with
               | Some spos => afterKey (spos + 3) uri
               | None => uri
               end in
  let portStr := if startsWith "https" uri then "443" else "80" in
  let host1 := match Cfg.findChar "/" host0 with
               | Some slash => substr host0 0 slash
               | None => host0
               end in
  match rfindChar ":" host1 with
  | Some colon => (substr host1 0 colon, afterKey (colon + 1) host1)
  | None => (host1, portStr)
  end.

(** * The vocabulary of the properties *)

(** ** Operations as scripts of system calls *)

(** The disk after the system calls [ops]. *)
Definition runOps (ops : list FsOp) (d : gmap string string) : gmap string string :=
  foldl (fun d op => applyOp op d) d ops.

(** The world after the system calls [ops], with the undo stack [u]. *)
Definition after (ops : list FsOp) (u : list UndoEntry) (w : World) : World :=
  {| disk := runOps ops (disk w); undoStack := u; backupDir := backupDir w;
     journal := journal w ++ ops |}.

(** The system calls of [atomicWriteLines] and what it returns. *)
Definition writeOps (flt : Faults) (path : string) (lines : list string) : list FsOp :=
  let tmp := tmpPath path in
  if negb (tmpOpens flt) then []
  else OpCreate tmp ::
       match written flt with
       | Some k => [OpAppend tmp (String.substring 0 k (unlines lines))]
       | None =>
           OpAppend tmp (unlines lines) ::
           match renameErr flt with
           | Some _ => [OpRemove tmp]
           | None => [OpRename tmp path]
           end
       end.

Definition writeResult (flt : Faults) (errMsg : string) : bool * string :=
  if negb (tmpOpens flt) then (false, "Cannot open tmp file")
  else match written flt with
       | Some _ => (false, "Write error on tmp file")
       | None =>
           match renameErr flt with
           | Some e => (false, "rename() failed: " +:+ e)
           | None => (true, errMsg)
           end
       end.

(** The write succeeds exactly when the environment injects no fault. *)
Definition writeOk (flt : Faults) : bool :=
  tmpOpens flt && bool_decide (written flt = None) && bool_decide (renameErr flt = None).

(** The stack after [pushUndo]: the oldest snapshot goes when there are
    already [k_maxUndo]. *)
Definition pushed (st : list UndoEntry) (path : string) (lines : list string)
  : list UndoEntry :=
  (if decide (k_maxUndo <= length st)%nat then drop 1 st else st)
  ++ [ {| ufile := path; ulines := lines |} ].

Definition linesOf (d : gmap string string) (path : string) : list string :=
  match d !! path with
  | Some bytes => getlines EmptyString bytes
  | None => []
  end.

(** The system calls of [backupFile] on the disk [d], and what it returns. *)
Definition backupOps (flt : Faults) (dir : string) (d : gmap string string)
    (src : string) : list FsOp :=
  match mkdirErr flt with
  | Some _ => []
  | None =>
      OpMkdir dir ::
      match d !! src, copyErr flt with
      | Some _, None => [OpCopy src (backupDest dir src (stamp flt))]
      | Some c, Some (_, Some k) =>
          [OpCreate (backupDest dir src (stamp flt));
           OpAppend (backupDest dir src (stamp flt)) (String.substring 0 k c)]
      | _, _ => []
      end
  end.

Definition backupResult (flt : Faults) (d : gmap string string) (src : string)
  : bool * string :=
  match mkdirErr flt with
  | Some e => (false, "Cannot create backup dir: " +:+ e)
  | None =>
      match d !! src, copyErr flt with
      | None, _ => (false, "Backup copy failed: No such file or directory")
      | Some _, Some (e, _) => (false, "Backup copy failed: " +:+ e)
      | Some _, None => (true, EmptyString)
      end
  end.

(** The tail of toggle and delete, as one script. *)
Definition commitOps (flt : Faults) (w : World) (path : string)
    (lines : list string) : list FsOp :=
  OpRead path :: backupOps flt (backupDir w) (disk w) path ++ writeOps flt path lines.

Definition commitResult (flt : Faults) (w : World) (path : string) : bool * string :=
  let b := backupResult flt (disk w) path in
  writeResult flt (if fst b then EmptyString else "[warn] backup skipped: " +:+ snd b).

(** ** Outcomes of the mutations *)

(** The messages of the NotFound condition. *)
Definition isNotFound (msg : string) : bool :=
  String.eqb msg "Line not found in file (changed externally?)"
  || String.eqb msg "Block index out of range (file changed externally?)"
  || String.eqb msg "Line not found in file"
  || String.eqb msg "Block index out of range".

(** The target of a toggle or delete is absent from the lines read. *)
Definition targetAbsent (repo : RepoEntry) (lines : list string) : Prop :=
  if isDeb822 repo then blockAt (blockRanges lines) (blockIndex repo) = None
  else display repo ∉ lines.

(** Toggle and delete, the two operations that look a target up. *)
Inductive Lookup := LToggle | LDelete.

Definition runLookup (op : Lookup) (flt : Faults) (repo : RepoEntry)
  : IO (bool * string) :=
  match op with
  | LToggle => toggle flt repo
  | LDelete => deleteRepoClean flt repo
  end.

(** The lines that a toggle or a delete of [repo] hands to the write for
    the lines [L] it read; [None] when it does not get to the write. *)
Definition outLines (op : Lookup) (repo : RepoEntry) (L : list string)
  : option (list string) :=
  match op with
  | LToggle =>
      if isDeb822 repo then toggledBlockLines repo L
      else match toggleLoop repo false L with
           | Ret (true, out) => Some out
           | _ => None
           end
  | LDelete =>
      if isDeb822 repo then deletedBlockLines repo L
      else if fst (deleteLoop repo false L) then Some (snd (deleteLoop repo false L))
           else None
  end.

(** ** Disk states during a call *)

(** The disk before, between and after the system calls [ops]. *)
Fixpoint trace (ops : list FsOp) (d : gmap string string) : list (gmap string string) :=
  match ops with
  | [] => [d]
  | op :: rest => d :: trace rest (applyOp op d)
  end.

(** ** The text of a toggled line *)

(** After the comment marker: one following space, if there is one. *)
Definition skipOneSpace (rest : string) : string :=
  match rest with
  | String c r => if Ascii.eqb c " " then r else rest
  | EmptyString => rest
  end.

(** What toggling does to the text of a line, following the words of the
    specification: an active line gets the prefix ["# "]; a disabled line
    loses exactly one leading '#' and, if present, one following space,
    and keeps the rest unchanged. *)
Definition toggledLine_spec (en : bool) (l : string) : string :=
  if en then "# " +:+ l
  else match l with
       | String c rest => if Ascii.eqb c "#" then skipOneSpace rest else l
       | EmptyString => l
       end.

(** ** Mutations, rewriters and appenders *)

(** The three mutations of the engine; add carries the line typed and the
    answer to the target-file dialog. *)
Inductive Mutation :=
| MToggle (repo : RepoEntry)
| MDelete (repo : RepoEntry)
| MAdd (newLine dest0 : string).

Definition target (m : Mutation) : string :=
  match m with
  | MToggle repo | MDelete repo => file repo
  | MAdd _ dest0 => if empty dest0 then mainList else dest0
  end.

(** A mutation as its handler runs it: the success flag and the text
    shown in the status line. *)
Definition runMutation (flt : Faults) (af : AppendFaults) (m : Mutation)
  : IO (bool * string) :=
  match m with
  | MToggle repo => toggle flt repo
  | MDelete repo => deleteRepoClean flt repo
  | MAdd newLine dest0 =>
      r <~ addRepo flt af newLine dest0 ;; ret (negb (snd r), fst r)
  end.

(** The texts with which a mutation gives up before it touches anything:
    NotFound, a cancelled add, a failed validation. *)
Definition rejected (msg : string) : bool :=
  isNotFound msg
  || String.eqb msg "Add cancelled."
  || String.eqb msg "Invalid — must start with 'deb'.".

(** The system calls of the add handler once the line is valid. *)
Definition addOps (flt : Faults) (af : AppendFaults) (w : World)
    (newLine dest : string) : list FsOp :=
  OpRead dest :: backupOps flt (backupDir w) (disk w) dest ++
  (if appOpens af then
     [OpAppend dest EmptyString;
      OpAppend dest (match appWritten af with
                     | Some k => String.substring 0 k (newLine +:+ String "010" EmptyString)
                     | None => newLine +:+ String "010" EmptyString
                     end)]
   else []).

Definition addResult (af : AppendFaults) (dest : string) : string * bool :=
  if appOpens af then
    match appWritten af with
    | Some _ => ("Write error!", true)
    | None => ("Repository added to " +:+ dest, false)
    end
  else ("Cannot open " +:+ dest, true).

(** ** Lines and bytes *)

(** The last byte of [s] is a line feed. *)
Fixpoint endsWithNewline (s : string) : bool :=
  match s with
  | EmptyString => false
  | String c rest =>
      match rest with
      | EmptyString => Ascii.eqb c "010"
      | String _ _ => endsWithNewline rest
      end
  end.

(** A file of complete lines: empty, or ending in a line feed. *)
Definition newlineTerminated (bytes : string) : bool :=
  empty bytes || endsWithNewline bytes.

(** The operations that rewrite a file in full. *)
Inductive Rewriter :=
| RToggle (repo : RepoEntry)
| RDelete (repo : RepoEntry)
| RUndo.

(** The file a rewriter is about; for undo, the file of the top snapshot. *)
Definition rewritten (w : World) (r : Rewriter) : string :=
  match r with
  | RToggle repo | RDelete repo => file repo
  | RUndo => match last (undoStack w) with Some u => ufile u | None => EmptyString end
  end.

Definition runRewriter (flt : Faults) (r : Rewriter) : IO (bool * string) :=
  match r with
  | RToggle repo => toggle flt repo
  | RDelete repo => deleteRepoClean flt repo
  | RUndo => applyUndo flt EmptyString
  end.

(** Every disk state from before to after [ops] holds at [p] either the
    bytes of before or the complete line sequence [out], and the state
    after holds [out] exactly when [ok]. *)
Definition atomicAt (p : string) (d : gmap string string) (ops : list FsOp)
    (out : list string) (ok : bool) : Prop :=
  (forall d', d' ∈ trace ops d -> d' !! p = d !! p \/ d' !! p = Some (unlines out)) /\
  runOps ops d !! p = if ok then Some (unlines out) else d !! p.

Definition isAppendTo (p : string) (op : FsOp) : Prop :=
  exists data, op = OpAppend p data.

(** The bytes of [newLine] and its terminator that reach the file. *)
Definition appended (af : AppendFaults) (newLine : string) : string :=
  match appWritten af with
  | Some k => String.substring 0 k (newLine +:+ String "010" EmptyString)
  | None => newLine +:+ String "010" EmptyString
  end.

Fixpoint hasNewline (s : string) : bool :=
  match s with
  | EmptyString => false
  | String c rest => Ascii.eqb c "010" || hasNewline rest
  end.

Definition qualifies (c : ascii) (r : string) : bool :=
  startsWith "deb" (String c r) || Ascii.eqb c "#" && startsWith "deb" (trimStr r).

(** The line of an entry with body [L]: [L] when active, [# L] when
    disabled. *)
Definition lineOf (en : bool) (L : string) : string :=
  if en then L else "# " +:+ L.

(** ** Blocks, ranges and the [Enabled:] line *)

(** The lines of the range [(s, e)], both ends included. *)
Definition slice (lines : list string) (r : nat * nat) : list string :=
  take (S (snd r) - fst r) (drop (fst r) lines).

(** What one [processBlock] call appends to [g_repos]. *)
Definition callEntries (path : string) (c : list string * Z) : list RepoEntry :=
  if accepted (fst c) then blockEntries path (fst c) (snd c) else [].

Fixpoint countAccepted (calls : list (list string * Z)) : nat :=
  match calls with
  | [] => 0
  | c :: rest => (if accepted (fst c) then 1 else 0) + countAccepted rest
  end.

(** The ranges come in file order and do not overlap. *)
Definition rangesAscend (rs : list (nat * nat)) : Prop :=
  forall j k r' r, (j < k)%nat -> rs !! j = Some r' -> rs !! k = Some r ->
    (snd r' < fst r)%nat.

(** A line the field loop reads as an [Enabled:] field. *)
Definition isEnabledLine (l : string) : bool := startsWith "Enabled:" (trimStr l).

(** The value the field loop gives [enabled] on such a line. *)
Definition enabledValue (l : string) : bool :=
  let v := trimStr (afterKey 8 (trimStr l)) in
  String.eqb v "yes" || String.eqb v "Yes" || String.eqb v "YES".

(** The text toggle writes for the state [en]. *)
Definition enabledText (en : bool) : string :=
  if en then "Enabled: yes" else "Enabled: no".

Definition setEnabled (f : BlockFields) (v : bool) : BlockFields :=
  mkBlockFields (bTypes f) (bUris f) (bSuites f) (bCompRaw f) (bComps f) v.

(** Equal in every field but [enabled]. *)
Definition sameButEnabled (f f' : BlockFields) : Prop :=
  setEnabled f true = setEnabled f' true.

(** The block [r] of [L] has its only [Enabled:] line at [i]. *)
Definition onlyEnabledAt (L : list string) (r : nat * nat) (i : nat) : Prop :=
  (fst r <= i <= snd r)%nat /\
  isEnabledLine (default EmptyString (L !! i)) = true /\
  forall j, (fst r <= j <= snd r)%nat -> j <> i ->
    isEnabledLine (default EmptyString (L !! j)) = false.

(** ** Toggling twice *)

(** The parser [loadRepos] runs on the file of an entry of this format. *)
Definition loadFile (e : RepoEntry) (lines : list string) : list RepoEntry :=
  if isDeb822 e then parseSourcesFile (file e) lines
  else parseListFile (file e) lines.

(** Toggle [e], reload its file, toggle the reloaded entry that [same]
    picks out: the first toggle succeeds, the reloaded list has such an
    entry, each such entry is in the other state, and its toggle succeeds
    and leaves the file with the bytes [bytes]. *)
Definition roundTrips (flt1 flt2 : Faults) (w : World) (e : RepoEntry)
    (bytes : string) (same : RepoEntry -> Prop) : Prop :=
  exists m1 w1,
    toggle flt1 e w = Ret ((true, m1), w1) /\
    (exists e', e' ∈ loadFile e (linesOf (disk w1) (file e)) /\ same e') /\
    (forall e', e' ∈ loadFile e (linesOf (disk w1) (file e)) -> same e' ->
       enabled e' = negb (enabled e) /\
       exists m2 w2, toggle flt2 e' w1 = Ret ((true, m2), w2) /\
         disk w2 !! file e = Some bytes).

(** ** Characters of a string *)

(** Every character of [s] satisfies [P]. *)
Fixpoint allChars (P : ascii -> bool) (s : string) : bool :=
  match s with
  | EmptyString => true
  | String c rest => P c && allChars P rest
  end.

(** [s] without its trailing characters of the set of [trimStr]. *)
Definition rtrim (s : string) : string :=
  match find_last_not_of s with
  | Some en => String.substring 0 (S en) s
  | None => EmptyString
  end.

(** ** Entries as the parsers leave them *)

(** A word of [splitWords]: not empty, no whitespace. *)
Definition isWord (x : string) : Prop :=
  x <> EmptyString /\ allChars (fun c => negb (isSpace c)) x = true.

(** ** Import *)

(** A trimmed line that the import loop appends: it starts with [deb] and
    the dedup loop finds it in no loaded entry. *)
Definition importable (existing : list string) (t : string) : bool :=
  startsWith "deb" t &&
  match isDup t existing with
  | Ret false => true
  | _ => false
  end.

(** The lines that [importRepos] appends for the lines of the import file. *)
Definition importedLines (existing : list string) (lines : list string) : list string :=
  List.filter (importable existing) (map trimStr lines).

(** What gets through of [data] on a stream that goes bad after [left]
    bytes. *)
Definition reached (left : option nat) (data : string) : string :=
  match left with
  | Some k => String.substring 0 k data
  | None => data
  end.

(** What such a stream still lets through once [data] went into it. *)
Definition leftAfter (left : option nat) (data : string) : option nat :=
  match left with
  | Some k => Some (k - String.length data)%nat
  | None => None
  end.

(** The system calls of writing [datas], one after the other, into such a
    stream on [path]. *)
Fixpoint streamOps (path : string) (left : option nat) (datas : list string)
  : list FsOp :=
  match datas with
  | [] => []
  | data :: rest =>
      OpAppend path (reached left data) :: streamOps path (leftAfter left data) rest
  end.

(** ** Runs of lines *)

(** Line [j] of [L] exists and is not blank; exists and is blank. *)
Definition nonBlankAt (L : list string) (j : nat) : Prop :=
  exists l, L !! j = Some l /\ empty (trimStr l) = false.

Definition blankAt (L : list string) (j : nat) : Prop :=
  exists l, L !! j = Some l /\ empty (trimStr l) = true.

(** [r] is a maximal run of non-blank lines of [L]: every line of the
    range is there and not blank, the line before it, if any, is blank,
    and the line after it is blank or past the end. *)
Definition isRun (L : list string) (r : nat * nat) : Prop :=
  (fst r <= snd r)%nat /\
  (forall j, (fst r <= j <= snd r)%nat -> nonBlankAt L j) /\
  (fst r = 0%nat \/ blankAt L (fst r - 1)) /\
  ~ nonBlankAt L (S (snd r)).

(** What the scan knows at index [i]: inside a block that began at [bs],
    or behind a blank line or at the start. *)
Definition scanInv (L : list string) (i bs : nat) (inB : bool) : Prop :=
  if inB then
    (bs < i)%nat /\ (forall j, (bs <= j < i)%nat -> nonBlankAt L j) /\
    (bs = 0%nat \/ blankAt L (bs - 1))
  else i = 0%nat \/ blankAt L (i - 1).

(** ** Paragraphs in their file *)

(** The lines before a paragraph: none, or ending in a blank line. The
    lines after it: none, or starting with a blank line. *)
Definition blankEnded (A : list string) : Prop :=
  A = [] \/ exists A' b, A = A' ++ [b] /\ empty (trimStr b) = true.

Definition blankStarted (X : list string) : Prop :=
  X = [] \/ exists b B, X = b :: B /\ empty (trimStr b) = true.

(** What a block adds to the counter [blockIndex] of the parser. *)
Definition counted (blk : list string) : Z := if accepted blk then 1%Z else 0%Z.

(** The entry [e] with its [blockIndex] lowered by [d]; with [enabled]
    set to [v]. *)
Definition reindexed (d : Z) (e : RepoEntry) : RepoEntry :=
  {| file := file e; display := display e; enabled := enabled e;
     isDeb822 := isDeb822 e; blockIndex := (blockIndex e - d)%Z;
     uri := uri e; suite := suite e; components := components e;
     types := types e |}.

Definition withEnabled (v : bool) (e : RepoEntry) : RepoEntry :=
  {| file := file e; display := display e; enabled := v;
     isDeb822 := isDeb822 e; blockIndex := blockIndex e;
     uri := uri e; suite := suite e; components := components e;
     types := types e |}.

(** The blank line behind the block ending at [e] that delete swallows. *)
Definition swallowed (L : list string) (e : nat) : nat :=
  match L !! S e with
  | Some l => if empty (trimStr l) then 1%nat else 0%nat
  | None => 0%nat
  end.

(** ** The selection and the list shown *)

(** The values of an [int]. *)
Definition isInt (z : Z) : Prop := (-2147483648 <= z <= 2147483647)%Z.

(** [listHeight()], the rows of the list pane. *)
Definition listRows (LINES : Z) : Z := Z.max 1 (LINES - 5).

(** The entry at index [i] is there and passes the filter. *)
Definition shown (g_filterStr : string) (g_repos : list RepoEntry) (i : nat) : Prop :=
  exists r, g_repos !! i = Some r /\
    (empty g_filterStr || containsCI (display r) g_filterStr = true).

(** The order [rebuildFiltered] sorts by: [cmp], and the index among the
    entries that [cmp] does not tell apart. *)
Definition sortsBefore (sortMode : Z) (g_repos : list RepoEntry) (a b : nat) : Prop :=
  cmp sortMode g_repos a b = true \/
  (cmp sortMode g_repos b a = false /\ (a < b)%nat).

(** [a <= b] in the order of [cmp]. *)
Definition leRepos (sortMode : Z) (ra rb : RepoEntry) : bool :=
  negb (cmpRepos sortMode rb ra).

(** [l] is in the order [R]: an element stands in [R] to every later one. *)
Definition sortedBy (R : nat -> nat -> Prop) (l : list nat) : Prop :=
  forall i j a b, (i < j)%nat -> l !! i = Some a -> l !! j = Some b -> R a b.

(** ** Names inside a directory *)

(** [name] has no path separator. *)
Definition noSlash (name : string) : bool :=
  allChars (fun c => negb (Ascii.eqb c "/")) name.

(** ** Export and import *)



(** ** The parts of a URI *)

(** [s] has no colon. *)
Definition noColon (s : string) : bool :=
  allChars (fun c => negb (Ascii.eqb c ":")) s.

(** [scheme://host], then [:port] and [/path] if given. *)
Definition uriOf (scheme host : string) (port path : option string) : string :=
  scheme +:+ "://" +:+ host +:+
  match port with Some p => ":" +:+ p | None => EmptyString end +:+
  match path with Some r => "/" +:+ r | None => EmptyString end.

(** ** The entries of a paragraph file *)

(** The entry that [processBlock] pushes for the URI [u] and the suite [s]
    of a block with the fields [f], under the index [idx]. *)
Definition pairEntry (path : string) (f : BlockFields) (idx : Z) (u s : string)
  : RepoEntry :=
  {| file := path; display := sourcesDisplay (bTypes f) u s (bComps f);
     enabled := bEnabled f; isDeb822 := true; blockIndex := idx;
     types := bTypes f; uri := u; suite := s; components := bCompRaw f |}.

(** The number of accepted blocks among the first [k] blocks of [lines]. *)
Definition acceptedBefore (lines : list string) (k : nat) : nat :=
  length (List.filter (fun r => accepted (slice lines r)) (take k (blockRanges lines))).

(** The entries of block number [k] of [lines], which lies at [r]: none
    when the block is rejected, else one for every URI and every suite,
    the suites of the first URI first. *)
Definition entriesOfBlock (path : string) (lines : list string) (k : nat)
    (r : nat * nat) : list RepoEntry :=
  let f := blockFields (slice lines r) in
  if accepted (slice lines r)
  then flat_map (fun u =>
         map (pairEntry path f (Z.of_nat (acceptedBefore lines k)) u) (bSuites f))
         (bUris f)
  else [].

(** * Properties *)

(** ** Strings *)

Lemma substrFrom_1_nonempty t : empty t = false -> is_Some (substrFrom t 1).
Proof. destruct t as [|c t']; [done|]. intros _. by eexists. Qed.

Lemma at_0_cons c s : at_ (String c s) 0 = c.
Proof. reflexivity. Qed.

Lemma ascii_eqb_true (a b : ascii) : Ascii.eqb a b = true <-> a = b.
Proof. apply Ascii.eqb_eq. Qed.

(** ** The one-line parser *)

Lemma parseListLine_inv path line e :
  parseListLine path line = Some e ->
  file e = path /\ display e = line /\ isDeb822 e = false /\
  exists c r, trimStr line = String c r /\ enabled e = negb (Ascii.eqb c "#").
Proof.
  unfold parseListLine. destruct (trimStr line) as [|c r] eqn:Ht; [done|].
  cbn [empty]. rewrite at_0_cons.
  destruct (negb _ && negb _); [done|].
  intros [= <-]. cbn. eauto 10.
Qed.

Lemma parseListFile_elem path lines e :
  e ∈ parseListFile path lines <->
  exists line, line ∈ lines /\ parseListLine path line = Some e.
Proof. unfold parseListFile. apply list_elem_of_omap. Qed.

(** C7. For every entry the one-line parser produces, [enabled] is false
    exactly when the entry's [display], trimmed of surrounding whitespace,
    begins with the character '#'. *)
Theorem oneline_enabled_iff_hash path lines e :
  e ∈ parseListFile path lines ->
  enabled e = false <-> exists rest, trimStr (display e) = String "#" rest.
Proof.
  intros (line & _ & Hp)%parseListFile_elem.
  destruct (parseListLine_inv _ _ _ Hp) as (_ & Hd & _ & c & r & Ht & He).
  rewrite Hd, Ht, He. split.
  - intros Hc%negb_false_iff%ascii_eqb_true. subst c. eauto.
  - intros [rest [= -> _]]. reflexivity.
Qed.

Lemma oneline_enabled_iff_hash_witness :
  let e := {| file := "/etc/apt/sources.list"; display := "  #deb http://a focal main";
              enabled := false; isDeb822 := false; blockIndex := (-1)%Z;
              uri := "http://a"; suite := "focal"; components := "main";
              types := "deb" |} in
  enabled e = false <-> exists rest, trimStr (display e) = String "#" rest.
Proof.
  intros e.
  apply (oneline_enabled_iff_hash "/etc/apt/sources.list"
           ["deb http://b focal main"; "  #deb http://a focal main"] e).
  vm_compute. apply list_elem_of_further, list_elem_of_here.
Defined.

(** ** The journal: every operation is a script of system calls *)

Lemma runOps_app ops1 ops2 d : runOps (ops1 ++ ops2) d = runOps ops2 (runOps ops1 d).
Proof. apply foldl_app. Qed.

Lemma after_after ops1 ops2 u1 u2 w :
  after ops2 u2 (after ops1 u1 w) = after (ops1 ++ ops2) u2 w.
Proof. unfold after; cbn. by rewrite runOps_app, app_assoc. Qed.

Lemma after_nil w : after [] (undoStack w) w = w.
Proof. destruct w; unfold after; cbn. by rewrite app_nil_r. Qed.

Lemma sys_eq op w : sys op w = Ret (tt, after [op] (undoStack w) w).
Proof. reflexivity. Qed.

Lemma bind_sys {B} op (k : unit -> IO B) w :
  bind (sys op) k w = k tt (after [op] (undoStack w) w).
Proof. reflexivity. Qed.

Lemma bind_ret_l {A B} (m : IO A) (k : A -> IO B) w a w' :
  m w = Ret (a, w') -> bind m k w = k a w'.
Proof. unfold bind. by intros ->. Qed.

Lemma bind_throw {A B} (m : IO A) (k : A -> IO B) w e :
  m w = Throw e -> bind m k w = Throw e.
Proof. unfold bind. by intros ->. Qed.

Lemma readAllLines_eq path w :
  readAllLines path w =
  Ret (match disk w !! path with
       | Some bytes => getlines EmptyString bytes
       | None => []
       end, after [OpRead path] (undoStack w) w).
Proof. reflexivity. Qed.

Lemma atomicWriteLines_eq flt path lines errMsg w :
  atomicWriteLines flt path lines errMsg w =
  Ret (writeResult flt errMsg, after (writeOps flt path lines) (undoStack w) w).
Proof.
  unfold atomicWriteLines, writeResult, writeOps.
  destruct (tmpOpens flt); cbn [negb].
  - destruct (written flt) as [k|]; [|destruct (renameErr flt)];
      rewrite !bind_sys; unfold ret; cbn [undoStack after]; by rewrite !after_after.
  - unfold ret. by rewrite after_nil.
Qed.

Lemma writeResult_ok flt errMsg :
  fst (writeResult flt errMsg) = writeOk flt.
Proof.
  unfold writeResult, writeOk.
  destruct (tmpOpens flt), (written flt), (renameErr flt); reflexivity.
Qed.

Lemma writeResult_msg_ok flt errMsg :
  writeOk flt = true -> writeResult flt errMsg = (true, errMsg).
Proof.
  unfold writeResult, writeOk.
  destruct (tmpOpens flt), (written flt), (renameErr flt); done.
Qed.

Lemma pushUndo_eq path w :
  pushUndo path w =
  Ret (tt, after [OpRead path] (pushed (undoStack w) path (linesOf (disk w) path)) w).
Proof.
  unfold pushUndo, bind. rewrite readAllLines_eq. unfold getUndo, setUndo, after. cbn.
  reflexivity.
Qed.

Lemma backupFile_eq flt src w :
  backupFile flt src w =
  Ret (backupResult flt (disk w) src,
       after (backupOps flt (backupDir w) (disk w) src) (undoStack w) w).
Proof.
  unfold backupFile, backupResult, backupOps, bind, getBackupDir.
  destruct (mkdirErr flt) as [e|].
  - unfold ret. by rewrite after_nil.
  - rewrite sys_eq. unfold getDisk. cbn [disk after runOps foldl applyOp].
    destruct (disk w !! src) as [c|] eqn:Hs;
      [destruct (copyErr flt) as [[e' [k|]]|]|]; try reflexivity.
    + rewrite !sys_eq. unfold ret. cbn [undoStack after]. by rewrite !after_after.
    + rewrite sys_eq, after_after. unfold ret. reflexivity.
Qed.

Lemma commitLines_eq flt path lines w :
  commitLines flt path lines w =
  Ret (commitResult flt w path,
       after (commitOps flt w path lines)
             (pushed (undoStack w) path (linesOf (disk w) path)) w).
Proof.
  unfold commitLines, commitResult, commitOps.
  rewrite (bind_ret_l _ _ _ _ _ (pushUndo_eq path w)).
  rewrite (bind_ret_l _ _ _ _ _ (backupFile_eq flt path _)).
  rewrite atomicWriteLines_eq, !after_after. reflexivity.
Qed.

(** ** Undo *)

Lemma applyUndo_empty flt errMsg w :
  undoStack w = [] -> applyUndo flt errMsg w = Ret ((false, "Nothing to undo."), w).
Proof. unfold applyUndo, bind, getUndo. by intros ->. Qed.

Lemma applyUndo_top flt errMsg w u :
  last (undoStack w) = Some u ->
  applyUndo flt errMsg w =
  Ret (writeResult flt errMsg,
       after (writeOps flt (ufile u) (ulines u))
             (if writeOk flt then removelast (undoStack w) else undoStack w) w).
Proof.
  intros Hu. unfold applyUndo, bind at 1, getUndo. rewrite Hu.
  rewrite (bind_ret_l _ _ _ _ _ (atomicWriteLines_eq _ _ _ _ _)).
  rewrite <- (writeResult_ok flt errMsg).
  destruct (writeResult flt errMsg) as [[] msg]; cbn; [|reflexivity].
  unfold bind, setUndo, ret, after. reflexivity.
Qed.

(** C10. [applyUndo] pops the top snapshot only after the atomic write of
    its lines has succeeded: when the write reports a failure, [applyUndo]
    reports the same failure and the undo stack is the one before the
    call, the snapshot still on top; when the write succeeds, exactly the
    top snapshot is gone. *)
Theorem applyUndo_pops_after_write flt errMsg w u ok msg w1 :
  last (undoStack w) = Some u ->
  atomicWriteLines flt (ufile u) (ulines u) errMsg w = Ret ((ok, msg), w1) ->
  exists w2,
    applyUndo flt errMsg w = Ret ((ok, msg), w2) /\
    disk w2 = disk w1 /\ journal w2 = journal w1 /\
    (ok = false -> w2 = w1 /\ undoStack w2 = undoStack w /\ last (undoStack w2) = Some u) /\
    (ok = true -> undoStack w2 = removelast (undoStack w)).
Proof.
  intros Hu. rewrite atomicWriteLines_eq. intros [= Hr <-].
  rewrite (applyUndo_top _ _ _ _ Hu), Hr.
  pose proof (writeResult_ok flt errMsg) as Hok. rewrite Hr in Hok. cbn in Hok.
  rewrite <- Hok. eexists; split; [reflexivity|].
  destruct ok; cbn; repeat split; try done.
Qed.

Lemma applyUndo_pops_after_write_witness :
  let u := {| ufile := "/etc/apt/sources.list"; ulines := ["deb http://a focal main"] |} in
  let w := {| disk := {[ "/etc/apt/sources.list" := "# deb http://a focal main
" ]}; undoStack := [u]; backupDir := "/var/backups/relix"; journal := [] |} in
  let flt := {| mkdirErr := None; stamp := "20240101_000000"; copyErr := None;
                tmpOpens := true; written := None;
                renameErr := Some "Permission denied" |} in
  exists w2,
    applyUndo flt "" w = Ret ((false, "rename() failed: Permission denied"), w2) /\
    undoStack w2 = [u].
Proof.
  intros u w flt.
  destruct (applyUndo_pops_after_write flt "" w u false
              "rename() failed: Permission denied"
              (after (writeOps flt (ufile u) (ulines u)) (undoStack w) w))
    as (w2 & H2 & _ & _ & Hf & _).
  - reflexivity.
  - rewrite atomicWriteLines_eq. reflexivity.
  - exists w2. split; [exact H2|]. by destruct (Hf eq_refl) as (_ & -> & _).
Defined.

(** ** Toggle and delete: locating the target *)

Lemma string_eqb_true (a b : string) : String.eqb a b = true <-> a = b.
Proof. apply String.eqb_eq. Qed.

Lemma string_eqb_false (a b : string) : String.eqb a b = false <-> a <> b.
Proof. apply String.eqb_neq. Qed.

Lemma toggleLoop_found repo lines : toggleLoop repo true lines = Ret (true, lines).
Proof. induction lines as [|l rest IH]; [done|]. cbn. by rewrite IH. Qed.

Lemma toggleLoop_absent repo lines :
  display repo ∉ lines -> toggleLoop repo false lines = Ret (false, lines).
Proof.
  induction lines as [|l rest IH]; [done|].
  intros [Hne Hrest]%not_elem_of_cons. cbn.
  assert (String.eqb l (display repo) = false) as -> by (apply string_eqb_false; congruence).
  by rewrite IH.
Qed.

Lemma toggleLoop_present repo pre post :
  display repo ∉ pre ->
  toggleLoop repo false (pre ++ display repo :: post) =
  (l' ← toggledLine (enabled repo) (display repo); Ret (true, pre ++ l' :: post)).
Proof.
  induction pre as [|l rest IH]; intros Hpre.
  - cbn. rewrite String.eqb_refl, toggleLoop_found.
    by destruct (toggledLine _ _).
  - apply not_elem_of_cons in Hpre as [Hne Hrest]. cbn.
    assert (String.eqb l (display repo) = false) as -> by (apply string_eqb_false; congruence).
    rewrite (IH Hrest). by destruct (toggledLine _ _).
Qed.

(** Where the first match is, when there is one. *)
Lemma first_match (x : string) (lines : list string) :
  x ∈ lines -> exists pre post, lines = pre ++ x :: post /\ x ∉ pre.
Proof.
  induction lines as [|l rest IH]; [by intros ?%elem_of_nil|].
  destruct (decide (l = x)) as [->|Hne].
  - intros _. exists [], rest. split; [done|]. apply not_elem_of_nil.
  - intros [?|Hin]%elem_of_cons; [congruence|].
    destruct (IH Hin) as (pre & post & -> & Hpre).
    exists (l :: pre), post. split; [done|].
    apply not_elem_of_cons. split; [congruence|done].
Qed.

Lemma toggleLoop_notfound_inv repo lines out :
  toggleLoop repo false lines = Ret (false, out) -> (display repo ∉ lines) /\ out = lines.
Proof.
  intros H. destruct (decide (display repo ∈ lines)) as [Hin|Hnin].
  - destruct (first_match _ _ Hin) as (pre & post & -> & Hpre).
    rewrite (toggleLoop_present _ _ _ Hpre) in H.
    by destruct (toggledLine _ _).
  - rewrite (toggleLoop_absent _ _ Hnin) in H. by injection H as <-.
Qed.

Lemma deleteLoop_found repo lines : deleteLoop repo true lines = (true, lines).
Proof. induction lines as [|l rest IH]; [done|]. cbn. by rewrite IH. Qed.

Lemma deleteLoop_absent repo lines :
  display repo ∉ lines -> deleteLoop repo false lines = (false, lines).
Proof.
  induction lines as [|l rest IH]; [done|].
  intros [Hne Hrest]%not_elem_of_cons. cbn.
  assert (String.eqb l (display repo) = false) as -> by (apply string_eqb_false; congruence).
  by rewrite IH.
Qed.

Lemma deleteLoop_present repo pre post :
  display repo ∉ pre ->
  deleteLoop repo false (pre ++ display repo :: post) = (true, pre ++ post).
Proof.
  induction pre as [|l rest IH]; intros Hpre.
  - cbn. by rewrite String.eqb_refl, deleteLoop_found.
  - apply not_elem_of_cons in Hpre as [Hne Hrest]. cbn.
    assert (String.eqb l (display repo) = false) as -> by (apply string_eqb_false; congruence).
    by rewrite (IH Hrest).
Qed.

Lemma commitResult_not_notfound flt w path :
  isNotFound (snd (commitResult flt w path)) = false.
Proof.
  unfold commitResult, writeResult, backupResult.
  destruct (tmpOpens flt); [|reflexivity]. cbn [negb].
  destruct (written flt); [reflexivity|].
  destruct (renameErr flt); [reflexivity|].
  destruct (mkdirErr flt); [reflexivity|].
  destruct (disk w !! path); [destruct (copyErr flt) as [[e' k']|]|]; reflexivity.
Qed.

Lemma toggleList_eq flt repo w :
  toggleList flt repo w =
  match toggleLoop repo false (linesOf (disk w) (file repo)) with
  | Throw e => Throw e
  | Ret (false, _) =>
      Ret ((false, "Line not found in file (changed externally?)"),
           after [OpRead (file repo)] (undoStack w) w)
  | Ret (true, out) =>
      commitLines flt (file repo) out (after [OpRead (file repo)] (undoStack w) w)
  end.
Proof.
  unfold toggleList.
  rewrite (bind_ret_l _ _ _ _ _ (readAllLines_eq _ _)). fold (linesOf (disk w) (file repo)).
  unfold bind, lift.
  destruct (toggleLoop _ _ _) as [[[] out]|e]; reflexivity.
Qed.

Lemma toggleDeb822_eq flt repo w :
  toggleDeb822 flt repo w =
  match toggledBlockLines repo (linesOf (disk w) (file repo)) with
  | None =>
      Ret ((false, "Block index out of range (file changed externally?)"),
           after [OpRead (file repo)] (undoStack w) w)
  | Some out =>
      commitLines flt (file repo) out (after [OpRead (file repo)] (undoStack w) w)
  end.
Proof.
  unfold toggleDeb822.
  rewrite (bind_ret_l _ _ _ _ _ (readAllLines_eq _ _)). fold (linesOf (disk w) (file repo)).
  destruct (toggledBlockLines _ _); reflexivity.
Qed.

Lemma deleteRepoClean_eq flt repo w :
  deleteRepoClean flt repo w =
  let lines := linesOf (disk w) (file repo) in
  let w1 := after [OpRead (file repo)] (undoStack w) w in
  if isDeb822 repo then
    match deletedBlockLines repo lines with
    | None => Ret ((false, "Block index out of range"), w1)
    | Some out => commitLines flt (file repo) out w1
    end
  else
    if fst (deleteLoop repo false lines)
    then commitLines flt (file repo) (snd (deleteLoop repo false lines)) w1
    else Ret ((false, "Line not found in file"), w1).
Proof.
  unfold deleteRepoClean.
  rewrite (bind_ret_l _ _ _ _ _ (readAllLines_eq _ _)). fold (linesOf (disk w) (file repo)).
  cbn zeta. destruct (isDeb822 repo); cbn [negb].
  - destruct (deletedBlockLines _ _); reflexivity.
  - destruct (fst (deleteLoop _ _ _)); reflexivity.
Qed.

(** C9. When toggle or delete fails with NotFound, it has returned before
    any snapshot, backup or write: the disk, the undo stack and the backup
    directory are those before the call, and the only system call made is
    the read of the file. *)
Theorem notfound_before_any_effect op flt repo w ok msg w' :
  runLookup op flt repo w = Ret ((ok, msg), w') ->
  isNotFound msg = true ->
  ok = false /\ disk w' = disk w /\ undoStack w' = undoStack w /\
  backupDir w' = backupDir w /\ journal w' = journal w ++ [OpRead (file repo)].
Proof.
  intros Hrun Hnf.
  assert (forall out w1,
            commitLines flt (file repo) out w1 = Ret ((ok, msg), w') -> False) as Hcommit.
  { intros out w1. rewrite commitLines_eq. intros [= Hr _].
    pose proof (commitResult_not_notfound flt w1 (file repo)) as Hc.
    rewrite Hr in Hc. cbn in Hc. congruence. }
  assert (forall m, Ret ((false, m), after [OpRead (file repo)] (undoStack w) w)
                    = Ret ((ok, msg), w') ->
            ok = false /\ disk w' = disk w /\ undoStack w' = undoStack w /\
            backupDir w' = backupDir w /\ journal w' = journal w ++ [OpRead (file repo)])
    as Hearly.
  { intros m [= <- _ <-]. done. }
  destruct op; cbn [runLookup] in Hrun.
  - unfold toggle in Hrun. destruct (isDeb822 repo).
    + rewrite toggleDeb822_eq in Hrun.
      destruct (toggledBlockLines _ _); [by apply Hcommit in Hrun|by eapply Hearly].
    + rewrite toggleList_eq in Hrun.
      destruct (toggleLoop _ _ _) as [[[] out]|e];
        [by apply Hcommit in Hrun|by eapply Hearly|done].
  - rewrite deleteRepoClean_eq in Hrun. cbn zeta in Hrun.
    destruct (isDeb822 repo).
    + destruct (deletedBlockLines _ _); [by apply Hcommit in Hrun|by eapply Hearly].
    + destruct (fst (deleteLoop _ _ _)); [by apply Hcommit in Hrun|by eapply Hearly].
Qed.

(** The NotFound condition is what an absent target gives. *)
Lemma absent_target_notfound op flt repo w :
  targetAbsent repo (linesOf (disk w) (file repo)) ->
  exists msg, isNotFound msg = true /\
    runLookup op flt repo w =
    Ret ((false, msg), after [OpRead (file repo)] (undoStack w) w).
Proof.
  unfold targetAbsent. intros Habs.
  destruct op; cbn [runLookup].
  - unfold toggle. destruct (isDeb822 repo).
    + rewrite toggleDeb822_eq. unfold toggledBlockLines. rewrite Habs. eexists; (split; [|reflexivity]); reflexivity.
    + rewrite toggleList_eq, (toggleLoop_absent _ _ Habs). eexists; (split; [|reflexivity]); reflexivity.
  - rewrite deleteRepoClean_eq. cbn zeta. destruct (isDeb822 repo).
    + unfold deletedBlockLines. rewrite Habs. eexists; (split; [|reflexivity]); reflexivity.
    + rewrite (deleteLoop_absent _ _ Habs). eexists; (split; [|reflexivity]); reflexivity.
Qed.

Lemma notfound_before_any_effect_witness :
  let repo := {| file := "/etc/apt/sources.list"; display := "deb http://a focal main";
                 enabled := true; isDeb822 := false; blockIndex := (-1)%Z;
                 uri := "http://a"; suite := "focal"; components := "main";
                 types := "deb" |} in
  let w := {| disk := {[ "/etc/apt/sources.list" := "deb http://b focal main
" ]}; undoStack := []; backupDir := "/var/backups/relix"; journal := [] |} in
  let w' := after [OpRead "/etc/apt/sources.list"] [] w in
  runLookup LDelete (noFaults "20240101_000000") repo w
    = Ret ((false, "Line not found in file"), w') /\
  disk w' = disk w /\ undoStack w' = undoStack w.
Proof.
  intros repo w w'.
  assert (runLookup LDelete (noFaults "20240101_000000") repo w
          = Ret ((false, "Line not found in file"), w')) as Hrun by (vm_compute; reflexivity).
  split; [exact Hrun|].
  destruct (notfound_before_any_effect LDelete (noFaults "20240101_000000") repo w
              false "Line not found in file" w' Hrun eq_refl) as (_ & Hd & Hu & _).
  split; [exact Hd|exact Hu].
Defined.

(** ** Import *)

Lemma isDup_short t ex rest :
  (String.length t < 4)%nat -> isDup t (ex :: rest) = Throw "std::out_of_range".
Proof.
  intros Hlen. cbn [isDup].
  destruct t as [|c1 [|c2 [|c3 [|c4 t]]]]; cbn in *; try reflexivity; lia.
Qed.

(** C5, at the failing input: with one repository loaded, importing a
    file whose only line is [deb] does not return; the [t.substr(4)] of the
    dedup loop throws [std::out_of_range], which nothing catches, whatever
    the append stream would let through. *)
Theorem importRepos_bare_deb_throws :
  let loaded := {| file := "/etc/apt/sources.list"; display := "deb http://a focal main";
                   enabled := true; isDeb822 := false; blockIndex := (-1)%Z;
                   uri := "http://a"; suite := "focal"; components := "main";
                   types := "deb" |} in
  let w := {| disk := {[ "/etc/apt/sources.list" := "deb http://a focal main
"; "/root/repos.txt" := "deb
" ]}; undoStack := []; backupDir := "/var/backups/relix"; journal := [] |} in
  forall left,
    importRepos [loaded] (mkAppendFaults true left) "/root/repos.txt" w
      = Throw "std::out_of_range".
Proof. intros loaded w left. vm_compute. reflexivity. Qed.

(** ** The metadata probe *)

Lemma metaStep_keeps m line :
  error (metaStep m line) = error m /\
  reachable (metaStep m line) = reachable m /\
  lastUpdate (metaStep m line) = lastUpdate m.
Proof.
  unfold metaStep.
  repeat match goal with |- context [if ?b then _ else _] => destruct b end; done.
Qed.

Lemma metaFold_keeps lines m :
  error (fold_left metaStep lines m) = error m /\
  reachable (fold_left metaStep lines m) = reachable m.
Proof.
  revert m. induction lines as [|l rest IH]; intros m; [done|].
  cbn [fold_left]. destruct (IH (metaStep m l)) as [-> ->].
  destruct (metaStep_keeps m l) as (-> & -> & _). done.
Qed.

Lemma empty_false s : empty s = false <-> s <> EmptyString.
Proof. by destruct s. Qed.

Lemma metaFromCache_error mt d r :
  error (metaFromCache mt d r) =
  if empty (uri r) || empty (suite r) then EmptyString
  else match d !! relPath r with
       | None => "Cache not found (run apt update)"
       | Some _ => EmptyString
       end.
Proof.
  unfold metaFromCache. destruct (empty (uri r) || empty (suite r)); [done|].
  destruct (d !! relPath r); [|done].
  by destruct (metaFold_keeps (getlines EmptyString s) (withLastUpdate emptyMeta (mt (relPath r)))) as [-> _].
Qed.

(** C8, as stated, fails: on an empty disk no cache file can be opened, yet
    the probe of an entry without a URI leaves [error] empty. *)
Lemma probe_error_counterexample :
  let r := {| file := "/etc/apt/sources.list"; display := "deb"; enabled := true;
              isDeb822 := false; blockIndex := (-1)%Z; uri := EmptyString;
              suite := EmptyString; components := EmptyString; types := "deb" |} in
  let d : gmap string string := ∅ in
  ~ (error (probe (fun _ => EmptyString) (fun _ _ => false) d r) <> EmptyString
     <-> d !! relPath r = None).
Proof. intros r d [_ H]. apply H; reflexivity. Qed.

(** C8, amended. [error] is populated exactly when the entry has both a
    URI and a suite and its cache file cannot be opened; for an entry
    without a URI or without a suite no lookup is made and [error] stays
    empty. [reachable] is always the answer of the network check on the
    entry's URI, whatever the cache lookup gave. *)
Theorem probe_error_and_reachable (mt : string -> string)
    (cr : string -> Z -> bool) (d : gmap string string) (r : RepoEntry) :
  (error (probe mt cr d r) <> EmptyString <->
   uri r <> EmptyString /\ suite r <> EmptyString /\ d !! relPath r = None) /\
  reachable (probe mt cr d r) = cr (uri r) 3000%Z.
Proof.
  split; [|reflexivity].
  unfold probe. cbn [withReachable error]. rewrite metaFromCache_error.
  rewrite <- !empty_false.
  destruct (empty (uri r)), (empty (suite r)); cbn; try (split; [done|by intros (?&?&?)]).
  destruct (d !! relPath r); split; try done. by intros (_&_&?).
Qed.

(** ** Paths and the disk *)

Lemma str_app_cons c (a b : string) : String c a +:+ b = String c (a +:+ b).
Proof. reflexivity. Qed.

Lemma str_app_nil_l (b : string) : EmptyString +:+ b = b.
Proof. reflexivity. Qed.

Lemma str_length_app (a b : string) :
  String.length (a +:+ b) = (String.length a + String.length b)%nat.
Proof.
  induction a as [|c a IH]; [done|].
  rewrite str_app_cons. cbn [String.length]. by rewrite IH.
Qed.

Lemma str_app_nil_r (a : string) : a +:+ EmptyString = a.
Proof. induction a as [|c a IH]; [done|]. by rewrite str_app_cons, IH. Qed.

Lemma str_app_assoc (a b c : string) : (a +:+ b) +:+ c = a +:+ (b +:+ c).
Proof. induction a as [|x a IH]; [done|]. by rewrite !str_app_cons, IH. Qed.

Lemma replaceSlash_length s : String.length (replaceSlash s) = String.length s.
Proof. induction s as [|c s IH]; simpl; [done|]. by f_equal. Qed.

Lemma tmpPath_ne path : tmpPath path <> path.
Proof.
  unfold tmpPath. intros H%(f_equal String.length).
  rewrite str_length_app in H. cbn in H. lia.
Qed.

Lemma backupDest_ne dir src ts : backupDest dir src ts <> src.
Proof.
  unfold backupDest. intros H%(f_equal String.length).
  rewrite !str_length_app, replaceSlash_length in H. cbn in H. lia.
Qed.

Lemma trace_app ops1 ops2 d d' :
  d' ∈ trace (ops1 ++ ops2) d <-> d' ∈ trace ops1 d \/ d' ∈ trace ops2 (runOps ops1 d).
Proof.
  revert d. induction ops1 as [|op ops1 IH]; intros d; cbn.
  - rewrite list_elem_of_singleton. split; [|intros [->|?]; [|done]].
    + tauto.
    + destruct ops2; cbn; apply list_elem_of_here.
  - rewrite !elem_of_cons, IH. tauto.
Qed.

Lemma trace_last ops d : runOps ops d ∈ trace ops d.
Proof.
  revert d. induction ops as [|op ops IH]; intros d; cbn.
  - apply list_elem_of_here.
  - apply list_elem_of_further, IH.
Qed.

(** The backup never touches the file it copies. *)
Lemma backupOps_keep flt dir d0 src d d' :
  d' ∈ trace (backupOps flt dir d0 src) d -> d' !! src = d !! src.
Proof.
  unfold backupOps. destruct (mkdirErr flt).
  { cbn. by intros ->%list_elem_of_singleton. }
  pose proof (backupDest_ne dir src (stamp flt)) as Hne.
  destruct (d0 !! src); [destruct (copyErr flt) as [[e' [k|]]|]|]; cbn;
    rewrite ?elem_of_cons, ?elem_of_nil; intros H;
    repeat (destruct H as [->|H]; [try done|]); try done;
    rewrite ?lookup_insert_eq; cbn; rewrite ?lookup_insert_ne by done; try done.
  destruct (d !! src) as [c|] eqn:Hs; [|done].
  rewrite lookup_insert_ne by done. done.
Qed.

(** The atomic write: the target holds its old bytes up to the rename,
    and the complete new bytes after it. *)
Lemma writeOps_atomic flt path lines d d' :
  d' ∈ trace (writeOps flt path lines) d ->
  d' !! path = d !! path \/ d' !! path = Some (unlines lines).
Proof.
  pose proof (tmpPath_ne path) as Hne.
  unfold writeOps. destruct (tmpOpens flt); cbn [negb].
  2:{ cbn. intros ->%list_elem_of_singleton. by left. }
  destruct (written flt) as [k|]; [|destruct (renameErr flt)]; cbn;
    rewrite ?elem_of_cons, ?elem_of_nil; intros H;
    repeat (destruct H as [->|H]);
    try done; rewrite ?lookup_insert_eq; cbn;
    rewrite ?lookup_delete_ne, ?lookup_insert_ne by done; auto.
Qed.

Lemma writeOps_final flt path lines d :
  runOps (writeOps flt path lines) d !! path =
  if writeOk flt then Some (unlines lines) else d !! path.
Proof.
  pose proof (tmpPath_ne path) as Hne.
  unfold writeOps, writeOk. destruct (tmpOpens flt); cbn [negb andb]; [|done].
  destruct (written flt) as [k|]; [|destruct (renameErr flt)]; cbn;
    rewrite ?lookup_insert_eq; cbn;
    rewrite ?lookup_delete_ne, ?lookup_insert_ne by done; done.
Qed.

Lemma commitOps_final flt w path lines :
  runOps (commitOps flt w path lines) (disk w) !! path =
  if writeOk flt then Some (unlines lines) else disk w !! path.
Proof.
  unfold commitOps. change (OpRead path :: ?l) with ([OpRead path] ++ l).
  rewrite !runOps_app, writeOps_final. destruct (writeOk flt); [done|].
  apply (backupOps_keep flt (backupDir w) (disk w) path). apply trace_last.
Qed.

(** ** Toggle of a one-line entry *)

Lemma dropMarker_hash rest :
  dropMarker (String "#" rest) = Some (skipOneSpace rest).
Proof.
  unfold dropMarker, at_, skipOneSpace. destruct rest as [|c r]; [done|].
  cbn. by destruct (Ascii.eqb c " ").
Qed.

(** C6, as stated, fails: the parser loads the disabled line
    [#deb http://a focal main  ] (two trailing spaces), and toggling it
    writes [deb http://a focal main], the trailing spaces gone, where the
    claim keeps them. *)
Lemma toggleList_counterexample :
  let path := "/etc/apt/sources.list" in
  let repo := {| file := path; display := "#deb http://a focal main  ";
                 enabled := false; isDeb822 := false; blockIndex := (-1)%Z;
                 uri := "http://a"; suite := "focal"; components := "main";
                 types := "deb" |} in
  let w := {| disk := {[ path := "#deb http://a focal main  
" ]}; undoStack := []; backupDir := "/var/backups/relix"; journal := [] |} in
  repo ∈ parseListFile path (linesOf (disk w) path) /\
  exists w', toggleList (noFaults "20240101_000000") repo w = Ret ((true, EmptyString), w') /\
    disk w' !! path = Some "deb http://a focal main
" /\
    disk w' !! path <> Some (unlines [toggledLine_spec (enabled repo) (display repo)]).
Proof.
  intros path repo w. split.
  - vm_compute. apply list_elem_of_here.
  - eexists. split; [vm_compute; reflexivity|]. split; [vm_compute; reflexivity|].
    vm_compute. discriminate.
Qed.

Lemma toggleList_absent flt repo w :
  (display repo ∉ linesOf (disk w) (file repo)) ->
  toggleList flt repo w =
  Ret ((false, "Line not found in file (changed externally?)"),
       after [OpRead (file repo)] (undoStack w) w).
Proof. intros Habs. by rewrite toggleList_eq, (toggleLoop_absent _ _ Habs). Qed.

Lemma toggleList_present flt repo w pre post new :
  linesOf (disk w) (file repo) = pre ++ display repo :: post ->
  (display repo ∉ pre) ->
  (enabled repo = true /\ new = "# " +:+ display repo) \/
  (enabled repo = false /\
   exists rest, display repo = String "#" rest /\ new = trimStr (skipOneSpace rest)) ->
  toggleList flt repo w =
  commitLines flt (file repo) (pre ++ new :: post)
              (after [OpRead (file repo)] (undoStack w) w).
Proof.
  intros Hl Hpre Hnew.
  rewrite toggleList_eq, Hl, (toggleLoop_present _ _ _ Hpre).
  destruct Hnew as [[Hen ->]|(Hen & rest & Hd & ->)]; rewrite Hen; cbn [toggledLine].
  - reflexivity.
  - rewrite Hd at 1. rewrite dropMarker_hash. reflexivity.
Qed.

(** A commit whose write succeeds returns success and leaves the new
    lines in the file. *)
Lemma commitLines_ok flt path lines w :
  writeOk flt = true ->
  exists msg w', commitLines flt path lines (after [OpRead path] (undoStack w) w)
                 = Ret ((true, msg), w') /\
    disk w' !! path = Some (unlines lines).
Proof.
  intros Hok. rewrite commitLines_eq. eexists _, _. split.
  - unfold commitResult. rewrite writeResult_msg_ok by done. reflexivity.
  - cbn [disk after].
    pose proof (commitOps_final flt (after [OpRead path] (undoStack w) w) path lines) as Hf.
    rewrite Hok in Hf. exact Hf.
Qed.

(** C6, amended. Toggle on a one-line entry finds the first line of the
    freshly read file equal to [display] and fails with NotFound when
    there is none. For an active entry it rewrites that line by prefixing
    ["# "]; for a disabled entry whose line begins with '#' it rewrites
    that line by stripping the '#' and, if present, one following space,
    and then trimming the surrounding whitespace of what is left. The
    other lines are written back as read. *)
Theorem toggleList_first_match flt repo w :
  let lines := linesOf (disk w) (file repo) in
  let w1 := after [OpRead (file repo)] (undoStack w) w in
  ((display repo ∉ lines) ->
     toggleList flt repo w =
     Ret ((false, "Line not found in file (changed externally?)"), w1)) /\
  (forall pre post new,
     lines = pre ++ display repo :: post -> (display repo ∉ pre) ->
     (enabled repo = true /\ new = "# " +:+ display repo) \/
     (enabled repo = false /\
      exists rest, display repo = String "#" rest /\ new = trimStr (skipOneSpace rest)) ->
     toggleList flt repo w = commitLines flt (file repo) (pre ++ new :: post) w1 /\
     (writeOk flt = true ->
      exists msg w', toggleList flt repo w = Ret ((true, msg), w') /\
        disk w' !! file repo = Some (unlines (pre ++ new :: post)))).
Proof.
  intros lines w1. split; [apply toggleList_absent|].
  intros pre post new Hl Hpre Hnew.
  pose proof (toggleList_present flt repo w pre post new Hl Hpre Hnew) as Heq.
  split; [exact Heq|]. intros Hok. rewrite Heq. by apply commitLines_ok.
Qed.

Lemma toggleList_first_match_witness :
  let path := "/etc/apt/sources.list" in
  let repo := {| file := path; display := "# deb http://a focal main";
                 enabled := false; isDeb822 := false; blockIndex := (-1)%Z;
                 uri := "http://a"; suite := "focal"; components := "main";
                 types := "deb" |} in
  let w := {| disk := {[ path := "deb http://b focal main
# deb http://a focal main
# deb http://a focal main
" ]}; undoStack := []; backupDir := "/var/backups/relix"; journal := [] |} in
  exists msg w', toggleList (noFaults "20240101_000000") repo w = Ret ((true, msg), w') /\
    disk w' !! path = Some "deb http://b focal main
deb http://a focal main
# deb http://a focal main
".
Proof.
  intros path repo w.
  destruct (toggleList_first_match (noFaults "20240101_000000") repo w) as [_ H].
  destruct (H ["deb http://b focal main"] ["# deb http://a focal main"]
              "deb http://a focal main") as [_ Hw].
  - vm_compute. reflexivity.
  - vm_compute. intros Hin. inversion Hin as [|? ? ? Hin']; inversion Hin'.
  - right. split; [reflexivity|]. exists " deb http://a focal main".
    split; [reflexivity|vm_compute; reflexivity].
  - exact (Hw eq_refl).
Defined.

(** ** Mutations and undo *)

Lemma addRepo_eq flt af newLine dest0 w :
  empty newLine = false -> startsWith "deb" newLine = true ->
  let dest := if empty dest0 then mainList else dest0 in
  addRepo flt af newLine dest0 w =
  Ret (addResult af dest,
       after (addOps flt af w newLine dest)
             (pushed (undoStack w) dest (linesOf (disk w) dest)) w).
Proof.
  intros Hne Hdeb dest. unfold addRepo. rewrite Hne, Hdeb. cbn [negb].
  fold mainList. fold dest.
  rewrite (bind_ret_l _ _ _ _ _ (pushUndo_eq dest w)).
  rewrite (bind_ret_l _ _ _ _ _ (backupFile_eq flt dest _)).
  unfold addResult, addOps. cbn [disk backupDir undoStack after runOps foldl applyOp].
  destruct (appOpens af); cbn [negb].
  - rewrite bind_sys. unfold appendBytes.
    destruct (appWritten af) as [k|];
      unfold bind at 1; rewrite bind_sys; unfold ret;
      cbn [undoStack after]; rewrite !after_after; reflexivity.
  - unfold ret. rewrite !after_after, app_nil_r. reflexivity.
Qed.

Lemma last_pushed st path lines :
  last (pushed st path lines) = Some {| ufile := path; ulines := lines |}.
Proof. unfold pushed. apply last_snoc. Qed.

Lemma removelast_pushed st path lines :
  removelast (pushed st path lines) =
  if decide (k_maxUndo <= length st)%nat then drop 1 st else st.
Proof. unfold pushed. apply removelast_last. Qed.

Lemma commitResult_not_rejected flt w path :
  rejected (snd (commitResult flt w path)) = false.
Proof.
  unfold rejected. rewrite commitResult_not_notfound. cbn [orb].
  unfold commitResult, writeResult, backupResult.
  destruct (tmpOpens flt); [|reflexivity]. cbn [negb].
  destruct (written flt); [reflexivity|].
  destruct (renameErr flt); [reflexivity|].
  destruct (mkdirErr flt); [reflexivity|].
  destruct (disk w !! path); [destruct (copyErr flt) as [[e' k']|]|]; reflexivity.
Qed.

(** A mutation that is not rejected has pushed the snapshot of its target
    as it was before the call, and nothing else onto the stack. *)
Lemma mutation_snapshot flt af m w r w1 :
  runMutation flt af m w = Ret (r, w1) ->
  rejected (snd r) = false ->
  undoStack w1 = pushed (undoStack w) (target m) (linesOf (disk w) (target m)).
Proof.
  intros Hrun Hrej.
  assert (forall out,
            commitLines flt (target m) out
              (after [OpRead (target m)] (undoStack w) w) = Ret (r, w1) ->
            undoStack w1 = pushed (undoStack w) (target m) (linesOf (disk w) (target m)))
    as Hcommit.
  { intros out. rewrite commitLines_eq. by intros [= _ <-]. }
  assert (forall (msg : string) w0,
            Ret ((false, msg), w0) = Ret (r, w1) -> rejected msg = true ->
            undoStack w1 = pushed (undoStack w) (target m) (linesOf (disk w) (target m)))
    as Hearly.
  { intros msg w0 [= <- _] Hm. cbn in Hrej. congruence. }
  destruct m as [repo|repo|newLine dest0]; cbn [runMutation target] in *.
  - unfold toggle in Hrun. destruct (isDeb822 repo).
    + rewrite toggleDeb822_eq in Hrun.
      destruct (toggledBlockLines _ _); [exact (Hcommit _ Hrun)|exact (Hearly _ _ Hrun eq_refl)].
    + rewrite toggleList_eq in Hrun.
      destruct (toggleLoop _ _ _) as [[[] out]|e];
        [exact (Hcommit _ Hrun)|exact (Hearly _ _ Hrun eq_refl)|done].
  - rewrite deleteRepoClean_eq in Hrun. cbn zeta in Hrun.
    destruct (isDeb822 repo).
    + destruct (deletedBlockLines _ _); [exact (Hcommit _ Hrun)|exact (Hearly _ _ Hrun eq_refl)].
    + destruct (fst (deleteLoop _ _ _)); [exact (Hcommit _ Hrun)|exact (Hearly _ _ Hrun eq_refl)].
  - destruct (empty newLine) eqn:Hne.
    { unfold addRepo, bind, ret in Hrun. rewrite Hne in Hrun.
      injection Hrun as <- _. done. }
    destruct (startsWith "deb" newLine) eqn:Hdeb.
    2:{ unfold addRepo, bind, ret in Hrun. rewrite Hne, Hdeb in Hrun.
        injection Hrun as <- _. done. }
    rewrite (bind_ret_l _ _ _ _ _ (addRepo_eq flt af newLine dest0 w Hne Hdeb)) in Hrun.
    unfold ret in Hrun. by injection Hrun as _ <-.
Qed.

(** ** Lines and bytes *)

Lemma unlines_getlines_from cur bytes :
  endsWithNewline bytes = true ->
  unlines (getlines cur bytes) = cur +:+ bytes.
Proof.
  revert cur. induction bytes as [|c rest IH]; intros cur Hend; [done|].
  cbn [getlines]. destruct (Ascii.eqb c "010") eqn:Hc.
  - apply ascii_eqb_true in Hc as ->. cbn [unlines fold_right]. fold (unlines (getlines EmptyString rest)).
    destruct rest as [|c' rest']; [done|].
    rewrite (IH EmptyString) by exact Hend. reflexivity.
  - destruct rest as [|c' rest'].
    + cbn in Hend. congruence.
    + rewrite IH by exact Hend. by rewrite str_app_assoc.
Qed.

Lemma unlines_getlines bytes :
  newlineTerminated bytes = true -> unlines (getlines EmptyString bytes) = bytes.
Proof.
  unfold newlineTerminated. destruct bytes as [|c rest]; [done|]. cbn [empty orb].
  intros H. by rewrite unlines_getlines_from.
Qed.

(** ** Undo after one mutation *)

(** C3, as stated, fails: a file whose last line has no terminator comes
    back from toggle and undo with one. *)
Lemma undo_counterexample :
  let path := "/etc/apt/sources.list" in
  let repo := {| file := path; display := "deb http://a focal main";
                 enabled := true; isDeb822 := false; blockIndex := (-1)%Z;
                 uri := "http://a"; suite := "focal"; components := "main";
                 types := "deb" |} in
  let w := {| disk := {[ path := "deb http://a focal main" ]}; undoStack := [];
              backupDir := "/var/backups/relix"; journal := [] |} in
  let flt := noFaults "20240101_000000" in
  repo ∈ parseListFile path (linesOf (disk w) path) /\
  exists w1 w2,
    runMutation flt (mkAppendFaults true None) (MToggle repo) w = Ret ((true, EmptyString), w1) /\
    applyUndo flt EmptyString w1 = Ret ((true, EmptyString), w2) /\
    disk w !! path = Some "deb http://a focal main" /\
    disk w2 !! path = Some "deb http://a focal main
" /\
    disk w2 !! path <> disk w !! path.
Proof.
  intros path repo w flt. split.
  - vm_compute. apply list_elem_of_here.
  - eexists _, _. split; [vm_compute; reflexivity|].
    split; [vm_compute; reflexivity|]. split; [vm_compute; reflexivity|].
    split; [vm_compute; reflexivity|]. vm_compute. discriminate.
Qed.

(** C3, amended. [undo()] after exactly one mutation (toggle, delete or
    add) that took its snapshot rewrites the mutated file, when its write
    succeeds, with the line sequence the file had before the mutation, each
    line terminated: content byte-identical to the pre-mutation content
    whenever that content was a file of complete lines (empty, or ending
    in a line feed); the undo stack is then the one before the mutation,
    less its oldest snapshot if it was full. [undo()] on an empty stack
    fails with "Nothing to undo." and makes no system call. *)
Theorem undo_after_one_mutation :
  (forall flt af m w r w1 flt' errMsg,
     runMutation flt af m w = Ret (r, w1) ->
     rejected (snd r) = false ->
     writeOk flt' = true ->
     exists w2,
       applyUndo flt' errMsg w1 = Ret ((true, errMsg), w2) /\
       disk w2 !! target m = Some (unlines (linesOf (disk w) (target m))) /\
       (forall bytes, disk w !! target m = Some bytes ->
          newlineTerminated bytes = true -> disk w2 !! target m = Some bytes) /\
       undoStack w2 =
         if decide (k_maxUndo <= length (undoStack w))%nat
         then drop 1 (undoStack w) else undoStack w) /\
  (forall flt' errMsg w0, undoStack w0 = [] ->
     applyUndo flt' errMsg w0 = Ret ((false, "Nothing to undo."), w0)).
Proof.
  split; [|intros flt' errMsg w0; apply applyUndo_empty].
  intros flt af m w r w1 flt' errMsg Hrun Hrej Hok.
  pose proof (mutation_snapshot _ _ _ _ _ _ Hrun Hrej) as Hst.
  assert (last (undoStack w1) =
          Some {| ufile := target m; ulines := linesOf (disk w) (target m) |}) as Hlast.
  { rewrite Hst. apply last_pushed. }
  rewrite (applyUndo_top _ _ _ _ Hlast), Hok, (writeResult_msg_ok _ _ Hok).
  eexists. split; [reflexivity|]. cbn [disk undoStack after ufile ulines].
  assert (runOps (writeOps flt' (target m) (linesOf (disk w) (target m))) (disk w1)
            !! target m = Some (unlines (linesOf (disk w) (target m)))) as Hd.
  { by rewrite writeOps_final, Hok. }
  split; [exact Hd|]. split.
  - intros bytes Hb Hnl. rewrite Hd. unfold linesOf. rewrite Hb.
    by rewrite unlines_getlines.
  - rewrite Hst. apply removelast_pushed.
Qed.

Lemma undo_after_one_mutation_witness :
  let path := "/etc/apt/sources.list" in
  let repo := {| file := path; display := "deb http://a focal main";
                 enabled := true; isDeb822 := false; blockIndex := (-1)%Z;
                 uri := "http://a"; suite := "focal"; components := "main";
                 types := "deb" |} in
  let w := {| disk := {[ path := "deb http://a focal main
# deb http://b focal main
" ]}; undoStack := []; backupDir := "/var/backups/relix"; journal := [] |} in
  let flt := noFaults "20240101_000000" in
  let broken := {| mkdirErr := Some "Permission denied"; stamp := "20240101_000000";
                   copyErr := None; tmpOpens := false; written := None;
                   renameErr := None |} in
  (exists w1 w2,
     runMutation flt (mkAppendFaults true None) (MDelete repo) w = Ret ((true, EmptyString), w1) /\
     disk w1 !! path = Some "# deb http://b focal main
" /\
     applyUndo flt EmptyString w1 = Ret ((true, EmptyString), w2) /\
     disk w2 !! path = disk w !! path /\ undoStack w2 = []) /\
  applyUndo broken EmptyString w = Ret ((false, "Nothing to undo."), w).
Proof.
  intros path repo w flt broken.
  assert (exists w1, runMutation flt (mkAppendFaults true None) (MDelete repo) w
                     = Ret ((true, EmptyString), w1) /\
                     disk w1 !! path = Some "# deb http://b focal main
") as (w1 & Hrun & Hd1).
  { eexists. split; vm_compute; reflexivity. }
  destruct undo_after_one_mutation as [Hone Hempty].
  split; [|exact (Hempty broken EmptyString w eq_refl)].
  destruct (Hone flt (mkAppendFaults true None) (MDelete repo) w
              (true, EmptyString) w1 flt EmptyString Hrun eq_refl eq_refl)
    as (w2 & Hundo & _ & Hbytes & Hst).
  exists w1, w2. split; [exact Hrun|]. split; [exact Hd1|]. split; [exact Hundo|].
  split; [|exact Hst].
  exact (Hbytes "deb http://a focal main
# deb http://b focal main
" eq_refl eq_refl).
Defined.

(** ** Who writes to a managed file, and how *)

Lemma atomicAt_read p d out : atomicAt p d [OpRead p] out false.
Proof.
  split; [|done]. cbn. intros d' H. left.
  by repeat (apply elem_of_cons in H as [->|H]); [| |apply elem_of_nil in H].
Qed.

Lemma atomicAt_nil p d out : atomicAt p d [] out false.
Proof. split; [|done]. cbn. intros d' ->%list_elem_of_singleton. by left. Qed.

Lemma atomicAt_write flt p lines d :
  atomicAt p d (writeOps flt p lines) lines (writeOk flt).
Proof. split; [apply writeOps_atomic|apply writeOps_final]. Qed.

Lemma atomicAt_commit flt w0 p lines d :
  atomicAt p d (OpRead p :: commitOps flt w0 p lines) lines (writeOk flt).
Proof.
  unfold commitOps.
  change (OpRead p :: OpRead p :: ?a ++ ?b) with (([OpRead p; OpRead p] ++ a) ++ b).
  set (pre := [OpRead p; OpRead p] ++ backupOps flt (backupDir w0) (disk w0) p).
  assert (forall d', d' ∈ trace pre d -> d' !! p = d !! p) as Hpre.
  { intros d'. unfold pre. rewrite trace_app. cbn.
    rewrite !elem_of_cons, elem_of_nil. intros [[->|[->|[->|[]]]]|H]; try done.
    by apply backupOps_keep in H. }
  split.
  - intros d'. rewrite trace_app. intros [H|H]; [left; by apply Hpre|].
    apply writeOps_atomic in H. rewrite (Hpre (runOps pre d)) in H by apply trace_last.
    exact H.
  - rewrite runOps_app, writeOps_final. destruct (writeOk flt); [done|].
    apply Hpre, trace_last.
Qed.

(** C4, at the failing input: add and import write to the managed file
    in place. On a primary file of one line, the F3 handler given
    [deb http://b focal main], its stream going bad after three bytes,
    reports [Write error!] and leaves the file with its old content
    followed by [deb], neither untouched nor complete; no temporary file
    and no rename is among its system calls, with or without the fault,
    and the same holds of [importRepos], which reports success all the
    same. Toggle on the same file writes [.relix.tmp] and renames it over
    the file. *)
Theorem add_writes_in_place :
  let a := {| file := mainList; display := "deb http://a focal main";
              enabled := true; isDeb822 := false; blockIndex := (-1)%Z;
              uri := "http://a"; suite := "focal"; components := "main";
              types := "deb" |} in
  let w := {| disk := {[ mainList := "deb http://a focal main
"; "/root/repos.txt" := "deb http://b focal main
" ]}; undoStack := []; backupDir := "/var/backups/relix"; journal := [] |} in
  let flt := noFaults "20240101_000000" in
  let bak := "/var/backups/relix/_etc_apt_sources.list.20240101_000000.bak" in
  let tmp := "/etc/apt/sources.list.relix.tmp" in
  (exists w',
     addRepo flt (mkAppendFaults true (Some 3%nat)) "deb http://b focal main" EmptyString w
       = Ret (("Write error!", true), w') /\
     journal w' = [OpRead mainList; OpMkdir "/var/backups/relix"; OpCopy mainList bak;
                   OpAppend mainList EmptyString; OpAppend mainList "deb"] /\
     disk w' !! mainList = Some "deb http://a focal main
deb" /\
     disk w' !! tmp = None) /\
  (exists w',
     addRepo flt (mkAppendFaults true None) "deb http://b focal main" EmptyString w
       = Ret (("Repository added to /etc/apt/sources.list", false), w') /\
     journal w' = [OpRead mainList; OpMkdir "/var/backups/relix"; OpCopy mainList bak;
                   OpAppend mainList EmptyString;
                   OpAppend mainList "deb http://b focal main
"]) /\
  (exists w',
     importRepos [a] (mkAppendFaults true (Some 3%nat)) "/root/repos.txt" w
       = Ret ((true, "1 repo(s) imported."), w') /\
     journal w' = [OpRead "/root/repos.txt"; OpAppend mainList EmptyString;
                   OpAppend mainList "deb"] /\
     disk w' !! mainList = Some "deb http://a focal main
deb") /\
  (exists w',
     toggle flt a w = Ret ((true, EmptyString), w') /\
     journal w' = [OpRead mainList; OpRead mainList; OpMkdir "/var/backups/relix";
                   OpCopy mainList bak; OpCreate tmp;
                   OpAppend tmp "# deb http://a focal main
";
                   OpRename tmp mainList]).
Proof.
  intros a w flt bak tmp.
  split; [|split; [|split]]; eexists; repeat split; vm_compute; reflexivity.
Qed.

Lemma commit_atomic flt p out w res w' :
  commitLines flt p out (after [OpRead p] (undoStack w) w) = Ret (res, w') ->
  exists ops, journal w' = journal w ++ ops /\ disk w' = runOps ops (disk w) /\
    atomicAt p (disk w) ops out (fst res).
Proof.
  rewrite commitLines_eq, after_after. intros [= <- <-].
  eexists. split; [reflexivity|]. split; [reflexivity|].
  unfold commitResult. rewrite writeResult_ok. apply atomicAt_commit.
Qed.

Lemma early_atomic p (msg : string) w res w' out :
  Ret ((false, msg), after [OpRead p] (undoStack w) w) = Ret (res, w') ->
  exists ops, journal w' = journal w ++ ops /\ disk w' = runOps ops (disk w) /\
    atomicAt p (disk w) ops out (fst res).
Proof.
  intros [= <- <-]. exists [OpRead p]. split; [done|]. split; [done|]. apply atomicAt_read.
Qed.

(** Toggle, delete and undo go through [atomicWriteLines]: at every
    moment of the call the file holds either its old content or the
    complete new content, and after the call the new content exactly when
    the call reports success. *)
Lemma rewriters_are_atomic flt r w res w' :
  runRewriter flt r w = Ret (res, w') ->
  exists ops out,
    journal w' = journal w ++ ops /\ disk w' = runOps ops (disk w) /\
    atomicAt (rewritten w r) (disk w) ops out (fst res).
Proof.
  intros Hrun. destruct r as [repo|repo|]; cbn [runRewriter rewritten] in *.
  - unfold toggle in Hrun. destruct (isDeb822 repo).
    + rewrite toggleDeb822_eq in Hrun.
      destruct (toggledBlockLines _ _) as [out|].
      * destruct (commit_atomic _ _ _ _ _ _ Hrun) as (ops & ?); by exists ops, out.
      * destruct (early_atomic _ _ _ _ _ [] Hrun) as (ops & ?); by exists ops, [].
    + rewrite toggleList_eq in Hrun.
      destruct (toggleLoop _ _ _) as [[[] out]|e]; [| |done].
      * destruct (commit_atomic _ _ _ _ _ _ Hrun) as (ops & ?); by exists ops, out.
      * destruct (early_atomic _ _ _ _ _ [] Hrun) as (ops & ?); by exists ops, [].
  - rewrite deleteRepoClean_eq in Hrun. cbn zeta in Hrun. destruct (isDeb822 repo).
    + destruct (deletedBlockLines _ _) as [out|].
      * destruct (commit_atomic _ _ _ _ _ _ Hrun) as (ops & ?); by exists ops, out.
      * destruct (early_atomic _ _ _ _ _ [] Hrun) as (ops & ?); by exists ops, [].
    + destruct (fst (deleteLoop _ _ _)).
      * destruct (commit_atomic _ _ _ _ _ _ Hrun) as (ops & ?); by eexists ops, _.
      * destruct (early_atomic _ _ _ _ _ [] Hrun) as (ops & ?); by exists ops, [].
  - destruct (last (undoStack w)) as [u|] eqn:Hlast.
    + rewrite (applyUndo_top _ _ _ _ Hlast) in Hrun. injection Hrun as <- <-.
      eexists _, (ulines u). split; [reflexivity|]. split; [reflexivity|].
      rewrite writeResult_ok. apply atomicAt_write.
    + apply last_None in Hlast. rewrite (applyUndo_empty _ _ _ Hlast) in Hrun.
      injection Hrun as <- <-. exists [], []. rewrite app_nil_r.
      split; [done|]. split; [done|]. apply atomicAt_nil.
Qed.

(** ** Trimming *)

Lemma substring_length n m s :
  String.length (String.substring n m s) = Nat.min m (String.length s - n).
Proof.
  revert n m. induction s as [|c s IH]; intros [|n] [|m]; cbn; try done;
    rewrite IH; by rewrite ?Nat.sub_0_r.
Qed.

Lemma substring_all m s :
  (String.length s <= m)%nat -> String.substring 0 m s = s.
Proof.
  revert m. induction s as [|c s IH]; intros [|m] Hm; cbn in *; try done; try lia.
  rewrite IH by lia. done.
Qed.

Lemma find_last_lt s en : find_last_not_of s = Some en -> (en < String.length s)%nat.
Proof.
  revert en. induction s as [|c s IH]; intros en; cbn; [done|].
  destruct (find_last_not_of s) as [i|].
  - intros [= <-]. specialize (IH i eq_refl). lia.
  - destruct (isTrimWs c); [done|]. intros [= <-]. lia.
Qed.

Lemma find_first_last_none s :
  find_first_not_of s = None <-> find_last_not_of s = None.
Proof.
  induction s as [|c s IH]; cbn; [done|].
  destruct (isTrimWs c) eqn:Hc.
  - destruct (find_first_not_of s), (find_last_not_of s); cbn; try done;
      destruct IH as [IH1 IH2]; try (by specialize (IH1 eq_refl));
      by specialize (IH2 eq_refl).
  - destruct (find_last_not_of s); done.
Qed.

(** A string is its own trim when it starts and ends outside the
    whitespace set. *)
Lemma trimStr_fixed s en :
  find_first_not_of s = Some 0%nat -> find_last_not_of s = Some en ->
  S en = String.length s -> trimStr s = s.
Proof.
  intros Hf Hl Hlen. unfold trimStr, substr. rewrite Hf, Hl.
  apply substring_all. lia.
Qed.

Lemma trimStr_fixed_inv s :
  trimStr s = s -> s <> EmptyString ->
  find_first_not_of s = Some 0%nat /\
  exists en, find_last_not_of s = Some en /\ S en = String.length s.
Proof.
  unfold trimStr, substr. intros Ht Hne.
  destruct (find_first_not_of s) as [st|] eqn:Hf; [|congruence].
  destruct (find_last_not_of s) as [en|] eqn:Hl; [|congruence].
  pose proof (find_last_lt _ _ Hl) as Hen.
  pose proof (f_equal String.length Ht) as Hlen. rewrite substring_length in Hlen.
  assert (st = 0%nat) as -> by lia.
  split; [done|]. exists en. split; [done|]. lia.
Qed.

Lemma trimStr_ws_cons c s : isTrimWs c = true -> trimStr (String c s) = trimStr s.
Proof.
  intros Hc. unfold trimStr. cbn [find_first_not_of find_last_not_of]. rewrite Hc.
  destruct (find_first_not_of s) as [st|] eqn:Hf; cbn [fmap option_fmap option_map]; [|done].
  destruct (find_last_not_of s) as [en|] eqn:Hl.
  - reflexivity.
  - apply find_first_last_none in Hl. congruence.
Qed.

Lemma marked_eq L : "# " +:+ L = String "#" (String " " L).
Proof. reflexivity. Qed.

Lemma trimStr_marked L :
  trimStr L = L -> L <> EmptyString ->
  trimStr ("# " +:+ L) = "# " +:+ L.
Proof.
  intros Ht Hne. destruct (trimStr_fixed_inv _ Ht Hne) as (Hf & en & Hl & Hlen).
  apply (trimStr_fixed _ (S (S en))).
  - reflexivity.
  - change ("# " +:+ L) with (String "#" (String " " L)).
    cbn [find_last_not_of]. by rewrite Hl.
  - change ("# " +:+ L) with (String "#" (String " " L)). cbn [String.length]. lia.
Qed.

Lemma trimStr_first_char L c r : trimStr L = L -> L = String c r -> isTrimWs c = false.
Proof.
  intros Ht ->. destruct (trimStr_fixed_inv _ Ht ltac:(done)) as (Hf & _).
  cbn in Hf. destruct (isTrimWs c); [|done].
  by destruct (find_first_not_of r).
Qed.

Lemma prefix_cons a p c s :
  String.prefix (String a p) (String c s) =
  if ascii_dec a c then String.prefix p s else false.
Proof. reflexivity. Qed.

Lemma startsWith_deb_cons s :
  startsWith "deb" s = true -> exists r, s = String "d" r.
Proof.
  unfold startsWith. destruct s as [|c r]; [done|].
  change "deb" with (String "d" "eb"). rewrite prefix_cons.
  destruct (ascii_dec "d" c) as [<-|]; [eauto|done].
Qed.

(** ** Reading back what was written *)

Lemma hasNewline_app a b : hasNewline (a +:+ b) = hasNewline a || hasNewline b.
Proof.
  induction a as [|c a IH]; [done|].
  rewrite str_app_cons. cbn [hasNewline]. by rewrite IH, orb_assoc.
Qed.

Lemma getlines_no_newline bytes cur :
  hasNewline cur = false ->
  Forall (fun l => hasNewline l = false) (getlines cur bytes).
Proof.
  revert cur. induction bytes as [|c rest IH]; intros cur Hcur; cbn [getlines].
  - destruct (empty cur); by repeat constructor.
  - destruct (Ascii.eqb c "010") eqn:Hc.
    + constructor; [done|]. by apply IH.
    + apply IH. rewrite hasNewline_app, Hcur. cbn. by rewrite Hc.
Qed.

Lemma getlines_line l cur rest :
  hasNewline l = false ->
  getlines cur (l +:+ String "010" rest) = (cur +:+ l) :: getlines EmptyString rest.
Proof.
  revert cur. induction l as [|c l IH]; intros cur Hl.
  - cbn. by rewrite str_app_nil_r.
  - cbn [hasNewline] in Hl. apply orb_false_iff in Hl as [Hc Hl].
    rewrite str_app_cons. cbn [getlines]. rewrite Hc, IH by done.
    by rewrite str_app_assoc.
Qed.

Lemma getlines_unlines ls :
  Forall (fun l => hasNewline l = false) ls ->
  getlines EmptyString (unlines ls) = ls.
Proof.
  induction 1 as [|l ls Hl _ IH]; [done|].
  cbn [unlines fold_right]. fold (unlines ls).
  by rewrite getlines_line, IH.
Qed.

(** ** What the one-line parser makes of a line *)

Lemma parseListLine_some path line c r :
  trimStr line = String c r -> qualifies c r = true ->
  exists e, parseListLine path line = Some e /\
    display e = line /\ enabled e = negb (Ascii.eqb c "#").
Proof.
  unfold qualifies, parseListLine. intros -> Hq. cbn [empty]. rewrite at_0_cons.
  cbn [substrFrom default from_option id].
  destruct (startsWith "deb" (String c r)); cbn [negb andb orb] in *.
  - eexists. split; [reflexivity|]. done.
  - rewrite Hq. cbn [negb]. eexists. split; [reflexivity|]. done.
Qed.

Lemma parseListLine_qualifies path line e :
  parseListLine path line = Some e ->
  exists c r, trimStr line = String c r /\ qualifies c r = true /\
    enabled e = negb (Ascii.eqb c "#").
Proof.
  unfold qualifies, parseListLine. destruct (trimStr line) as [|c r]; [done|].
  cbn [empty]. rewrite at_0_cons. cbn [substrFrom default from_option id].
  destruct (startsWith "deb" (String c r)) eqn:Hs; cbn [negb andb orb].
  - intros [= <-]. exists c, r. rewrite Hs. split; [reflexivity|]. split; reflexivity.
  - destruct (Ascii.eqb c "#" && _) eqn:Hh; cbn [negb]; [|done].
    intros [= <-]. exists c, r. rewrite Hs, Hh. split; [reflexivity|]. split; reflexivity.
Qed.

Lemma startsWith_deb_hash r : startsWith "deb" (String "#" r) = false.
Proof. reflexivity. Qed.

(** An active line that is its own trim starts with [deb]. *)
Lemma parse_active path L e :
  parseListLine path L = Some e -> enabled e = true -> trimStr L = L ->
  startsWith "deb" L = true.
Proof.
  intros (c & r & Ht & Hq & He)%parseListLine_qualifies Hen HL.
  rewrite HL in Ht. subst L. rewrite Hen in He. unfold qualifies in Hq.
  destruct (Ascii.eqb c "#"); [done|]. cbn [andb] in Hq. by rewrite orb_false_r in Hq.
Qed.

(** A line [# L] that the parser accepts has an [L] that starts with [deb]. *)
Lemma parse_marked_inv path L e :
  parseListLine path ("# " +:+ L) = Some e -> trimStr L = L ->
  startsWith "deb" L = true.
Proof.
  intros Hp HL. destruct L as [|c0 r0]; [done|].
  apply parseListLine_qualifies in Hp as (c & r & Ht & Hq & He).
  rewrite trimStr_marked, marked_eq in Ht by done. injection Ht as <- <-.
  unfold qualifies in Hq. rewrite startsWith_deb_hash in Hq.
  rewrite trimStr_ws_cons, HL in Hq by done.
  by destruct (startsWith "deb" (String c0 r0)).
Qed.

Lemma parse_marked path L :
  trimStr L = L -> startsWith "deb" L = true ->
  exists e, parseListLine path ("# " +:+ L) = Some e /\
    display e = "# " +:+ L /\ enabled e = false.
Proof.
  intros HL Hdeb.
  assert (L <> EmptyString) as Hne by (by destruct L).
  apply (parseListLine_some path _ "#" (String " " L)).
  - rewrite <- marked_eq. by apply trimStr_marked.
  - unfold qualifies. rewrite trimStr_ws_cons, HL, Hdeb by done. done.
Qed.

Lemma parse_plain path L :
  trimStr L = L -> startsWith "deb" L = true ->
  exists e, parseListLine path L = Some e /\ display e = L /\ enabled e = true.
Proof.
  intros HL Hdeb. destruct (startsWith_deb_cons _ Hdeb) as [r ->].
  apply (parseListLine_some path _ "d" r); [done|].
  unfold qualifies. by rewrite Hdeb.
Qed.

(** ** Toggling twice: one-line entries *)

Lemma hasNewline_lineOf en L : hasNewline (lineOf en L) = hasNewline L.
Proof. by destruct en. Qed.

Lemma noNewline_swap (pre post : list string) en L :
  Forall (fun l => hasNewline l = false) (pre ++ lineOf en L :: post) ->
  Forall (fun l => hasNewline l = false) (pre ++ lineOf (negb en) L :: post).
Proof.
  rewrite !Forall_app, !Forall_cons, !hasNewline_lineOf. tauto.
Qed.

(** One toggle of a one-line entry whose line is [lineOf (enabled e) L]
    and first occurs after [pre]: the file then reads the same, with
    that line in the other state. *)
Lemma toggle_oneline_step flt w e pre post L :
  isDeb822 e = false ->
  display e = lineOf (enabled e) L -> trimStr L = L ->
  linesOf (disk w) (file e) = pre ++ display e :: post ->
  (display e ∉ pre) ->
  Forall (fun l => hasNewline l = false) (pre ++ display e :: post) ->
  writeOk flt = true ->
  exists msg w1,
    toggle flt e w = Ret ((true, msg), w1) /\
    disk w1 !! file e = Some (unlines (pre ++ lineOf (negb (enabled e)) L :: post)) /\
    linesOf (disk w1) (file e) = pre ++ lineOf (negb (enabled e)) L :: post.
Proof.
  intros Hfmt Hd HL Hlines Hpre Hnl Hok.
  unfold toggle. rewrite Hfmt.
  rewrite (toggleList_present flt e w pre post (lineOf (negb (enabled e)) L) Hlines Hpre).
  2:{ rewrite Hd. destruct (enabled e); cbn [lineOf negb].
      - left. done.
      - right. split; [done|]. exists (String " " L). split; [apply marked_eq|].
        cbn. done. }
  destruct (commitLines_ok flt (file e) (pre ++ lineOf (negb (enabled e)) L :: post) w Hok)
    as (msg & w1 & Hrun & Hdisk).
  exists msg, w1. split; [exact Hrun|]. split; [exact Hdisk|].
  unfold linesOf. rewrite Hdisk. apply getlines_unlines.
  rewrite Hd in Hnl. by apply noNewline_swap.
Qed.

Lemma toggle_twice_oneline flt1 flt2 w e bytes pre post L :
  disk w !! file e = Some bytes -> newlineTerminated bytes = true ->
  e ∈ parseListFile (file e) (getlines EmptyString bytes) ->
  getlines EmptyString bytes = pre ++ display e :: post ->
  (display e ∉ pre) ->
  display e = lineOf (enabled e) L -> trimStr L = L ->
  (lineOf (negb (enabled e)) L ∉ pre) ->
  writeOk flt1 = true -> writeOk flt2 = true ->
  exists m1 w1,
    toggle flt1 e w = Ret ((true, m1), w1) /\
    (exists e', e' ∈ parseListFile (file e) (linesOf (disk w1) (file e)) /\
       display e' = lineOf (negb (enabled e)) L) /\
    (forall e', e' ∈ parseListFile (file e) (linesOf (disk w1) (file e)) ->
       display e' = lineOf (negb (enabled e)) L ->
       enabled e' = negb (enabled e) /\
       exists m2 w2, toggle flt2 e' w1 = Ret ((true, m2), w2) /\
         disk w2 !! file e = Some bytes).
Proof.
  intros Hbytes Hterm He Hlines Hpre Hd HL Hpre' Hok1 Hok2.
  assert (linesOf (disk w) (file e) = pre ++ display e :: post) as Hl0.
  { unfold linesOf. by rewrite Hbytes. }
  assert (Forall (fun l => hasNewline l = false) (pre ++ display e :: post)) as Hnl.
  { rewrite <- Hlines. by apply getlines_no_newline. }
  apply parseListFile_elem in He as (line & _ & Hparse).
  destruct (parseListLine_inv _ _ _ Hparse) as (_ & Hline & Hfmt & _).
  rewrite <- Hline in Hparse.
  assert (startsWith "deb" L = true) as Hdeb.
  { destruct (enabled e) eqn:Hen; cbn [lineOf] in Hd; rewrite Hd in Hparse.
    - by eapply parse_active.
    - by eapply parse_marked_inv. }
  destruct (toggle_oneline_step flt1 w e pre post L Hfmt Hd HL Hl0 Hpre Hnl Hok1)
    as (m1 & w1 & Hrun1 & Hdisk1 & Hl1).
  exists m1, w1. split; [exact Hrun1|]. split.
  - assert (exists e', parseListLine (file e) (lineOf (negb (enabled e)) L) = Some e' /\
                       display e' = lineOf (negb (enabled e)) L) as (e' & Hp' & Hd').
    { destruct (enabled e); cbn [negb lineOf].
      - destruct (parse_marked (file e) L HL Hdeb) as (e' & ? & ? & _). eauto.
      - destruct (parse_plain (file e) L HL Hdeb) as (e' & ? & ? & _). eauto. }
    exists e'. split; [|exact Hd']. rewrite Hl1. apply parseListFile_elem.
    eexists. split; [|exact Hp']. apply elem_of_app. right. apply list_elem_of_here.
  - intros e' (line' & _ & Hparse')%parseListFile_elem Hd'.
    destruct (parseListLine_inv _ _ _ Hparse') as (Hfile' & Hline' & Hfmt' & _).
    rewrite <- Hline', Hd' in Hparse'.
    assert (enabled e' = negb (enabled e)) as Hen'.
    { destruct (enabled e); cbn [negb lineOf] in *.
      - destruct (parse_marked (file e) L HL Hdeb) as (e2 & Hp2 & _ & Hen2). congruence.
      - destruct (parse_plain (file e) L HL Hdeb) as (e2 & Hp2 & _ & Hen2). congruence. }
    split; [exact Hen'|].
    assert (display e' = lineOf (enabled e') L) as Hd2 by (by rewrite Hen').
    rewrite <- Hfile' in Hl1.
    rewrite <- Hd' in Hl1, Hpre'.
    assert (Forall (fun l => hasNewline l = false) (pre ++ display e' :: post)) as Hnl'.
    { rewrite Hd'. rewrite Hd in Hnl. by apply noNewline_swap. }
    destruct (toggle_oneline_step flt2 w1 e' pre post L Hfmt' Hd2 HL Hl1 Hpre' Hnl' Hok2)
      as (m2 & w2 & Hrun2 & Hdisk2 & _).
    exists m2, w2. split; [exact Hrun2|].
    rewrite <- Hfile', Hdisk2, Hen', negb_involutive, <- Hd, <- Hlines.
    by rewrite unlines_getlines.
Qed.

(** ** The two block enumerations *)

Lemma processBlock_eq path b idx repos :
  processBlock path b (idx, repos) =
  ((if accepted b then idx + 1 else idx)%Z, repos ++ callEntries path (b, idx)).
Proof.
  unfold processBlock, callEntries. cbn [fst snd].
  destruct (accepted b); [done|]. by rewrite app_nil_r.
Qed.

(** The parser's result is what its [processBlock] calls push, in order. *)
Lemma sourcesLoop_calls path lines block idx repos :
  snd (sourcesLoop path lines block (idx, repos)) =
  repos ++ flat_map (callEntries path) (sourcesCalls lines block idx).
Proof.
  revert block idx repos. induction lines as [|line rest IH]; intros block idx repos.
  - cbn [sourcesLoop sourcesCalls]. destruct block as [|l0 block]; cbn [flat_map].
    + cbn. by rewrite app_nil_r.
    + rewrite processBlock_eq. cbn [snd flat_map]. by rewrite app_nil_r.
  - cbn [sourcesLoop sourcesCalls]. destruct (empty (trimStr line)).
    + destruct block as [|l0 block]; [apply IH|].
      rewrite processBlock_eq, IH. cbn [flat_map]. by rewrite app_assoc.
    + apply IH.
Qed.

Lemma parseSourcesFile_calls path lines :
  parseSourcesFile path lines =
  flat_map (callEntries path) (sourcesCalls lines [] 0%Z).
Proof. unfold parseSourcesFile. by rewrite sourcesLoop_calls. Qed.

(** The counter at a call is the number of accepted blocks before it. *)
Lemma sourcesCalls_index lines block idx k b i :
  sourcesCalls lines block idx !! k = Some (b, i) ->
  i = (idx + Z.of_nat (countAccepted (take k (sourcesCalls lines block idx))))%Z.
Proof.
  revert block idx k. induction lines as [|line rest IH]; intros block idx k.
  - cbn. destruct block as [|l0 block]; [done|].
    destruct k as [|k]; [|done]. intros [= <- <-]. cbn. lia.
  - cbn [sourcesCalls]. destruct (empty (trimStr line)); [|apply IH].
    destruct block as [|l0 block]; [apply IH|].
    destruct k as [|k]; [intros [= <- <-]; cbn; lia|].
    cbn [lookup list_lookup take countAccepted fst]. intros Hk%IH.
    destruct (accepted (l0 :: block)); lia.
Qed.

Lemma countAccepted_le calls : (countAccepted calls <= length calls)%nat.
Proof.
  induction calls as [|c rest IH]; cbn; [lia|]. destruct (accepted (fst c)); lia.
Qed.


(** The mutation engine's ranges are the parser's blocks, one for one. *)
Lemma scan_matches_calls rest pre block idx bs :
  (block <> [] -> block = drop bs pre /\ (bs < length pre)%nat) ->
  Forall2 (fun c r => fst c = slice (pre ++ rest) r)
          (sourcesCalls rest block idx)
          (scanBlocks rest (length pre) bs (bool_decide (block <> []))).
Proof.
  revert pre block idx bs. induction rest as [|l rest IH]; intros pre block idx bs Hinv.
  - cbn. destruct block as [|l0 block]; [constructor|].
    rewrite bool_decide_true by done. destruct Hinv as [Hb Hbs]; [done|].
    constructor; [|constructor]. unfold slice. cbn [fst snd].
    rewrite app_nil_r, Hb. rewrite take_ge; [done|]. rewrite length_drop. lia.
  - cbn [sourcesCalls scanBlocks].
    replace (pre ++ l :: rest) with ((pre ++ [l]) ++ rest) by (by rewrite <- app_assoc).
    assert (length (pre ++ [l]) = S (length pre)) as Hlen by (rewrite length_app; cbn; lia).
    destruct (empty (trimStr l)) eqn:Hblank; cbn [negb andb].
    + destruct block as [|l0 block].
      * rewrite bool_decide_false by (by intros ?). cbn [andb]. rewrite <- Hlen.
        apply (IH (pre ++ [l]) [] idx bs). done.
      * rewrite bool_decide_true by done. cbn [andb].
        destruct Hinv as [Hb Hbs]; [done|].
        constructor.
        -- unfold slice. cbn [fst snd]. rewrite Hb, <- app_assoc, drop_app_le by lia.
           rewrite take_app_le by (rewrite length_drop; lia).
           rewrite take_ge; [done|]. rewrite length_drop. lia.
        -- rewrite <- Hlen.
           apply (IH (pre ++ [l]) [] _ bs). done.
    + destruct block as [|l0 block].
      * rewrite bool_decide_false by (by intros ?). cbn [negb andb]. rewrite <- Hlen.
        replace true with (bool_decide (([] : list string) ++ [l] <> [])) by done.
        apply (IH (pre ++ [l]) ([] ++ [l]) idx (length pre)). intros _.
        split; [|lia]. by rewrite drop_app_length.
      * rewrite bool_decide_true by done. cbn [negb andb]. rewrite <- Hlen.
        replace true with (bool_decide ((l0 :: block) ++ [l] <> [])) by done.
        destruct Hinv as [Hb Hbs]; [done|].
        apply (IH (pre ++ [l]) ((l0 :: block) ++ [l]) idx bs). intros _.
        split; [|lia]. rewrite Hb, drop_app_le by lia. done.
Qed.

Lemma blockRanges_calls lines :
  Forall2 (fun c r => fst c = slice lines r)
          (sourcesCalls lines [] 0%Z) (blockRanges lines).
Proof. apply (scan_matches_calls lines [] [] 0%Z 0%nat). done. Qed.

Lemma rangesAscend_cons hd rs :
  Forall (fun r => (snd hd < fst r)%nat) rs -> rangesAscend rs -> rangesAscend (hd :: rs).
Proof.
  intros Hhd Hrs [|j] [|k] r' r Hjk; try lia; cbn.
  - intros [= <-] Hk. by eapply (proj1 (Forall_lookup _ _) Hhd).
  - apply Hrs. lia.
Qed.

Lemma scan_sorted rest i bs inB :
  (inB = true -> (bs < i)%nat) ->
  Forall (fun r => ((if inB then bs else i) <= fst r)%nat) (scanBlocks rest i bs inB) /\
  rangesAscend (scanBlocks rest i bs inB).
Proof.
  revert i bs inB. induction rest as [|l rest IH]; intros i bs inB Hinv.
  - cbn [scanBlocks]. destruct inB; split.
    + constructor; [cbn; lia|constructor].
    + intros [|?] [|?] r' r Hjk; cbn; try done; lia.
    + constructor.
    + by intros [|?] [|?] r' r Hjk.
  - cbn [scanBlocks]. destruct (empty (trimStr l)), inB; cbn [negb andb].
    + specialize (Hinv eq_refl).
      destruct (IH (S i) bs false ltac:(done)) as [Hlo Hs].
      split; [constructor; [done|]|apply rangesAscend_cons; [|done]];
        (eapply Forall_impl; [exact Hlo|]); cbn; intros; lia.
    + destruct (IH (S i) bs false ltac:(done)) as [Hlo Hs]. split; [|done].
      eapply Forall_impl; [exact Hlo|]. cbn. intros; lia.
    + specialize (Hinv eq_refl).
      destruct (IH (S i) bs true ltac:(lia)) as [Hlo Hs]. done.
    + destruct (IH (S i) i true ltac:(lia)) as [Hlo Hs]. done.
Qed.

Lemma blockRanges_disjoint lines j k r' r :
  (j < k)%nat -> blockRanges lines !! j = Some r' -> blockRanges lines !! k = Some r ->
  (snd r' < fst r)%nat.
Proof.
  destruct (scan_sorted lines 0 0 false ltac:(done)) as [_ Hs]. apply Hs.
Qed.

Lemma blockEntries_elem path b idx e :
  e ∈ blockEntries path b idx ->
  file e = path /\ blockIndex e = idx /\ isDeb822 e = true /\
  enabled e = bEnabled (blockFields b).
Proof.
  unfold blockEntries.
  intros (u & (s & ->%list_elem_of_singleton & _)%list_elem_of_bind & _)%list_elem_of_bind.
  done.
Qed.

Lemma flat_map_elem {A B} (f : A -> list B) (l : list A) k x y :
  l !! k = Some x -> y ∈ f x -> y ∈ flat_map f l.
Proof.
  intros Hk Hy. apply list_elem_of_In, in_flat_map. exists x.
  split; apply list_elem_of_In; [|done]. by eapply list_elem_of_lookup_2.
Qed.

Lemma blockAt_lookup (blocks : list (nat * nat)) (n : nat) r :
  blocks !! n = Some r -> blockAt blocks (Z.of_nat n) = Some r.
Proof.
  intros Hn. unfold blockAt. pose proof (lookup_lt_Some _ _ _ Hn).
  rewrite decide_False by lia. by rewrite Nat2Z.id.
Qed.

(** ** The [Enabled:] line of a block *)

Lemma prefix_shape p t : String.prefix p t = true -> exists r, t = p +:+ r.
Proof.
  revert t. induction p as [|a p IH]; intros t; [by exists t|].
  destruct t as [|c t]; [done|]. rewrite prefix_cons.
  destruct (ascii_dec a c) as [<-|]; [|done].
  intros [r ->]%IH. by exists r.
Qed.

Lemma prefix_app p r : String.prefix p (p +:+ r) = true.
Proof.
  induction p as [|a p IH]; [by destruct r|].
  rewrite str_app_cons, prefix_cons. by destruct (ascii_dec a a).
Qed.

Lemma fieldStep_enabledLine f l :
  isEnabledLine l = true -> fieldStep f l = setEnabled f (enabledValue l).
Proof.
  unfold isEnabledLine, startsWith. intros [r Ht]%prefix_shape.
  unfold fieldStep, enabledValue, setEnabled. rewrite Ht.
  set (t := "Enabled:" +:+ r).
  assert (empty t || Ascii.eqb (at_ t 0) "#" = false) as -> by reflexivity.
  assert (startsWith "Types:" t = false) as -> by reflexivity.
  assert (startsWith "URIs:" t = false) as -> by reflexivity.
  assert (startsWith "Suites:" t = false) as -> by reflexivity.
  assert (startsWith "Components:" t = false) as -> by reflexivity.
  assert (startsWith "Enabled:" t = true) as -> by apply prefix_app.
  reflexivity.
Qed.

Lemma fieldStep_other f l :
  isEnabledLine l = false -> bEnabled (fieldStep f l) = bEnabled f.
Proof.
  unfold isEnabledLine, fieldStep. intros ->.
  repeat match goal with |- context [if ?b then _ else _] => destruct b end; done.
Qed.

Lemma fieldStep_same f f' l :
  sameButEnabled f f' -> sameButEnabled (fieldStep f l) (fieldStep f' l).
Proof.
  unfold sameButEnabled, setEnabled, fieldStep. intros [= H1 H2 H3 H4 H5].
  repeat match goal with |- context [if ?b then _ else _] => destruct b end;
    cbn; congruence.
Qed.

Lemma fieldStep_same_enabled f f' l :
  bEnabled f = bEnabled f' -> bEnabled (fieldStep f l) = bEnabled (fieldStep f' l).
Proof.
  unfold fieldStep. intros H.
  repeat match goal with |- context [if ?b then _ else _] => destruct b end; done.
Qed.

Lemma fields_fold_same ls f f' :
  sameButEnabled f f' ->
  sameButEnabled (fold_left fieldStep ls f) (fold_left fieldStep ls f').
Proof.
  revert f f'. induction ls as [|l ls IH]; intros f f' H; [done|].
  cbn [fold_left]. by apply IH, fieldStep_same.
Qed.

Lemma fields_fold_other ls f :
  Forall (fun l => isEnabledLine l = false) ls ->
  bEnabled (fold_left fieldStep ls f) = bEnabled f.
Proof.
  intros H. revert f. induction H as [|l ls Hl _ IH]; intros f; [done|].
  cbn [fold_left]. by rewrite IH, fieldStep_other.
Qed.

(** A block with one [Enabled:] line [x]: the parser's [enabled] is that
    line's value, and the other fields do not depend on [x]. *)
Lemma blockFields_one_enabled pre x post :
  isEnabledLine x = true ->
  Forall (fun l => isEnabledLine l = false) post ->
  bEnabled (blockFields (pre ++ x :: post)) = enabledValue x.
Proof.
  intros Hx Hpost. unfold blockFields.
  rewrite fold_left_app. cbn [fold_left].
  by rewrite fields_fold_other, fieldStep_enabledLine.
Qed.

Lemma blockFields_swap_enabled pre x y post :
  isEnabledLine x = true -> isEnabledLine y = true ->
  sameButEnabled (blockFields (pre ++ x :: post)) (blockFields (pre ++ y :: post)).
Proof.
  intros Hx Hy. unfold blockFields. rewrite !fold_left_app. cbn [fold_left].
  apply fields_fold_same. by rewrite !fieldStep_enabledLine.
Qed.

Lemma accepted_same b b' :
  sameButEnabled (blockFields b) (blockFields b') -> accepted b = accepted b'.
Proof.
  unfold sameButEnabled, setEnabled, accepted. intros [= H1 H2 H3 _ _].
  by rewrite H1, H2, H3.
Qed.

Lemma enabledText_line en : isEnabledLine (enabledText en) = true.
Proof. by destruct en. Qed.

Lemma enabledText_value en : enabledValue (enabledText en) = en.
Proof. by destruct en. Qed.

(** ** Ranges, slices and the replaced line *)

Lemma slice_lookup L r n l :
  slice L r !! n = Some l -> L !! (fst r + n)%nat = Some l /\ (fst r + n <= snd r)%nat.
Proof.
  unfold slice. intros [Hn Hl]%lookup_take_Some. rewrite lookup_drop in Hn.
  split; [done|lia].
Qed.

Lemma slice_lookup_inside L r i :
  (fst r <= i <= snd r)%nat -> slice L r !! (i - fst r)%nat = L !! i.
Proof.
  intros Hi. unfold slice. rewrite lookup_take_lt by lia. rewrite lookup_drop.
  f_equal. lia.
Qed.

Lemma slice_insert_inside L r i y :
  (fst r <= i <= snd r)%nat ->
  slice (<[i := y]> L) r = <[(i - fst r)%nat := y]> (slice L r).
Proof.
  intros Hi. unfold slice. rewrite drop_insert_ge by lia.
  by rewrite take_insert_lt by lia.
Qed.

Lemma slice_insert_outside L r i y :
  (i < fst r \/ snd r < i)%nat -> slice (<[i := y]> L) r = slice L r.
Proof.
  intros Hi. unfold slice. destruct (decide (i < fst r)%nat).
  - by rewrite drop_insert_lt by lia.
  - rewrite drop_insert_ge by lia. by rewrite take_insert_ge by lia.
Qed.

Lemma onlyEnabledAt_split L r i :
  onlyEnabledAt L r i ->
  exists pre x post,
    L !! i = Some x /\ isEnabledLine x = true /\
    slice L r = pre ++ x :: post /\ length pre = (i - fst r)%nat /\
    Forall (fun l => isEnabledLine l = false) pre /\
    Forall (fun l => isEnabledLine l = false) post.
Proof.
  intros (Hi & Hx & Hothers).
  destruct (L !! i) as [x|] eqn:HLi; [|done]. cbn in Hx.
  set (b := slice L r). set (j := (i - fst r)%nat).
  assert (b !! j = Some x) as Hbj by (unfold b, j; by rewrite slice_lookup_inside).
  exists (take j b), x, (drop (S j) b).
  split; [done|]. split; [done|].
  split; [by rewrite take_drop_middle|].
  split; [rewrite length_take; apply lookup_lt_Some in Hbj; lia|].
  split; apply Forall_lookup; intros n l Hn.
  - apply lookup_take_Some in Hn as [Hn Hlt].
    apply slice_lookup in Hn as [Hn Hle].
    specialize (Hothers (fst r + n)%nat ltac:(lia) ltac:(lia)). by rewrite Hn in Hothers.
  - rewrite lookup_drop in Hn. apply slice_lookup in Hn as [Hn Hle].
    specialize (Hothers (fst r + (S j + n))%nat ltac:(lia) ltac:(lia)).
    by rewrite Hn in Hothers.
Qed.

Lemma onlyEnabledAt_insert L r i y :
  (i < length L)%nat -> isEnabledLine y = true ->
  onlyEnabledAt L r i -> onlyEnabledAt (<[i := y]> L) r i.
Proof.
  intros Hlen Hy (Hi & _ & Hothers). split; [done|]. split.
  - by rewrite list_lookup_insert_eq.
  - intros j Hj Hne. rewrite list_lookup_insert_ne by done. by apply Hothers.
Qed.

(** The search of the first [Enabled:] line of a block. *)
Lemma findEnabledLine_first L s n i :
  (s <= i < s + n)%nat ->
  isEnabledLine (default EmptyString (L !! i)) = true ->
  (forall j, (s <= j < i)%nat -> isEnabledLine (default EmptyString (L !! j)) = false) ->
  findEnabledLine L s n = Some i.
Proof.
  revert s. induction n as [|n IH]; intros s Hi Hx Hbefore; [lia|].
  cbn [findEnabledLine]. fold (isEnabledLine (default EmptyString (L !! s))).
  destruct (decide (s = i)) as [->|Hne].
  - by rewrite Hx.
  - rewrite Hbefore by lia. apply IH; [lia|done|]. intros j Hj. apply Hbefore. lia.
Qed.

Lemma enabledLine_only L r i : onlyEnabledAt L r i -> enabledLine L r = Some i.
Proof.
  intros (Hi & Hx & Hothers). unfold enabledLine.
  apply findEnabledLine_first; [lia|done|]. intros j Hj. apply Hothers; lia.
Qed.

(** Replacing a non-blank line by a non-blank line keeps the ranges. *)
Lemma scanBlocks_blank L L' i bs inB :
  Forall2 (fun a b => empty (trimStr a) = empty (trimStr b)) L L' ->
  scanBlocks L i bs inB = scanBlocks L' i bs inB.
Proof.
  intros H. revert i bs inB. induction H as [|a b L L' Hab _ IH]; intros i bs inB; [done|].
  cbn [scanBlocks]. rewrite Hab.
  destruct (empty (trimStr b)), inB; cbn [negb andb]; by rewrite ?IH.
Qed.

Lemma insert_same_blanks L i x y :
  L !! i = Some x -> empty (trimStr x) = empty (trimStr y) ->
  Forall2 (fun a b => empty (trimStr a) = empty (trimStr b)) (<[i := y]> L) L.
Proof.
  revert i. induction L as [|l L IH]; intros [|i]; cbn; try done.
  - intros [= ->] Hxy. constructor; [done|].
    apply Forall_Forall2_diag, Forall_true. done.
  - intros Hi Hxy. constructor; [done|]. by apply IH.
Qed.

Lemma enabledLine_not_blank x : isEnabledLine x = true -> empty (trimStr x) = false.
Proof. unfold isEnabledLine, startsWith. by destruct (trimStr x). Qed.

Lemma blockRanges_insert_enabled L i x y :
  L !! i = Some x -> isEnabledLine x = true -> isEnabledLine y = true ->
  blockRanges (<[i := y]> L) = blockRanges L.
Proof.
  intros Hi Hx Hy. apply scanBlocks_blank, (insert_same_blanks _ _ x); [done|].
  by rewrite !enabledLine_not_blank.
Qed.

(** ** Counting accepted blocks *)

Lemma countAccepted_app l1 l2 :
  countAccepted (l1 ++ l2) = (countAccepted l1 + countAccepted l2)%nat.
Proof. induction l1 as [|c l1 IH]; cbn; [done|]. rewrite IH. lia. Qed.

Lemma countAccepted_take_S l m c :
  l !! m = Some c ->
  countAccepted (take (S m) l) =
  (countAccepted (take m l) + if accepted (fst c) then 1 else 0)%nat.
Proof.
  intros Hm. rewrite (take_S_r _ _ _ Hm), countAccepted_app. cbn. lia.
Qed.

Lemma countAccepted_take_mono l m k :
  (m <= k)%nat -> (countAccepted (take m l) <= countAccepted (take k l))%nat.
Proof.
  intros Hmk. replace k with (m + (k - m))%nat by lia.
  rewrite <- take_take_drop, countAccepted_app. lia.
Qed.

(** Two accepted blocks with the same counter value are the same block. *)
Lemma countAccepted_take_inj l m k c c' :
  l !! m = Some c -> accepted (fst c) = true ->
  l !! k = Some c' -> accepted (fst c') = true ->
  countAccepted (take m l) = countAccepted (take k l) -> m = k.
Proof.
  intros Hm Hc Hk Hc' Heq.
  destruct (Nat.lt_trichotomy m k) as [Hlt|[->|Hlt]]; [|done|]; exfalso.
  - pose proof (countAccepted_take_mono l (S m) k ltac:(lia)) as Hmono.
    rewrite (countAccepted_take_S _ _ _ Hm), Hc in Hmono. lia.
  - pose proof (countAccepted_take_mono l (S k) m ltac:(lia)) as Hmono.
    rewrite (countAccepted_take_S _ _ _ Hk), Hc' in Hmono. lia.
Qed.

Lemma countAccepted_rel l l' m :
  Forall2 (fun c c' => accepted (fst c) = accepted (fst c')) l l' ->
  countAccepted (take m l) = countAccepted (take m l').
Proof.
  intros H. revert m. induction H as [|c c' l l' Hc _ IH]; intros [|m]; cbn; try done.
  by rewrite Hc, IH.
Qed.

Lemma flat_map_lookup {A B} (f : A -> list B) (l : list A) y :
  y ∈ flat_map f l -> exists k x, l !! k = Some x /\ y ∈ f x.
Proof.
  intros (x & Hx & Hy)%list_elem_of_In%in_flat_map.
  apply list_elem_of_In, list_elem_of_lookup_1 in Hx as [k Hk].
  exists k, x. split; [done|]. by apply list_elem_of_In.
Qed.

Lemma blockEntries_nonempty path b idx :
  accepted b = true -> exists e, e ∈ blockEntries path b idx.
Proof.
  unfold accepted, blockEntries. intros [_ H]%andb_true_iff.
  destruct (bUris (blockFields b)) as [|u us]; [done|].
  destruct (bSuites (blockFields b)) as [|s ss]; [done|].
  eexists. cbn. apply list_elem_of_here.
Qed.

(** ** Toggling twice: paragraph entries *)

Lemma hasNewline_enabledText en : hasNewline (enabledText en) = false.
Proof. by destruct en. Qed.

(** One toggle of a paragraph entry whose [blockIndex] is the position
    [k] of a block with its only [Enabled:] line at [i]: that line is
    replaced by the text of the other state. *)
Lemma toggle_paragraph_step flt w e L r i k :
  isDeb822 e = true -> blockIndex e = Z.of_nat k ->
  linesOf (disk w) (file e) = L ->
  Forall (fun l => hasNewline l = false) L ->
  blockRanges L !! k = Some r -> onlyEnabledAt L r i ->
  writeOk flt = true ->
  exists msg w1,
    toggle flt e w = Ret ((true, msg), w1) /\
    disk w1 !! file e = Some (unlines (<[i := enabledText (negb (enabled e))]> L)) /\
    linesOf (disk w1) (file e) = <[i := enabledText (negb (enabled e))]> L.
Proof.
  intros Hfmt Hbi HL Hnl Hr Honly Hok.
  unfold toggle. rewrite Hfmt, toggleDeb822_eq, HL.
  unfold toggledBlockLines. rewrite Hbi, (blockAt_lookup _ _ _ Hr), (enabledLine_only _ _ _ Honly).
  replace (if enabled e then "Enabled: no" else "Enabled: yes")
    with (enabledText (negb (enabled e))) by (by destruct (enabled e)).
  destruct (commitLines_ok flt (file e) (<[i := enabledText (negb (enabled e))]> L) w Hok)
    as (msg & w1 & Hrun & Hdisk).
  exists msg, w1. split; [exact Hrun|]. split; [exact Hdisk|].
  unfold linesOf. rewrite Hdisk. apply getlines_unlines.
  apply Forall_insert; [done|]. apply hasNewline_enabledText.
Qed.

Lemma insert_middle {A} (pre post : list A) x y j :
  length pre = j -> <[j := y]> (pre ++ x :: post) = pre ++ y :: post.
Proof. intros <-. induction pre as [|a pre IH]; cbn; [done|]. by f_equal. Qed.

(** What the parser loads after the only [Enabled:] line of block [k] was
    replaced by another [Enabled:] line [y], when [k] is also the block's
    index for the parser: the entries with index [k] are there, and their
    state is the value of [y]. *)
Lemma reload_after_toggle path L k b r i y :
  sourcesCalls L [] 0%Z !! k = Some (b, Z.of_nat k) -> accepted b = true ->
  blockRanges L !! k = Some r -> onlyEnabledAt L r i -> isEnabledLine y = true ->
  (exists e', e' ∈ parseSourcesFile path (<[i := y]> L) /\ blockIndex e' = Z.of_nat k) /\
  (forall e', e' ∈ parseSourcesFile path (<[i := y]> L) -> blockIndex e' = Z.of_nat k ->
     file e' = path /\ isDeb822 e' = true /\ enabled e' = enabledValue y).
Proof.
  intros Hk Hacc Hr Honly Hy.
  destruct (onlyEnabledAt_split L r i Honly)
    as (pre & x & post & HLi & Hx & Hb & Hlen & Hpre & Hpost).
  pose proof Honly as (Hi & _ & _).
  set (L1 := <[i := y]> L).
  set (calls0 := sourcesCalls L [] 0%Z) in *.
  set (calls1 := sourcesCalls L1 [] 0%Z).
  pose proof (blockRanges_calls L) as Hall0. fold calls0 in Hall0.
  pose proof (blockRanges_calls L1) as Hall1. fold calls1 in Hall1.
  unfold L1 in Hall1 at 2.
  rewrite (blockRanges_insert_enabled L i x y HLi Hx Hy) in Hall1.
  assert (b = slice L r) as Hbs by exact (Forall2_lookup_lr _ _ _ _ _ _ Hall0 Hk Hr).
  assert (slice L1 r = pre ++ y :: post) as Hb1.
  { unfold L1. rewrite slice_insert_inside by done. rewrite Hb. by apply insert_middle. }
  assert (Forall2 (fun c c' => accepted (fst c) = accepted (fst c')) calls1 calls0) as Hrel.
  { apply Forall2_same_length_lookup_2.
    - rewrite (Forall2_length _ _ _ Hall1). symmetry. by eapply Forall2_length.
    - intros m c1 c0 Hm1 Hm0.
      destruct (Forall2_lookup_l _ _ _ _ _ Hall0 Hm0) as (rm & Hrm & Hs0).
      pose proof (Forall2_lookup_lr _ _ _ _ _ _ Hall1 Hm1 Hrm) as Hs1.
      cbn beta in Hs0, Hs1. rewrite Hs0, Hs1.
      destruct (decide (m = k)) as [->|Hne].
      + assert (rm = r) as -> by congruence. rewrite Hb1, Hb.
        apply accepted_same. by apply blockFields_swap_enabled.
      + unfold L1. rewrite slice_insert_outside; [done|].
        destruct (decide (m < k)%nat).
        * pose proof (blockRanges_disjoint L m k rm r ltac:(lia) Hrm Hr). lia.
        * pose proof (blockRanges_disjoint L k m r rm ltac:(lia) Hr Hrm). lia. }
  assert (countAccepted (take k calls0) = k) as Hcount0.
  { pose proof (sourcesCalls_index _ _ _ _ _ _ Hk) as H. fold calls0 in H. lia. }
  assert (exists idx1, calls1 !! k = Some (slice L1 r, idx1)) as [idx1 Hk1].
  { assert (k < length calls1)%nat as Hlt.
    { rewrite (Forall2_length _ _ _ Hrel). by eapply lookup_lt_Some. }
    destruct (lookup_lt_is_Some_2 _ _ Hlt) as [[b1 idx1] Hk1].
    pose proof (Forall2_lookup_lr _ _ _ _ _ _ Hall1 Hk1 Hr) as Hs. cbn in Hs. subst b1.
    by exists idx1. }
  assert (idx1 = Z.of_nat k) as ->.
  { pose proof (sourcesCalls_index _ _ _ _ _ _ Hk1) as H. fold calls1 in H.
    rewrite (countAccepted_rel _ _ k Hrel), Hcount0 in H. lia. }
  assert (accepted (slice L1 r) = true) as Hacc1.
  { pose proof (Forall2_lookup_lr _ _ _ _ _ _ Hrel Hk1 Hk) as H. cbn in H. congruence. }
  assert (forall e', e' ∈ blockEntries path (slice L1 r) (Z.of_nat k) ->
            file e' = path /\ blockIndex e' = Z.of_nat k /\ isDeb822 e' = true /\
            enabled e' = enabledValue y) as Hentries.
  { intros e' (Hf & Hbi & Hd & Hen)%blockEntries_elem.
    repeat split; try done. rewrite Hen, Hb1. by apply blockFields_one_enabled. }
  split.
  - destruct (blockEntries_nonempty path (slice L1 r) (Z.of_nat k) Hacc1) as [e' He'].
    exists e'. split; [|by apply Hentries].
    rewrite parseSourcesFile_calls. eapply flat_map_elem; [exact Hk1|].
    unfold callEntries. cbn [fst snd]. by rewrite Hacc1.
  - intros e' He' Hbi. rewrite parseSourcesFile_calls in He'.
    apply flat_map_lookup in He' as (m & [bm im] & Hm & He').
    unfold callEntries in He'. cbn [fst snd] in He'.
    destruct (accepted bm) eqn:Haccm; [|by apply elem_of_nil in He'].
    pose proof (blockEntries_elem _ _ _ _ He') as (_ & Hbim & _).
    pose proof (sourcesCalls_index _ _ _ _ _ _ Hm) as Him. fold calls1 in Him.
    assert (m = k) as ->.
    { apply (countAccepted_take_inj calls1 m k (bm, im) (slice L1 r, Z.of_nat k));
        try done.
      rewrite (countAccepted_rel _ _ k Hrel), Hcount0. lia. }
    assert ((bm, im) = (slice L1 r, Z.of_nat k)) as [= -> ->]
      by (unfold calls1 in Hk1; congruence).
    destruct (Hentries e' He') as (? & ? & ? & ?). done.
Qed.

Lemma toggle_twice_paragraph flt1 flt2 w e bytes k b r i :
  disk w !! file e = Some bytes -> newlineTerminated bytes = true ->
  sourcesCalls (getlines EmptyString bytes) [] 0%Z !! k = Some (b, Z.of_nat k) ->
  accepted b = true ->
  e ∈ blockEntries (file e) b (Z.of_nat k) ->
  blockRanges (getlines EmptyString bytes) !! k = Some r ->
  onlyEnabledAt (getlines EmptyString bytes) r i ->
  getlines EmptyString bytes !! i = Some (enabledText (enabled e)) ->
  writeOk flt1 = true -> writeOk flt2 = true ->
  roundTrips flt1 flt2 w e bytes (fun e' => blockIndex e' = blockIndex e).
Proof.
  intros Hbytes Hterm Hk Hacc He Hr Honly HLi Hok1 Hok2.
  set (L := getlines EmptyString bytes) in *.
  destruct (blockEntries_elem _ _ _ _ He) as (_ & Hbi & Hfmt & _).
  assert (linesOf (disk w) (file e) = L) as HL0 by (unfold linesOf; by rewrite Hbytes).
  assert (Forall (fun l => hasNewline l = false) L) as Hnl by (by apply getlines_no_newline).
  set (y := enabledText (negb (enabled e))).
  destruct (toggle_paragraph_step flt1 w e L r i k Hfmt Hbi HL0 Hnl Hr Honly Hok1)
    as (m1 & w1 & Hrun1 & Hdisk1 & HL1). fold y in Hdisk1, HL1.
  destruct (reload_after_toggle (file e) L k b r i y Hk Hacc Hr Honly
              (enabledText_line _)) as [Hex Hall].
  exists m1, w1. split; [exact Hrun1|]. unfold loadFile. rewrite Hfmt, HL1, Hbi.
  split; [exact Hex|].
  intros e' He' Hbi'. destruct (Hall e' He' Hbi') as (Hfile' & Hfmt' & Hen').
  unfold y in Hen'. rewrite enabledText_value in Hen'. split; [exact Hen'|].
  assert (i < length L)%nat as Hi by (by eapply lookup_lt_Some).
  rewrite <- Hfile' in HL1.
  assert (blockRanges (<[i := y]> L) !! k = Some r) as Hr'.
  { rewrite (blockRanges_insert_enabled L i _ y HLi); [done|apply enabledText_line..]. }
  destruct (toggle_paragraph_step flt2 w1 e' (<[i := y]> L) r i k Hfmt' Hbi' HL1
              ltac:(apply Forall_insert; [done|apply hasNewline_enabledText]) Hr'
              ltac:(apply onlyEnabledAt_insert; [done|apply enabledText_line|done]) Hok2)
    as (m2 & w2 & Hrun2 & Hdisk2 & _).
  exists m2, w2. split; [exact Hrun2|].
  rewrite <- Hfile', Hdisk2, Hen', negb_involutive, list_insert_insert_eq.
  rewrite (list_insert_id _ _ _ HLi). unfold L. by rewrite unlines_getlines.
Qed.

(** ** Toggling twice *)

(** C2, as stated, fails: the disabled line [#deb http://a focal main]
    comes back from two toggles as [# deb http://a focal main]. *)
Lemma toggle_twice_counterexample :
  let path := "/etc/apt/sources.list" in
  let e := {| file := path; display := "#deb http://a focal main";
              enabled := false; isDeb822 := false; blockIndex := (-1)%Z;
              uri := "http://a"; suite := "focal"; components := "main";
              types := "deb" |} in
  let w := {| disk := {[ path := "#deb http://a focal main
" ]}; undoStack := []; backupDir := "/var/backups/relix"; journal := [] |} in
  let flt := noFaults "20240101_000000" in
  parseListFile path (linesOf (disk w) path) = [e] /\
  exists w1 e' w2,
    toggle flt e w = Ret ((true, EmptyString), w1) /\
    parseListFile path (linesOf (disk w1) path) = [e'] /\
    toggle flt e' w1 = Ret ((true, EmptyString), w2) /\
    disk w2 !! path = Some "# deb http://a focal main
" /\
    disk w2 !! path <> disk w !! path.
Proof.
  intros path e w flt. split; [vm_compute; reflexivity|].
  eexists _, _, _. split; [vm_compute; reflexivity|].
  split; [vm_compute; reflexivity|]. split; [vm_compute; reflexivity|].
  split; [vm_compute; reflexivity|]. vm_compute. discriminate.
Qed.

(** C2, amended. Toggling an entry twice, with the entry list reloaded
    from disk between the two toggles, no external edit and both writes
    succeeding, returns the file to content byte-identical to what it held
    before, when the file consists of complete lines (it is empty or ends
    in a line feed) and
    - for a one-line entry: its line is [L] when active and [# L] when
      disabled, for an [L] without surrounding whitespace, and the other of
      these two texts does not occur in the file before the entry's line;
    - for a paragraph entry: its [blockIndex] is the position of its block
      among all the blocks of the file, and the block has exactly one
      [Enabled:] line, spelled [Enabled: yes] when the entry is active and
      [Enabled: no] when it is disabled. *)
Theorem toggle_twice_roundtrip flt1 flt2 w e bytes :
  disk w !! file e = Some bytes -> newlineTerminated bytes = true ->
  writeOk flt1 = true -> writeOk flt2 = true ->
  let lines := getlines EmptyString bytes in
  (forall pre post L,
     e ∈ parseListFile (file e) lines ->
     lines = pre ++ display e :: post -> (display e ∉ pre) ->
     display e = lineOf (enabled e) L -> trimStr L = L ->
     (lineOf (negb (enabled e)) L ∉ pre) ->
     roundTrips flt1 flt2 w e bytes
       (fun e' => display e' = lineOf (negb (enabled e)) L)) /\
  (forall k b r i,
     sourcesCalls lines [] 0%Z !! k = Some (b, Z.of_nat k) -> accepted b = true ->
     e ∈ blockEntries (file e) b (Z.of_nat k) ->
     blockRanges lines !! k = Some r -> onlyEnabledAt lines r i ->
     lines !! i = Some (enabledText (enabled e)) ->
     roundTrips flt1 flt2 w e bytes (fun e' => blockIndex e' = blockIndex e)).
Proof.
  intros Hbytes Hterm Hok1 Hok2 lines. split.
  - intros pre post L He Hlines Hpre Hd HL Hpre'.
    pose proof He as (line & _ & Hparse)%parseListFile_elem.
    destruct (parseListLine_inv _ _ _ Hparse) as (_ & _ & Hfmt & _).
    destruct (toggle_twice_oneline flt1 flt2 w e bytes pre post L
                Hbytes Hterm He Hlines Hpre Hd HL Hpre' Hok1 Hok2)
      as (m1 & w1 & Hrun & Hex & Hall).
    exists m1, w1. unfold loadFile. rewrite Hfmt. done.
  - intros k b r i Hk Hacc He Hr Honly HLi.
    by eapply toggle_twice_paragraph.
Qed.

Lemma toggle_twice_roundtrip_witness :
  let path := "/etc/apt/sources.list.d/ubuntu.sources" in
  let bytes := "Types: deb
URIs: http://a
Suites: focal
Enabled: yes
" in
  let e := {| file := path; display := "deb http://a focal"; enabled := true;
              isDeb822 := true; blockIndex := 0%Z; uri := "http://a";
              suite := "focal"; components := EmptyString; types := "deb" |} in
  let w := {| disk := {[ path := bytes ]}; undoStack := [];
              backupDir := "/var/backups/relix"; journal := [] |} in
  let flt := noFaults "20240101_000000" in
  e ∈ parseSourcesFile path (getlines EmptyString bytes) /\
  roundTrips flt flt w e bytes (fun e' => blockIndex e' = blockIndex e).
Proof.
  intros path bytes e w flt. split.
  - vm_compute. apply list_elem_of_here.
  - assert (disk w !! file e = Some bytes) as Hbytes by (vm_compute; reflexivity).
    apply (proj2 (toggle_twice_roundtrip flt flt w e bytes Hbytes eq_refl eq_refl eq_refl)
             0%nat ["Types: deb"; "URIs: http://a"; "Suites: focal"; "Enabled: yes"]
             (0, 3)%nat 3%nat).
    + vm_compute. reflexivity.
    + vm_compute. reflexivity.
    + vm_compute. apply list_elem_of_here.
    + vm_compute. reflexivity.
    + split; [cbn; lia|]. split; [vm_compute; reflexivity|].
      intros j Hj Hne. cbn in Hj.
      destruct j as [|[|[|j]]]; [vm_compute; reflexivity..|lia].
    + vm_compute. reflexivity.
Defined.

(** ** More on the string utilities *)

Lemma substring_0_cons n c s :
  String.substring 0 (S n) (String c s) = String c (String.substring 0 n s).
Proof. reflexivity. Qed.

Lemma substring_0_0 s : String.substring 0 0 s = EmptyString.
Proof. by destruct s. Qed.

Lemma rtrim_cons c s :
  rtrim (String c s) =
  match find_last_not_of s with
  | Some _ => String c (rtrim s)
  | None => if isTrimWs c then EmptyString else String c EmptyString
  end.
Proof.
  unfold rtrim. cbn [find_last_not_of].
  destruct (find_last_not_of s) as [en|].
  - by rewrite substring_0_cons.
  - destruct (isTrimWs c); [done|]. by rewrite substring_0_cons, substring_0_0.
Qed.

Lemma find_last_rtrim s : find_last_not_of (rtrim s) = find_last_not_of s.
Proof.
  induction s as [|c s IH]; [done|]. rewrite rtrim_cons.
  destruct (find_last_not_of s) as [en|] eqn:Hl.
  - cbn [find_last_not_of]. by rewrite IH, Hl.
  - cbn [find_last_not_of]. rewrite Hl. destruct (isTrimWs c) eqn:Hc; cbn; by rewrite ?Hc.
Qed.

Lemma rtrim_idem s : rtrim (rtrim s) = rtrim s.
Proof.
  induction s as [|c s IH]; [done|]. rewrite rtrim_cons.
  destruct (find_last_not_of s) as [en|] eqn:Hl.
  - rewrite rtrim_cons, find_last_rtrim, Hl. by rewrite IH.
  - destruct (isTrimWs c) eqn:Hc; [done|]. rewrite rtrim_cons. cbn. by rewrite Hc.
Qed.

(** [trimStr] on a string that starts outside the whitespace set. *)
Lemma trimStr_cons_nonws c s :
  isTrimWs c = false -> trimStr (String c s) = String c (rtrim s).
Proof.
  intros Hc. unfold trimStr, substr, rtrim. cbn [find_first_not_of find_last_not_of].
  rewrite Hc. destruct (find_last_not_of s) as [en|].
  - replace (S en - 0 + 1)%nat with (S (S en)) by lia. by rewrite substring_0_cons.
  - cbn. by rewrite substring_0_0.
Qed.

(** [trimStr] is: drop the leading whitespace, then the trailing. *)
Lemma trimStr_shape s :
  trimStr s = EmptyString \/
  exists c r, isTrimWs c = false /\ trimStr s = String c (rtrim r).
Proof.
  induction s as [|c s IH]; [by left|].
  destruct (isTrimWs c) eqn:Hc.
  - by rewrite trimStr_ws_cons.
  - right. exists c, s. split; [done|]. by apply trimStr_cons_nonws.
Qed.

(** X1. [trimStr] is idempotent, and what it returns neither starts nor
    ends with a character of its whitespace set. *)
Theorem trimStr_idempotent s :
  trimStr (trimStr s) = trimStr s /\
  (trimStr s <> EmptyString ->
   find_first_not_of (trimStr s) = Some 0%nat /\
   find_last_not_of (trimStr s) = Some (String.length (trimStr s) - 1)%nat).
Proof.
  assert (trimStr (trimStr s) = trimStr s) as Hidem.
  { destruct (trimStr_shape s) as [->|(c & r & Hc & ->)]; [done|].
    by rewrite trimStr_cons_nonws, rtrim_idem. }
  split; [exact Hidem|]. intros Hne.
  destruct (trimStr_fixed_inv _ Hidem Hne) as (Hf & en & Hl & Hlen).
  split; [exact Hf|]. rewrite Hl. f_equal. lia.
Qed.

Lemma allChars_app P a b : allChars P (a +:+ b) = allChars P a && allChars P b.
Proof.
  induction a as [|c a IH]; [done|].
  rewrite str_app_cons. cbn [allChars]. by rewrite IH, andb_assoc.
Qed.

Lemma splitWordsFrom_words w s :
  allChars (fun c => negb (isSpace c)) w = true ->
  Forall (fun x => x <> EmptyString /\ allChars (fun c => negb (isSpace c)) x = true)
         (splitWordsFrom w s).
Proof.
  revert w. induction s as [|c s IH]; intros w Hw; cbn [splitWordsFrom].
  - destruct w; [constructor|]. by repeat constructor.
  - destruct (isSpace c) eqn:Hc.
    + destruct w as [|c0 w]; cbn [empty]; [by apply IH|].
      constructor; [done|]. by apply IH.
    + apply IH. rewrite allChars_app, Hw. cbn. by rewrite Hc.
Qed.

(** X2. Every word [splitWords] returns is non-empty and free of
    whitespace. *)
Theorem splitWords_words s :
  Forall (fun x => x <> EmptyString /\ allChars (fun c => negb (isSpace c)) x = true)
         (splitWords s).
Proof. by apply splitWordsFrom_words. Qed.

Lemma contains_iff needle s :
  contains needle s = true <-> exists pre post, s = pre +:+ needle +:+ post.
Proof.
  induction s as [|c s IH].
  - cbn [contains]. rewrite orb_false_r. split.
    + intros [r Hr]%prefix_shape. exists EmptyString, r. done.
    + intros (pre & post & Hs). destruct pre; [|done].
      destruct needle; [done|done].
  - cbn [contains]. rewrite orb_true_iff, IH. split.
    + intros [[r Hr]%prefix_shape|(pre & post & ->)].
      * exists EmptyString, r. done.
      * exists (String c pre), post. done.
    + intros ([|c' pre] & post & Hs).
      * left. rewrite str_app_nil_l in Hs. rewrite Hs. apply prefix_app.
      * right. rewrite str_app_cons in Hs. injection Hs as _ ->. eauto.
Qed.

Lemma lowerChar_idem c : lowerChar (lowerChar c) = lowerChar c.
Proof.
  unfold lowerChar.
  destruct (Nat.leb 65 (nat_of_ascii c) && Nat.leb (nat_of_ascii c) 90) eqn:Hc; [|by rewrite Hc].
  apply andb_true_iff in Hc as [H1%Nat.leb_le H2%Nat.leb_le].
  rewrite nat_ascii_embedding by lia.
  destruct (Nat.leb 65 _ && Nat.leb _ 90) eqn:Hc'; [|done].
  apply andb_true_iff in Hc' as [_ H3%Nat.leb_le]. lia.
Qed.

Lemma toLower_idem s : toLower (toLower s) = toLower s.
Proof. induction s as [|c s IH]; cbn; [done|]. by rewrite lowerChar_idem, IH. Qed.

(** X3. [containsCI] holds exactly when the lower-cased needle occurs in
    the lower-cased haystack; so neither the case of the haystack nor that
    of the needle matters, and the empty needle is found everywhere. *)
Theorem containsCI_spec haystack needle :
  (containsCI haystack needle = true <->
   exists pre post, toLower haystack = pre +:+ toLower needle +:+ post) /\
  containsCI (toLower haystack) needle = containsCI haystack needle /\
  containsCI haystack (toLower needle) = containsCI haystack needle /\
  containsCI haystack EmptyString = true.
Proof.
  unfold containsCI. rewrite !toLower_idem. split; [apply contains_iff|].
  split; [done|]. split; [done|]. by destruct (toLower haystack).
Qed.

Lemma unlines_getlines_open bytes cur :
  endsWithNewline bytes = false -> empty cur && empty bytes = false ->
  unlines (getlines cur bytes) = cur +:+ bytes +:+ String "010" EmptyString.
Proof.
  revert cur. induction bytes as [|c rest IH]; intros cur Hend Hne.
  - rewrite andb_true_r in Hne. cbn [getlines]. rewrite Hne. done.
  - cbn [getlines]. destruct (Ascii.eqb c "010") eqn:Hc.
    + apply ascii_eqb_true in Hc as ->. cbn [unlines fold_right].
      fold (unlines (getlines EmptyString rest)).
      destruct rest as [|c' rest']; [done|].
      rewrite (IH EmptyString) by done. reflexivity.
    + destruct rest as [|c' rest'].
      * cbn [getlines]. destruct (cur +:+ String c EmptyString) eqn:Hcur.
        { by destruct cur. }
        cbn [empty unlines fold_right]. rewrite <- Hcur. by rewrite str_app_assoc.
      * rewrite IH; [by rewrite str_app_assoc|done|by destruct cur].
Qed.

(** X4. Reading a file as lines and writing the lines back normalises its
    bytes: a file of complete lines is reproduced byte for byte, any other
    file gets the one line feed its last line lacks. *)
Theorem unlines_getlines_normal bytes :
  unlines (getlines EmptyString bytes) =
  if newlineTerminated bytes then bytes else bytes +:+ String "010" EmptyString.
Proof.
  destruct (newlineTerminated bytes) eqn:Hnt; [by apply unlines_getlines|].
  unfold newlineTerminated in Hnt. apply orb_false_iff in Hnt as [Hne Hend].
  by rewrite unlines_getlines_open.
Qed.

(** ** What the parsers guarantee of every entry *)

Lemma omap_display_sublist path lines :
  sublist (display <$> parseListFile path lines) lines.
Proof.
  unfold parseListFile. induction lines as [|l lines IH]; [constructor|].
  cbn [omap list_omap]. destruct (parseListLine path l) as [e|] eqn:He.
  - cbn [fmap list_fmap]. destruct (parseListLine_inv _ _ _ He) as (_ & -> & _).
    by constructor.
  - by constructor.
Qed.

(** X5. The one-line parser emits its entries in file order, at most one
    per line and each showing its line untouched: the [display] texts are
    a subsequence of the lines read. Every entry names the file parsed, is
    marked one-line, has [blockIndex] -1 and type [deb]. *)
Theorem parseListFile_entries path lines :
  sublist (display <$> parseListFile path lines) lines /\
  forall e, e ∈ parseListFile path lines ->
    file e = path /\ isDeb822 e = false /\ blockIndex e = (-1)%Z /\ types e = "deb".
Proof.
  split; [apply omap_display_sublist|].
  intros e (line & _ & Hp)%parseListFile_elem.
  unfold parseListLine in Hp.
  destruct (empty (trimStr line)); [done|].
  destruct (negb _ && negb _); [done|]. by injection Hp as <-.
Qed.

Lemma dropMarker_some l : l <> EmptyString -> is_Some (dropMarker l).
Proof.
  destruct l as [|c [|c' l]]; [done|by eexists|]. intros _.
  unfold dropMarker, at_. cbn [String.get].
  destruct (Ascii.eqb c' " "); by eexists.
Qed.

(** X6. The one-line parser never asks [substr] for a position beyond the
    end of a string: on the non-empty trimmed line [t], both [t.substr(1)]
    and [t.substr(t[1] == ' ' ? 2 : 1)] are in range, whatever the line. *)
Theorem parseListLine_in_range line :
  let t := trimStr line in
  empty t = false -> is_Some (substrFrom t 1) /\ is_Some (dropMarker t).
Proof.
  intros t Ht. split; [by apply substrFrom_1_nonempty|].
  apply dropMarker_some. by destruct t.
Qed.

Lemma fieldStep_words f l :
  Forall isWord (bUris f) /\ Forall isWord (bSuites f) ->
  Forall isWord (bUris (fieldStep f l)) /\ Forall isWord (bSuites (fieldStep f l)).
Proof.
  intros [Hu Hs]. unfold fieldStep.
  repeat match goal with |- context [if ?b then _ else _] => destruct b end;
    cbn [bUris bSuites]; split; try done; by apply splitWordsFrom_words.
Qed.

Lemma blockFields_words b :
  Forall isWord (bUris (blockFields b)) /\ Forall isWord (bSuites (blockFields b)).
Proof.
  unfold blockFields.
  assert (Forall isWord (bUris noFields) /\ Forall isWord (bSuites noFields)) as H0
    by (split; constructor).
  revert H0. generalize noFields. induction b as [|l b IH]; intros f Hf; [done|].
  cbn [fold_left]. by apply IH, fieldStep_words.
Qed.

Lemma blockEntries_fields path b idx e :
  e ∈ blockEntries path b idx ->
  uri e ∈ bUris (blockFields b) /\ suite e ∈ bSuites (blockFields b) /\
  types e = bTypes (blockFields b) /\ components e = bCompRaw (blockFields b).
Proof.
  unfold blockEntries.
  intros (u & (s & ->%list_elem_of_singleton & Hs)%list_elem_of_bind & Hu)%list_elem_of_bind.
  done.
Qed.

Lemma blockEntries_length path b idx :
  length (blockEntries path b idx) =
  (length (bUris (blockFields b)) * length (bSuites (blockFields b)))%nat.
Proof.
  unfold blockEntries. generalize (bSuites (blockFields b)) as ss.
  induction (bUris (blockFields b)) as [|u us IH]; intros ss; [done|].
  cbn [mbind list_bind]. rewrite length_app. cbn [length Nat.mul]. f_equal; [|apply IH].
  clear. induction ss as [|s ss IH]; [done|]. cbn. by rewrite IH.
Qed.

(** Where an entry of the paragraph parser comes from. *)
Lemma parseSourcesFile_origin path lines e :
  e ∈ parseSourcesFile path lines ->
  exists k b idx,
    sourcesCalls lines [] 0%Z !! k = Some (b, idx) /\ accepted b = true /\
    e ∈ blockEntries path b idx /\
    idx = Z.of_nat (countAccepted (take k (sourcesCalls lines [] 0%Z))) /\
    (countAccepted (take k (sourcesCalls lines [] 0%Z)) <= k)%nat /\
    (k < length (blockRanges lines))%nat.
Proof.
  rewrite parseSourcesFile_calls.
  intros (k & [b idx] & Hk & He)%flat_map_lookup.
  unfold callEntries in He. cbn [fst snd] in He.
  destruct (accepted b) eqn:Hacc; [|by apply elem_of_nil in He].
  exists k, b, idx. split; [done|]. split; [done|]. split; [done|].
  pose proof (sourcesCalls_index _ _ _ _ _ _ Hk) as Hidx.
  pose proof (lookup_lt_Some _ _ _ Hk) as Hlt.
  split; [lia|]. split.
  - pose proof (countAccepted_le (take k (sourcesCalls lines [] 0%Z))) as Hle.
    rewrite length_take in Hle. lia.
  - by rewrite <- (Forall2_length _ _ _ (blockRanges_calls lines)).
Qed.

Lemma blockEntries_pairs path b idx :
  blockEntries path b idx =
  flat_map (fun u => map (pairEntry path (blockFields b) idx u) (bSuites (blockFields b)))
           (bUris (blockFields b)).
Proof.
  unfold blockEntries. cbn zeta.
  induction (bUris (blockFields b)) as [|u us IH]; [done|].
  cbn [flat_map]. rewrite <- IH.
  change (mbind ?f (u :: us)) with (f u ++ mbind f us). f_equal.
Qed.

Lemma countAccepted_ranges lines (calls : list (list string * Z)) ranges :
  Forall2 (fun c r => fst c = slice lines r) calls ranges ->
  countAccepted calls = length (List.filter (fun r => accepted (slice lines r)) ranges).
Proof.
  induction 1 as [|c r calls ranges Hc _ IH]; [done|].
  cbn [countAccepted List.filter]. rewrite Hc, IH.
  by destruct (accepted (slice lines r)).
Qed.

Lemma acceptedBefore_calls lines k :
  countAccepted (take k (sourcesCalls lines [] 0%Z)) = acceptedBefore lines k.
Proof.
  unfold acceptedBefore. apply countAccepted_ranges.
  apply Forall2_take, blockRanges_calls.
Qed.

Lemma callEntries_block path lines k c r :
  sourcesCalls lines [] 0%Z !! k = Some c -> blockRanges lines !! k = Some r ->
  callEntries path c = entriesOfBlock path lines k r.
Proof.
  intros Hc Hr.
  pose proof (Forall2_lookup_lr _ _ _ _ _ _ (blockRanges_calls lines) Hc Hr) as Hb.
  destruct c as [b i]. cbn [fst] in Hb. subst b.
  pose proof (sourcesCalls_index _ _ _ _ _ _ Hc) as Hi.
  rewrite acceptedBefore_calls, Z.add_0_l in Hi.
  unfold callEntries, entriesOfBlock. cbn [fst snd]. cbn zeta.
  destruct (accepted (slice lines r)); [|done].
  by rewrite blockEntries_pairs, Hi.
Qed.

Lemma parseSourcesFile_blocks path lines :
  parseSourcesFile path lines =
  concat (imap (entriesOfBlock path lines) (blockRanges lines)).
Proof.
  rewrite parseSourcesFile_calls, flat_map_concat_map. f_equal.
  apply list_eq. intros k. rewrite list_lookup_imap.
  change (map (callEntries path) ?l !! k) with ((callEntries path <$> l) !! k).
  rewrite list_lookup_fmap.
  pose proof (blockRanges_calls lines) as HF.
  destruct (sourcesCalls lines [] 0%Z !! k) as [c|] eqn:Hc.
  - destruct (Forall2_lookup_l _ _ _ _ _ HF Hc) as (r & Hr & _).
    rewrite Hr. cbn. f_equal. by apply (callEntries_block path lines k).
  - destruct (blockRanges lines !! k) as [r|] eqn:Hr; [|done].
    destruct (Forall2_lookup_r _ _ _ _ _ HF Hr) as (c & Hc' & _). congruence.
Qed.

Lemma length_concat_imap {A B} (g : nat -> A -> list B) (h : A -> nat) (l : list A) :
  (forall k x, length (g k x) = h x) ->
  length (concat (imap g l)) = sum_list (map h l).
Proof.
  revert g. induction l as [|x l IH]; intros g Hg; [done|].
  cbn [imap concat map sum_list sum_list_with]. rewrite length_app, Hg.
  rewrite (IH (g ∘ S)); [done|]. intros k y. apply Hg.
Qed.

Lemma elem_of_concat_imap {A B} (g : nat -> A -> list B) (l : list A) y :
  y ∈ concat (imap g l) <-> exists k x, l !! k = Some x /\ y ∈ g k x.
Proof.
  revert g. induction l as [|x l IH]; intros g.
  - cbn. split; [by intros ?%elem_of_nil|by intros (k & x' & ? & _)].
  - cbn [imap concat]. rewrite elem_of_app, IH. split.
    + intros [Hy|(k & x' & Hk & Hy)]; [by exists 0%nat, x|by exists (S k), x'].
    + intros ([|k] & x' & Hk & Hy).
      * injection Hk as <-. by left.
      * right. by exists k, x'.
Qed.

Lemma entriesOfBlock_elem path lines k r e :
  e ∈ entriesOfBlock path lines k r <->
  accepted (slice lines r) = true /\
  exists u s,
    u ∈ bUris (blockFields (slice lines r)) /\
    s ∈ bSuites (blockFields (slice lines r)) /\
    e = pairEntry path (blockFields (slice lines r))
          (Z.of_nat (acceptedBefore lines k)) u s.
Proof.
  unfold entriesOfBlock. cbn zeta. destruct (accepted (slice lines r)).
  2:{ split; [by intros ?%elem_of_nil|by intros [? _]]. }
  rewrite list_elem_of_In, in_flat_map. split.
  - intros (u & Hu%list_elem_of_In & (s & <- & Hs%list_elem_of_In)%in_map_iff).
    split; [done|]. by exists u, s.
  - intros (_ & u & s & Hu & Hs & ->). exists u. split; [by apply list_elem_of_In|].
    apply in_map_iff. exists s. split; [done|by apply list_elem_of_In].
Qed.

(** X7. The entries of the paragraph parser, block by block. The output
    is the concatenation, over the blocks of the file in their order (the
    maximal runs of non-blank lines, as the mutation engine enumerates
    them), of the entries of each block: none for a rejected block, and
    for an accepted one one entry for every pair of a URI and a suite of
    the block, URI by URI, carrying that URI and that suite, the block's
    types, components and enabled flag, the file parsed, the paragraph
    mark, and as [blockIndex] the number of accepted blocks before it. So
    an entry is in the output exactly when it is such an entry of an
    accepted block, and the output has as many entries as the accepted
    blocks have pairs. Every entry has a URI and a suite that are words
    (not empty, no whitespace) and a [blockIndex] that is at least 0 and
    below the number of blocks the mutation engine finds in the same
    lines. *)
Theorem parseSourcesFile_entries path lines :
  parseSourcesFile path lines =
    concat (imap (entriesOfBlock path lines) (blockRanges lines)) /\
  (forall e,
     e ∈ parseSourcesFile path lines <->
     exists k r u s,
       blockRanges lines !! k = Some r /\ accepted (slice lines r) = true /\
       u ∈ bUris (blockFields (slice lines r)) /\
       s ∈ bSuites (blockFields (slice lines r)) /\
       e = pairEntry path (blockFields (slice lines r))
             (Z.of_nat (acceptedBefore lines k)) u s) /\
  length (parseSourcesFile path lines) =
    sum_list (map (fun r =>
                let f := blockFields (slice lines r) in
                if accepted (slice lines r)
                then (length (bUris f) * length (bSuites f))%nat else 0%nat)
              (blockRanges lines)) /\
  (forall e, e ∈ parseSourcesFile path lines ->
     file e = path /\ isDeb822 e = true /\ isWord (uri e) /\ isWord (suite e) /\
     (0 <= blockIndex e < Z.of_nat (length (blockRanges lines)))%Z).
Proof.
  split; [apply parseSourcesFile_blocks|]. split; [|split].
  - intros e. rewrite parseSourcesFile_blocks, elem_of_concat_imap. split.
    + intros (k & r & Hr & (Hacc & u & s & Hu & Hs & He)%entriesOfBlock_elem).
      by exists k, r, u, s.
    + intros (k & r & u & s & Hr & Hacc & Hu & Hs & He). exists k, r. split; [done|].
      apply entriesOfBlock_elem. split; [done|]. by exists u, s.
  - rewrite parseSourcesFile_blocks. apply length_concat_imap.
    intros k r. unfold entriesOfBlock. cbn zeta.
    destruct (accepted (slice lines r)); [|done].
    rewrite <- (blockEntries_length path (slice lines r) (Z.of_nat (acceptedBefore lines k))).
    by rewrite blockEntries_pairs.
  - intros e (k & b & idx & Hk & Hacc & He & Hidx & Hle & Hlt)%parseSourcesFile_origin.
    destruct (blockEntries_elem _ _ _ _ He) as (Hf & Hbi & Hfmt & _).
    destruct (blockEntries_fields _ _ _ _ He) as (Hu & Hs & _).
    destruct (blockFields_words b) as [Hwu Hws].
    split; [done|]. split; [done|].
    split; [by eapply (proj1 (Forall_forall _ _) Hwu)|].
    split; [by eapply (proj1 (Forall_forall _ _) Hws)|].
    rewrite Hbi, Hidx. lia.
Qed.

(** X8. Toggle and delete find the target of every entry just loaded
    from the file as it is on disk: they do not fail with NotFound and do
    not throw, but go on to the snapshot, backup and write. *)
Theorem fresh_entry_is_found op flt w e :
  e ∈ loadFile e (linesOf (disk w) (file e)) ->
  exists out,
    runLookup op flt e w =
    commitLines flt (file e) out (after [OpRead (file e)] (undoStack w) w) /\
    isNotFound (snd (commitResult flt (after [OpRead (file e)] (undoStack w) w) (file e)))
      = false.
Proof.
  intros He. unfold loadFile in He.
  set (lines := linesOf (disk w) (file e)) in *.
  assert (isNotFound (snd (commitResult flt
            (after [OpRead (file e)] (undoStack w) w) (file e))) = false) as Hnf
    by apply commitResult_not_notfound.
  destruct (isDeb822 e) eqn:Hfmt.
  - pose proof He as (k & b & idx & Hk & Hacc & Hbe & Hidx & Hle & Hlt)%parseSourcesFile_origin.
    destruct (blockEntries_elem _ _ _ _ Hbe) as (_ & Hbi & _).
    destruct (lookup_lt_is_Some_2 (blockRanges lines)
                (countAccepted (take k (sourcesCalls lines [] 0%Z))) ltac:(lia))
      as [r Hr].
    assert (blockAt (blockRanges lines) (blockIndex e) = Some r) as Hat.
    { rewrite Hbi, Hidx. by apply blockAt_lookup. }
    destruct op; cbn [runLookup].
    + unfold toggle. rewrite Hfmt, toggleDeb822_eq. fold lines.
      unfold toggledBlockLines. rewrite Hat.
      destruct (enabledLine lines r); eexists; (split; [reflexivity|exact Hnf]).
    + rewrite deleteRepoClean_eq. cbn zeta. rewrite Hfmt. fold lines.
      unfold deletedBlockLines. rewrite Hat. eexists. split; [reflexivity|exact Hnf].
  - pose proof He as (line & Hin & Hp)%parseListFile_elem.
    destruct (parseListLine_inv _ _ _ Hp) as (_ & Hd & _ & c & r & Ht & _).
    rewrite <- Hd in Hin.
    destruct (first_match _ _ Hin) as (pre & post & Hl & Hpre).
    destruct op; cbn [runLookup].
    + unfold toggle. rewrite Hfmt, toggleList_eq. fold lines.
      rewrite Hl, (toggleLoop_present _ _ _ Hpre).
      assert (display e <> EmptyString) as Hne.
      { rewrite Hd. intros ->. done. }
      unfold toggledLine. destruct (enabled e).
      * eexists. split; [reflexivity|exact Hnf].
      * destruct (dropMarker_some _ Hne) as [x ->].
        eexists. split; [reflexivity|exact Hnf].
    + rewrite deleteRepoClean_eq. cbn zeta. rewrite Hfmt. fold lines.
      rewrite Hl, (deleteLoop_present _ _ _ Hpre). cbn [fst snd].
      eexists. split; [reflexivity|exact Hnf].
Qed.

Lemma fresh_entry_is_found_witness :
  let path := "/etc/apt/sources.list.d/third-party.sources" in
  let e := {| file := path; display := "deb http://a focal"; enabled := true;
              isDeb822 := true; blockIndex := 0%Z; uri := "http://a";
              suite := "focal"; components := EmptyString; types := "deb" |} in
  let w := {| disk := {[ path := "Types: rpm
URIs: http://r
Suites: stable

Types: deb
URIs: http://a
Suites: focal
" ]}; undoStack := []; backupDir := "/var/backups/relix"; journal := [] |} in
  exists out,
    runLookup LDelete (noFaults "20240101_000000") e w =
    commitLines (noFaults "20240101_000000") (file e) out
                (after [OpRead (file e)] (undoStack w) w).
Proof.
  intros path e w.
  destruct (fresh_entry_is_found LDelete (noFaults "20240101_000000") w e) as (out & H & _).
  - vm_compute. apply list_elem_of_here.
  - by exists out.
Defined.

(** X9. Delete of a one-line entry writes the lines read without the
    first one equal to its [display]: that line only is removed, the
    others keep their text and order. *)
Theorem delete_oneline_first_match flt e w pre post :
  isDeb822 e = false ->
  linesOf (disk w) (file e) = pre ++ display e :: post -> (display e ∉ pre) ->
  deleteRepoClean flt e w =
    commitLines flt (file e) (pre ++ post) (after [OpRead (file e)] (undoStack w) w) /\
  (writeOk flt = true ->
   exists msg w', deleteRepoClean flt e w = Ret ((true, msg), w') /\
     disk w' !! file e = Some (unlines (pre ++ post))).
Proof.
  intros Hfmt Hl Hpre.
  assert (deleteRepoClean flt e w =
          commitLines flt (file e) (pre ++ post) (after [OpRead (file e)] (undoStack w) w))
    as Heq.
  { rewrite deleteRepoClean_eq. cbn zeta.
    by rewrite Hfmt, Hl, (deleteLoop_present _ _ _ Hpre). }
  split; [exact Heq|]. intros Hok. rewrite Heq. by apply commitLines_ok.
Qed.

Lemma delete_oneline_first_match_witness :
  let path := "/etc/apt/sources.list" in
  let e := {| file := path; display := "deb http://a focal main";
              enabled := true; isDeb822 := false; blockIndex := (-1)%Z;
              uri := "http://a"; suite := "focal"; components := "main";
              types := "deb" |} in
  let w := {| disk := {[ path := "# a comment
deb http://a focal main
deb http://a focal main
" ]}; undoStack := []; backupDir := "/var/backups/relix"; journal := [] |} in
  exists msg w', deleteRepoClean (noFaults "20240101_000000") e w = Ret ((true, msg), w') /\
    disk w' !! path = Some "# a comment
deb http://a focal main
".
Proof.
  intros path e w.
  destruct (delete_oneline_first_match (noFaults "20240101_000000") e w
              ["# a comment"] ["deb http://a focal main"]) as [_ H].
  - reflexivity.
  - vm_compute. reflexivity.
  - vm_compute. intros Hin. inversion Hin as [|? ? ? Hin']; inversion Hin'.
  - exact (H eq_refl).
Defined.

(** ** The undo stack *)

Lemma pushed_length st path lines :
  (length st <= k_maxUndo)%nat -> (length (pushed st path lines) <= k_maxUndo)%nat.
Proof.
  intros Hst. unfold pushed, k_maxUndo in *. rewrite length_app. cbn [length].
  destruct (decide _); rewrite ?length_drop; lia.
Qed.

(** What a mutation does to the stack: nothing, or one [pushUndo]. *)
Lemma mutation_stack flt af m w r w1 :
  runMutation flt af m w = Ret (r, w1) ->
  undoStack w1 = undoStack w \/
  undoStack w1 = pushed (undoStack w) (target m) (linesOf (disk w) (target m)).
Proof.
  intros Hrun.
  assert (forall out,
            commitLines flt (target m) out
              (after [OpRead (target m)] (undoStack w) w) = Ret (r, w1) ->
            undoStack w1 = pushed (undoStack w) (target m) (linesOf (disk w) (target m)))
    as Hcommit.
  { intros out. rewrite commitLines_eq. by intros [= _ <-]. }
  assert (forall (msg : string) w0,
            Ret ((false, msg), w0) = Ret (r, w1) -> undoStack w0 = undoStack w ->
            undoStack w1 = undoStack w) as Hearly.
  { by intros msg w0 [= _ <-]. }
  destruct m as [repo|repo|newLine dest0]; cbn [runMutation target] in *.
  - unfold toggle in Hrun. destruct (isDeb822 repo).
    + rewrite toggleDeb822_eq in Hrun.
      destruct (toggledBlockLines _ _);
        [right; exact (Hcommit _ Hrun)|left; exact (Hearly _ _ Hrun eq_refl)].
    + rewrite toggleList_eq in Hrun.
      destruct (toggleLoop _ _ _) as [[[] out]|e];
        [right; exact (Hcommit _ Hrun)|left; exact (Hearly _ _ Hrun eq_refl)|done].
  - rewrite deleteRepoClean_eq in Hrun. cbn zeta in Hrun. destruct (isDeb822 repo).
    + destruct (deletedBlockLines _ _);
        [right; exact (Hcommit _ Hrun)|left; exact (Hearly _ _ Hrun eq_refl)].
    + destruct (fst (deleteLoop _ _ _));
        [right; exact (Hcommit _ Hrun)|left; exact (Hearly _ _ Hrun eq_refl)].
  - destruct (empty newLine) eqn:Hne.
    { unfold addRepo, bind, ret in Hrun. rewrite Hne in Hrun. left.
      by injection Hrun as _ <-. }
    destruct (startsWith "deb" newLine) eqn:Hdeb.
    2:{ unfold addRepo, bind, ret in Hrun. rewrite Hne, Hdeb in Hrun. left.
        by injection Hrun as _ <-. }
    rewrite (bind_ret_l _ _ _ _ _ (addRepo_eq flt af newLine dest0 w Hne Hdeb)) in Hrun.
    unfold ret in Hrun. right. by injection Hrun as _ <-.
Qed.

(** X10. The undo stack never holds more than [k_maxUndo] = 20 snapshots:
    a mutation (toggle, delete, add) and an undo each take a stack within
    the bound to a stack within the bound. A mutation that finds the stack
    full drops the oldest snapshot and puts its own on top. *)
Theorem undoStack_bounded :
  (forall flt af m w r w1,
     runMutation flt af m w = Ret (r, w1) ->
     (length (undoStack w) <= k_maxUndo)%nat ->
     (length (undoStack w1) <= k_maxUndo)%nat /\
     (rejected (snd r) = false -> length (undoStack w) = k_maxUndo ->
      undoStack w1 = drop 1 (undoStack w) ++
        [ {| ufile := target m; ulines := linesOf (disk w) (target m) |} ])) /\
  (forall flt errMsg w r w1,
     applyUndo flt errMsg w = Ret (r, w1) ->
     (length (undoStack w1) <= length (undoStack w))%nat).
Proof.
  split.
  - intros flt af m w r w1 Hrun Hlen. split.
    + destruct (mutation_stack _ _ _ _ _ _ Hrun) as [->| ->]; [done|by apply pushed_length].
    + intros Hrej Hfull. rewrite (mutation_snapshot _ _ _ _ _ _ Hrun Hrej).
      unfold pushed. by rewrite decide_True by lia.
  - intros flt errMsg w r w1. destruct (last (undoStack w)) as [u|] eqn:Hlast.
    + rewrite (applyUndo_top _ _ _ _ Hlast). intros [= _ <-]. cbn [undoStack after].
      destruct (writeOk flt); [|done].
      rewrite removelast_firstn_len, length_take. lia.
    + apply last_None in Hlast. rewrite (applyUndo_empty _ _ _ Hlast). by intros [= _ <-].
Qed.

Lemma undoStack_bounded_witness :
  let path := "/etc/apt/sources.list" in
  let e := {| file := path; display := "deb http://a focal main";
              enabled := true; isDeb822 := false; blockIndex := (-1)%Z;
              uri := "http://a"; suite := "focal"; components := "main";
              types := "deb" |} in
  let old := {| ufile := path; ulines := [] |} in
  let w := {| disk := {[ path := "deb http://a focal main
" ]}; undoStack := replicate 20 old; backupDir := "/var/backups/relix";
              journal := [] |} in
  exists w1, runMutation (noFaults "20240101_000000") (mkAppendFaults true None)
               (MToggle e) w = Ret ((true, EmptyString), w1) /\
    (length (undoStack w1) <= 20)%nat.
Proof.
  intros path e old w.
  assert (exists w1, runMutation (noFaults "20240101_000000") (mkAppendFaults true None)
                       (MToggle e) w = Ret ((true, EmptyString), w1)) as [w1 Hrun].
  { eexists. vm_compute. reflexivity. }
  exists w1. split; [exact Hrun|].
  apply (proj1 undoStack_bounded _ _ _ _ _ _ Hrun). vm_compute. lia.
Defined.

Lemma last_removelast_pushed st p1 l1 p2 l2 :
  last (removelast (pushed (pushed st p1 l1) p2 l2)) =
  Some {| ufile := p1; ulines := l1 |}.
Proof.
  rewrite removelast_pushed.
  destruct (decide (k_maxUndo <= length (pushed st p1 l1))%nat) as [Hfull|]; [|apply last_pushed].
  unfold pushed in *. rewrite length_app in Hfull. cbn [length] in Hfull.
  rewrite drop_app_le.
  - apply last_snoc.
  - unfold k_maxUndo in Hfull.
    destruct (decide _); rewrite ?length_drop; lia.
Qed.

(** X11. Undo is last-in, first-out across mutations: after two
    mutations that took their snapshots, the first undo rewrites the file
    of the second mutation with its lines from between the two, and the
    second undo rewrites the file of the first mutation with its lines
    from before both (the writes of the two undos succeeding). *)
Theorem undo_is_lifo flt1 af1 m1 flt2 af2 m2 w r1 w1 r2 w2 flt3 flt4 msg3 msg4 :
  runMutation flt1 af1 m1 w = Ret (r1, w1) -> rejected (snd r1) = false ->
  runMutation flt2 af2 m2 w1 = Ret (r2, w2) -> rejected (snd r2) = false ->
  writeOk flt3 = true -> writeOk flt4 = true ->
  exists w3 w4,
    applyUndo flt3 msg3 w2 = Ret ((true, msg3), w3) /\
    disk w3 !! target m2 = Some (unlines (linesOf (disk w1) (target m2))) /\
    applyUndo flt4 msg4 w3 = Ret ((true, msg4), w4) /\
    disk w4 !! target m1 = Some (unlines (linesOf (disk w) (target m1))).
Proof.
  intros Hrun1 Hrej1 Hrun2 Hrej2 Hok3 Hok4.
  pose proof (mutation_snapshot _ _ _ _ _ _ Hrun1 Hrej1) as Hst1.
  pose proof (mutation_snapshot _ _ _ _ _ _ Hrun2 Hrej2) as Hst2.
  rewrite Hst1 in Hst2.
  assert (last (undoStack w2) =
          Some {| ufile := target m2; ulines := linesOf (disk w1) (target m2) |}) as Hl2.
  { rewrite Hst2. apply last_pushed. }
  rewrite (applyUndo_top _ _ _ _ Hl2), Hok3, (writeResult_msg_ok _ _ Hok3).
  eexists _, _. split; [reflexivity|]. cbn [ufile ulines].
  split; [cbn [disk after]; by rewrite writeOps_final, Hok3|].
  set (w3 := after _ _ w2).
  assert (last (undoStack w3) =
          Some {| ufile := target m1; ulines := linesOf (disk w) (target m1) |}) as Hl3.
  { unfold w3. cbn [undoStack after]. rewrite Hst2. apply last_removelast_pushed. }
  rewrite (applyUndo_top _ _ _ _ Hl3), Hok4, (writeResult_msg_ok _ _ Hok4).
  split; [reflexivity|]. cbn [disk after ufile ulines]. by rewrite writeOps_final, Hok4.
Qed.

Lemma undo_is_lifo_witness :
  let path := "/etc/apt/sources.list" in
  let a := {| file := path; display := "deb http://a focal main";
              enabled := true; isDeb822 := false; blockIndex := (-1)%Z;
              uri := "http://a"; suite := "focal"; components := "main";
              types := "deb" |} in
  let b := {| file := path; display := "deb http://b focal main";
              enabled := true; isDeb822 := false; blockIndex := (-1)%Z;
              uri := "http://b"; suite := "focal"; components := "main";
              types := "deb" |} in
  let w := {| disk := {[ path := "deb http://a focal main
deb http://b focal main
" ]}; undoStack := []; backupDir := "/var/backups/relix"; journal := [] |} in
  let flt := noFaults "20240101_000000" in
  let af := mkAppendFaults true None in
  exists w1 w2 w3 w4,
    runMutation flt af (MDelete a) w = Ret ((true, EmptyString), w1) /\
    runMutation flt af (MToggle b) w1 = Ret ((true, EmptyString), w2) /\
    applyUndo flt EmptyString w2 = Ret ((true, EmptyString), w3) /\
    disk w3 !! path = Some "deb http://b focal main
" /\
    applyUndo flt EmptyString w3 = Ret ((true, EmptyString), w4) /\
    disk w4 !! path = Some "deb http://a focal main
deb http://b focal main
".
Proof.
  intros path a b w flt af.
  assert (exists w1 w2,
            runMutation flt af (MDelete a) w = Ret ((true, EmptyString), w1) /\
            runMutation flt af (MToggle b) w1 = Ret ((true, EmptyString), w2) /\
            disk w1 !! path = Some "deb http://b focal main
") as (w1 & w2 & Hrun1 & Hrun2 & Hd1).
  { eexists _, _. split; [vm_compute; reflexivity|].
    split; vm_compute; reflexivity. }
  destruct (undo_is_lifo flt af (MDelete a) flt af (MToggle b) w _ w1 _ w2 flt flt
              EmptyString EmptyString Hrun1 eq_refl Hrun2 eq_refl eq_refl eq_refl)
    as (w3 & w4 & Hu3 & Hd3 & Hu4 & Hd4).
  exists w1, w2, w3, w4. split; [exact Hrun1|]. split; [exact Hrun2|].
  split; [exact Hu3|]. split.
  - refine (eq_trans Hd3 _). unfold linesOf. change (target (MToggle b)) with path.
    rewrite Hd1. vm_compute. reflexivity.
  - split; [exact Hu4|]. refine (eq_trans Hd4 _). vm_compute. reflexivity.
Defined.

(** ** The atomic write *)

(** X12. What [atomicWriteLines] writes, [readAllLines] reads back: after
    a successful write of lines that hold no line feed, the file reads as
    exactly these lines. *)
Theorem write_then_read flt path lines errMsg w r w1 :
  atomicWriteLines flt path lines errMsg w = Ret (r, w1) -> fst r = true ->
  Forall (fun l => hasNewline l = false) lines ->
  exists w2, readAllLines path w1 = Ret (lines, w2) /\ disk w2 = disk w1.
Proof.
  rewrite atomicWriteLines_eq. intros [= <- <-] Hok Hnl.
  rewrite writeResult_ok in Hok. rewrite readAllLines_eq.
  eexists. split.
  - cbn [disk after]. by rewrite writeOps_final, Hok, getlines_unlines.
  - reflexivity.
Qed.

Lemma write_then_read_witness :
  let path := "/etc/apt/sources.list" in
  let w := {| disk := ∅; undoStack := []; backupDir := "/var/backups/relix";
              journal := [] |} in
  let lines := ["deb http://a focal main"; ""; "# note"] in
  exists w1 w2,
    atomicWriteLines (noFaults "20240101_000000") path lines EmptyString w
      = Ret ((true, EmptyString), w1) /\
    readAllLines path w1 = Ret (lines, w2).
Proof.
  intros path w lines.
  assert (exists w1, atomicWriteLines (noFaults "20240101_000000") path lines EmptyString w
                     = Ret ((true, EmptyString), w1)) as [w1 Hw].
  { eexists. rewrite atomicWriteLines_eq. reflexivity. }
  destruct (write_then_read _ _ _ _ _ _ _ Hw eq_refl) as (w2 & Hr & _).
  - repeat constructor.
  - by exists w1, w2.
Defined.

(** X13. [atomicWriteLines] touches two paths only, the target and its
    sibling [.relix.tmp]. The target changes only on success. The
    temporary file is gone after a success and after a failed rename, is
    left behind with the bytes written so far after a write error, and is
    not touched when it could not be opened. *)
Theorem atomicWriteLines_footprint flt path lines errMsg w :
  exists r w1,
    atomicWriteLines flt path lines errMsg w = Ret (r, w1) /\
    undoStack w1 = undoStack w /\
    (forall p, p <> path -> p <> tmpPath path -> disk w1 !! p = disk w !! p) /\
    disk w1 !! path = (if fst r then Some (unlines lines) else disk w !! path) /\
    disk w1 !! tmpPath path =
      (if tmpOpens flt then
         match written flt with
         | Some k => Some (String.substring 0 k (unlines lines))
         | None => None
         end
       else disk w !! tmpPath path).
Proof.
  pose proof (tmpPath_ne path) as Hne.
  rewrite atomicWriteLines_eq. eexists _, _. split; [reflexivity|].
  split; [done|]. cbn [disk after]. split; [|split].
  - intros p Hp Hpt. unfold writeOps.
    destruct (tmpOpens flt); cbn [negb]; [|done].
    destruct (written flt) as [k|]; [|destruct (renameErr flt)]; cbn;
      rewrite ?lookup_insert_eq; cbn;
      rewrite ?lookup_insert_ne, ?lookup_delete_ne, ?lookup_insert_ne by done; done.
  - by rewrite writeOps_final, writeResult_ok.
  - unfold writeOps. destruct (tmpOpens flt); cbn [negb]; [|done].
    destruct (written flt) as [k|]; [|destruct (renameErr flt)]; cbn;
      rewrite ?lookup_insert_eq; cbn;
      rewrite ?lookup_insert_ne, ?lookup_delete_eq, ?lookup_insert_eq by done; done.
Qed.

(** ** Backup *)

(** X14. [backupFile] succeeds exactly when the directory can be made,
    the source exists and the copy goes through; the backup then holds the
    bytes of the source. Succeeding or failing, it changes no path but
    that of the backup, which is not the source, and it leaves the undo
    stack alone. A copy that fails after it has opened the backup leaves
    it there, cut down to the bytes written so far; every other failure
    leaves the disk as it was. *)
Theorem backupFile_effect flt src w :
  exists r w1,
    backupFile flt src w = Ret (r, w1) /\
    undoStack w1 = undoStack w /\
    (fst r = true <->
     mkdirErr flt = None /\ is_Some (disk w !! src) /\ copyErr flt = None) /\
    let dest := backupDest (backupDir w) src (stamp flt) in
    dest <> src /\
    (forall p, p <> dest -> disk w1 !! p = disk w !! p) /\
    (fst r = true -> disk w1 !! dest = disk w !! src) /\
    (fst r = false ->
     match mkdirErr flt, disk w !! src, copyErr flt with
     | None, Some c, Some (_, Some k) =>
         disk w1 !! dest = Some (String.substring 0 k c)
     | _, _, _ => disk w1 = disk w
     end).
Proof.
  rewrite backupFile_eq. eexists _, _. split; [reflexivity|]. split; [done|].
  unfold backupResult, backupOps. cbn [disk after].
  split; [|split; [apply backupDest_ne|]].
  - destruct (mkdirErr flt), (disk w !! src), (copyErr flt) as [[e' k']|]; cbn;
      split; try done; try (by intros (? & ? & ?)); try (by intros (? & [] & ?));
      intros _; repeat split; eauto.
  - destruct (mkdirErr flt); [by repeat split|].
    destruct (disk w !! src) as [c|] eqn:Hs;
      [destruct (copyErr flt) as [[e' [k|]]|]|]; cbn; rewrite ?Hs.
    + split; [|split; [done|]].
      * intros p Hp. by rewrite !lookup_insert_ne.
      * intros _. by rewrite lookup_insert_eq, lookup_insert_eq.
    + by repeat split.
    + split; [|split; [|done]].
      * intros p Hp. by rewrite lookup_insert_ne.
      * intros _. by rewrite lookup_insert_eq.
    + by repeat split.
Qed.

(** X15. A failed backup does not stop a toggle or a delete: when the
    target is found and the write goes through, the operation reports
    success whatever happened to the backup, the message being empty after
    a good backup and the warning [[warn] backup skipped: ...] with the
    reason after a failed one, and the file then holds the lines that the
    operation computed from the lines it read, each with a line feed. *)
Theorem backup_failure_is_a_warning op flt e w ok msg w' :
  runLookup op flt e w = Ret ((ok, msg), w') ->
  isNotFound msg = false -> writeOk flt = true ->
  let b := backupResult flt (disk w) (file e) in
  ok = true /\
  msg = (if fst b then EmptyString else "[warn] backup skipped: " +:+ snd b) /\
  exists out,
    outLines op e (linesOf (disk w) (file e)) = Some out /\
    disk w' !! file e = Some (unlines out).
Proof.
  intros Hrun Hnf Hok b.
  assert (forall out,
            outLines op e (linesOf (disk w) (file e)) = Some out ->
            commitLines flt (file e) out (after [OpRead (file e)] (undoStack w) w)
            = Ret ((ok, msg), w') ->
            ok = true /\
            msg = (if fst b then EmptyString else "[warn] backup skipped: " +:+ snd b) /\
            exists out,
              outLines op e (linesOf (disk w) (file e)) = Some out /\
              disk w' !! file e = Some (unlines out)) as Hcommit.
  { intros out Hout. rewrite commitLines_eq. unfold commitResult.
    rewrite (writeResult_msg_ok _ _ Hok). intros [= <- <- <-].
    split; [done|]. split; [done|]. exists out. split; [exact Hout|]. cbn [disk after].
    pose proof (commitOps_final flt (after [OpRead (file e)] (undoStack w) w) (file e) out) as Hf.
    by rewrite Hok in Hf. }
  assert (forall (m : string) w0, isNotFound m = true ->
            Ret ((false, m), w0) = Ret ((ok, msg), w') -> False) as Hearly.
  { intros m w0 Hm [= _ <- _]. congruence. }
  destruct op; cbn [runLookup] in Hrun; unfold outLines in Hcommit |- *.
  - unfold toggle in Hrun. destruct (isDeb822 e).
    + rewrite toggleDeb822_eq in Hrun.
      destruct (toggledBlockLines _ _) as [out|];
        [by apply (Hcommit out)|by eapply Hearly in Hrun].
    + rewrite toggleList_eq in Hrun.
      destruct (toggleLoop _ _ _) as [[[] out]|x];
        [by apply (Hcommit out)|by eapply Hearly in Hrun|done].
  - rewrite deleteRepoClean_eq in Hrun. cbn zeta in Hrun. destruct (isDeb822 e).
    + destruct (deletedBlockLines _ _) as [out|];
        [by apply (Hcommit out)|by eapply Hearly in Hrun].
    + destruct (fst (deleteLoop _ _ _));
        [by apply (Hcommit _ eq_refl)|by eapply Hearly in Hrun].
Qed.

Lemma backup_failure_is_a_warning_witness :
  let path := "/etc/apt/sources.list" in
  let e := {| file := path; display := "deb http://a focal main";
              enabled := true; isDeb822 := false; blockIndex := (-1)%Z;
              uri := "http://a"; suite := "focal"; components := "main";
              types := "deb" |} in
  let w := {| disk := {[ path := "deb http://a focal main
deb http://b focal main
" ]}; undoStack := []; backupDir := "/var/backups/relix"; journal := [] |} in
  let flt := {| mkdirErr := Some "Permission denied"; stamp := "20240101_000000";
                copyErr := None; tmpOpens := true; written := None;
                renameErr := None |} in
  exists w',
    runLookup LToggle flt e w =
      Ret ((true, "[warn] backup skipped: Cannot create backup dir: Permission denied"), w') /\
    disk w' !! path = Some "# deb http://a focal main
deb http://b focal main
".
Proof.
  intros path e w flt.
  assert (exists w', runLookup LToggle flt e w =
            Ret ((true, "[warn] backup skipped: Cannot create backup dir: Permission denied"), w'))
    as [w' Hrun].
  { eexists. vm_compute. reflexivity. }
  exists w'. split; [exact Hrun|].
  destruct (backup_failure_is_a_warning LToggle flt e w _ _ w' Hrun eq_refl eq_refl)
    as (_ & _ & out & Hout & Hd).
  refine (eq_trans Hd _). f_equal.
  assert (Some out = Some ["# deb http://a focal main"; "deb http://b focal main"]) as Heq.
  { rewrite <- Hout. vm_compute. reflexivity. }
  injection Heq as ->. reflexivity.
Defined.

(** ** Add *)

Lemma trimStr_deb s :
  startsWith "deb" s = true -> startsWith "deb" (trimStr s) = true.
Proof.
  intros [r ->]%prefix_shape.
  change ("deb" +:+ r) with (String "d" (String "e" (String "b" r))).
  rewrite trimStr_cons_nonws by reflexivity.
  rewrite rtrim_cons. destruct (find_last_not_of (String "b" r)) as [i|] eqn:Hb.
  2:{ cbn in Hb. by destruct (find_last_not_of r). }
  rewrite rtrim_cons.
  destruct (find_last_not_of r); cbn [isTrimWs]; apply (prefix_app "deb").
Qed.

Lemma unlines_app a b : unlines (a ++ b) = unlines a +:+ unlines b.
Proof.
  induction a as [|l a IH]; [done|].
  cbn [app unlines fold_right]. fold (unlines (a ++ b)). fold (unlines a).
  by rewrite IH, str_app_assoc, str_app_cons.
Qed.

Lemma getlines_unlines_app ls rest :
  Forall (fun l => hasNewline l = false) ls ->
  getlines EmptyString (unlines ls +:+ rest) = ls ++ getlines EmptyString rest.
Proof.
  induction 1 as [|l ls Hl _ IH]; [done|].
  cbn [unlines fold_right]. fold (unlines ls).
  rewrite str_app_assoc, str_app_cons, getlines_line by done.
  by rewrite IH.
Qed.

Lemma getlines_open cur s :
  hasNewline s = false ->
  getlines cur s = if empty (cur +:+ s) then [] else [cur +:+ s].
Proof.
  revert cur. induction s as [|c s IH]; intros cur Hs.
  - cbn [getlines]. by rewrite str_app_nil_r.
  - cbn [hasNewline] in Hs. apply orb_false_iff in Hs as [Hc Hs].
    cbn [getlines]. rewrite Hc, IH by done.
    by rewrite str_app_assoc, str_app_cons.
Qed.

Lemma addOps_final flt af w newLine dest :
  appOpens af = true ->
  runOps (addOps flt af w newLine dest) (disk w) !! dest =
  Some (default EmptyString (disk w !! dest) +:+ appended af newLine).
Proof.
  intros Hopen. unfold addOps. rewrite Hopen.
  change (OpRead dest :: ?l) with ([OpRead dest] ++ l). rewrite !runOps_app.
  set (d := runOps (backupOps _ _ _ _) _).
  assert (d !! dest = disk w !! dest) as Hd.
  { apply (backupOps_keep flt (backupDir w) (disk w) dest). apply trace_last. }
  unfold runOps. cbn [foldl applyOp]. rewrite !lookup_insert_eq. cbn [default].
  by rewrite Hd, str_app_nil_r.
Qed.

(** X16. Adding a line and loading again shows the line as a new, active
    entry at the end of its file: for a typed line that starts with [deb],
    and a target file that is missing or ends with a line feed, the file
    afterwards is its old bytes followed by the line and a line feed, and
    parsing it gives the entries from before followed by one active entry
    whose text is the typed line. *)
Theorem add_then_load flt af newLine dest0 w :
  startsWith "deb" newLine = true -> hasNewline newLine = false ->
  appOpens af = true -> appWritten af = None ->
  let dest := if empty dest0 then mainList else dest0 in
  let old := default EmptyString (disk w !! dest) in
  newlineTerminated old = true ->
  exists w' e,
    addRepo flt af newLine dest0 w = Ret (("Repository added to " +:+ dest, false), w') /\
    disk w' !! dest = Some (old +:+ newLine +:+ String "010" EmptyString) /\
    display e = newLine /\ enabled e = true /\ file e = dest /\
    parseListFile dest (linesOf (disk w') dest) =
      parseListFile dest (linesOf (disk w) dest) ++ [e].
Proof.
  intros Hdeb Hnl Hopen Hwr dest old Hold.
  assert (empty newLine = false) as Hne by (by destruct newLine).
  pose proof (addRepo_eq flt af newLine dest0 w Hne Hdeb) as Hadd. cbn zeta in Hadd.
  fold dest in Hadd. rewrite Hadd. unfold addResult. rewrite Hopen, Hwr.
  destruct (startsWith_deb_cons _ (trimStr_deb _ Hdeb)) as [r Hr].
  destruct (parseListLine_some dest newLine "d" r Hr) as (e & He & Hdisp & Hen).
  { unfold qualifies. by rewrite <- Hr, trimStr_deb. }
  exists (after (addOps flt af w newLine dest)
                (pushed (undoStack w) dest (linesOf (disk w) dest)) w), e.
  assert (disk (after (addOps flt af w newLine dest)
                      (pushed (undoStack w) dest (linesOf (disk w) dest)) w) !! dest
          = Some (old +:+ newLine +:+ String "010" EmptyString)) as Hdisk.
  { cbn [disk after]. rewrite addOps_final by done. unfold appended. by rewrite Hwr. }
  split; [reflexivity|]. split; [exact Hdisk|]. split; [exact Hdisp|].
  split; [exact Hen|]. split.
  { apply parseListLine_inv in He. apply He. }
  unfold linesOf at 1. rewrite Hdisk.
  assert (linesOf (disk w) dest = getlines EmptyString old) as ->.
  { unfold linesOf, old. by destruct (disk w !! dest). }
  rewrite <- (unlines_getlines old Hold) at 1.
  change (newLine +:+ String "010" EmptyString) with (unlines [newLine]).
  rewrite <- unlines_app, getlines_unlines.
  - unfold parseListFile. rewrite omap_app. cbn [omap list_omap]. by rewrite He.
  - apply Forall_app. split; [by apply getlines_no_newline|by constructor].
Qed.

Lemma add_then_load_witness :
  let w := {| disk := {[ mainList := "# deb http://a focal main
" ]}; undoStack := []; backupDir := "/var/backups/relix"; journal := [] |} in
  exists w' e,
    addRepo (noFaults "20240101_000000") (mkAppendFaults true None)
            "deb http://b focal main" EmptyString w
      = Ret (("Repository added to /etc/apt/sources.list", false), w') /\
    disk w' !! mainList = Some "# deb http://a focal main
deb http://b focal main
" /\
    display e = "deb http://b focal main" /\ enabled e = true.
Proof.
  intros w.
  destruct (add_then_load (noFaults "20240101_000000") (mkAppendFaults true None)
              "deb http://b focal main" EmptyString w)
    as (w' & e & Hrun & Hdisk & Hdisp & Hen & _); try reflexivity.
  exists w', e. split; [exact Hrun|]. split; [exact Hdisk|]. by split.
Defined.

(** X17. Add does not start a new line: when the target file does not
    end with a line feed, the typed line is glued to the last line of the
    file, so the file has as many lines as before and the typed line is
    none of them on its own. *)
Theorem add_glues_to_an_open_line flt af newLine dest0 w ls tail :
  startsWith "deb" newLine = true -> hasNewline newLine = false ->
  appOpens af = true -> appWritten af = None ->
  let dest := if empty dest0 then mainList else dest0 in
  disk w !! dest = Some (unlines ls +:+ tail) ->
  Forall (fun l => hasNewline l = false) ls ->
  hasNewline tail = false -> empty tail = false ->
  exists r w',
    addRepo flt af newLine dest0 w = Ret (r, w') /\
    linesOf (disk w) dest = ls ++ [tail] /\
    linesOf (disk w') dest = ls ++ [tail +:+ newLine].
Proof.
  intros Hdeb Hnl Hopen Hwr dest Hold Hls Htail Hne.
  assert (empty newLine = false) as Hnew by (by destruct newLine).
  pose proof (addRepo_eq flt af newLine dest0 w Hnew Hdeb) as Hadd. cbn zeta in Hadd.
  fold dest in Hadd. rewrite Hadd. eexists _, _. split; [reflexivity|].
  unfold linesOf. cbn [disk after]. rewrite addOps_final, Hold by done.
  unfold appended. rewrite Hwr. cbn [default from_option id]. split.
  - rewrite getlines_unlines_app, getlines_open by done.
    rewrite str_app_nil_l. by rewrite Hne.
  - rewrite str_app_assoc, getlines_unlines_app by done.
    rewrite <- str_app_assoc, getlines_line, str_app_nil_l by (by rewrite hasNewline_app, Htail).
    done.
Qed.

Lemma add_glues_to_an_open_line_witness :
  let w := {| disk := {[ mainList := "deb http://a focal main
# end" ]}; undoStack := []; backupDir := "/var/backups/relix"; journal := [] |} in
  exists r w',
    addRepo (noFaults "20240101_000000") (mkAppendFaults true None)
            "deb http://b focal main" EmptyString w = Ret (r, w') /\
    linesOf (disk w') mainList =
      ["deb http://a focal main"; "# enddeb http://b focal main"].
Proof.
  intros w.
  destruct (add_glues_to_an_open_line (noFaults "20240101_000000")
              (mkAppendFaults true None) "deb http://b focal main" EmptyString w
              ["deb http://a focal main"] "# end")
    as (r & w' & Hrun & _ & Hl); try reflexivity.
  - by repeat constructor.
  - by exists r, w'.
Defined.

(** ** Import *)

Lemma importable_skipped existing t :
  empty t || Ascii.eqb (at_ t 0) "#" = true -> importable existing t = false.
Proof.
  unfold importable, startsWith. destruct t as [|c r]; [done|].
  cbn [empty orb]. rewrite at_0_cons. intros ->%ascii_eqb_true.
  change "deb" with (String "d" "eb"). rewrite prefix_cons.
  by destruct (ascii_dec "d" "#").
Qed.

Lemma streamWrite_eq p data left w :
  streamWrite p data left w =
    Ret (leftAfter left data, after [OpAppend p (reached left data)] (undoStack w) w).
Proof. by destruct left. Qed.

Lemma importLoop_spec existing lines added left w n w' :
  importLoop existing lines added left w = Ret (n, w') ->
  let ts := importedLines existing lines in
  w' = after (streamOps mainList left (map (fun t => t +:+ String "010" EmptyString) ts))
             (undoStack w) w /\
  n = (added + length ts)%nat.
Proof.
  unfold importedLines.
  revert added left w. induction lines as [|line rest IH]; intros added left w;
    cbn [importLoop].
  - intros [= <- <-]. cbn. by rewrite after_nil, Nat.add_0_r.
  - cbn [map List.filter].
    destruct (empty (trimStr line) || Ascii.eqb (at_ (trimStr line) 0) "#") eqn:Hskip.
    { rewrite importable_skipped by done. apply IH. }
    destruct (startsWith "deb" (trimStr line)) eqn:Hdeb; cbn [negb].
    2:{ assert (importable existing (trimStr line) = false) as ->
          by (unfold importable; by rewrite Hdeb).
        apply IH. }
    unfold bind at 1, lift. destruct (isDup _ _) as [[]|e] eqn:Hdup; [| |done].
    { assert (importable existing (trimStr line) = false) as ->
        by (unfold importable; by rewrite Hdeb, Hdup).
      apply IH. }
    assert (importable existing (trimStr line) = true) as ->
      by (unfold importable; by rewrite Hdeb, Hdup).
    rewrite (bind_ret_l _ _ _ _ _ (streamWrite_eq _ _ _ _)).
    intros Hrun. apply IH in Hrun as [-> ->].
    cbn [map length undoStack after streamOps]. rewrite after_after. split; [done|lia].
Qed.

Lemma substring_0_app k a b :
  String.substring 0 k (a +:+ b) =
    String.substring 0 k a +:+ String.substring 0 (k - String.length a) b.
Proof.
  revert k. induction a as [|c a IH]; intros k.
  - rewrite str_app_nil_l. cbn [String.length]. rewrite Nat.sub_0_r.
    by destruct k.
  - rewrite str_app_cons. destruct k as [|k]; [by destruct b|].
    cbn [String.substring String.length]. rewrite IH. by rewrite str_app_cons.
Qed.

Lemma reached_app left a b :
  reached left (a +:+ b) = reached left a +:+ reached (leftAfter left a) b.
Proof. destruct left as [k|]; [apply substring_0_app|done]. Qed.

Lemma runOps_stream p left datas d c :
  d !! p = Some c ->
  runOps (streamOps p left datas) d !! p =
    Some (c +:+ reached left (fold_right String.append EmptyString datas)) /\
  forall q, q <> p -> runOps (streamOps p left datas) d !! q = d !! q.
Proof.
  revert left d c. induction datas as [|x datas IH]; intros left d c Hc.
  - cbn. assert (reached left EmptyString = EmptyString) as ->
      by (destruct left as [[|k]|]; done).
    by rewrite str_app_nil_r.
  - cbn [streamOps].
    change (OpAppend p (reached left x) :: ?l) with ([OpAppend p (reached left x)] ++ l).
    rewrite runOps_app.
    change (runOps [OpAppend p (reached left x)] d)
      with (<[p := default EmptyString (d !! p) +:+ reached left x]> d).
    rewrite Hc. cbn [default from_option id].
    destruct (IH (leftAfter left x) (<[p := c +:+ reached left x]> d) (c +:+ reached left x))
      as [Hp Hq]; [by rewrite lookup_insert_eq|].
    split.
    + rewrite Hp. cbn [fold_right]. by rewrite reached_app, str_app_assoc.
    + intros q Hne. rewrite Hq by done. by rewrite lookup_insert_ne.
Qed.

Lemma concat_terminated ts :
  fold_right String.append EmptyString
    (map (fun t => t +:+ String "010" EmptyString) ts) = unlines ts.
Proof.
  induction ts as [|t ts IH]; [done|].
  cbn [map fold_right]. fold (unlines ts). rewrite IH.
  by rewrite str_app_assoc, str_app_cons, str_app_nil_l.
Qed.

Lemma isDup_throws t existing e :
  isDup t existing = Throw e <-> existing <> [] /\ substrFrom t 4 = None /\ e = "std::out_of_range".
Proof.
  induction existing as [|ex rest IH]; cbn [isDup]; [by split; [|intros []]|].
  destruct (substrFrom t 4) as [key|] eqn:Hkey.
  - destruct (contains _ _); [by split; [|intros (_ & ? & _)]|].
    rewrite IH. by split; intros (_ & ? & _).
  - split; [by intros [= <-]|by intros (_ & _ & ->)].
Qed.

Lemma substrFrom_deb t :
  startsWith "deb" t = true -> substrFrom t 4 = None <-> t = "deb".
Proof.
  intros [r ->]%prefix_shape.
  change ("deb" +:+ r) with (String "d" (String "e" (String "b" r))).
  cbn [substrFrom]. destruct r; [done|]. by split.
Qed.

Lemma importLoop_throws existing lines added left w :
  (exists e, importLoop existing lines added left w = Throw e) <->
  existing <> [] /\ exists line, line ∈ lines /\ trimStr line = "deb".
Proof.
  revert added left w. induction lines as [|line rest IH]; intros added left w;
    cbn [importLoop].
  - split; [by intros [e ?]|]. intros (_ & line & Hin & _). by apply elem_of_nil in Hin.
  - assert (forall added left w,
              trimStr line <> "deb" \/ existing = [] ->
              (exists e, importLoop existing rest added left w = Throw e) <->
              existing <> [] /\ exists l, l ∈ line :: rest /\ trimStr l = "deb") as Hnext.
    { intros added' left' w0 Hline. rewrite IH. split.
      - intros (Hex & l & Hin & Hl). split; [done|]. exists l. split; [by right|done].
      - intros (Hex & l & [->|Hin]%elem_of_cons & Hl); [by destruct Hline|].
        split; [done|]. by exists l. }
    destruct (empty (trimStr line) || Ascii.eqb (at_ (trimStr line) 0) "#") eqn:Hskip.
    { apply Hnext. left. intros Heq. by rewrite Heq in Hskip. }
    destruct (startsWith "deb" (trimStr line)) eqn:Hdeb; cbn [negb].
    2:{ apply Hnext. left. intros Heq. rewrite Heq in Hdeb.
        by rewrite (prefix_app "deb" EmptyString : startsWith "deb" "deb" = true) in Hdeb. }
    unfold bind at 1, lift. destruct (isDup _ _) as [b|e] eqn:Hdup.
    + assert (trimStr line <> "deb" \/ existing = []) as Hline.
      { destruct existing as [|ex ex']; [by right|]. left.
        rewrite <- (substrFrom_deb _ Hdeb). intros Hnone.
        assert (isDup (trimStr line) (ex :: ex') = Throw "std::out_of_range") as Hthrow
          by (by apply isDup_throws).
        congruence. }
      destruct b; [by apply Hnext|].
      rewrite (bind_ret_l _ _ _ _ _ (streamWrite_eq _ _ _ _)). by apply Hnext.
    + apply isDup_throws in Hdup as (Hex & Hnone & _).
      split; [|by eauto]. intros _. split; [done|].
      exists line. split; [by left|by apply substrFrom_deb].
Qed.

(** The disk after the system calls of an import that got to its loop. *)
Lemma importOps_final path left ts d :
  let ops := [OpRead path; OpAppend mainList EmptyString] ++
             streamOps mainList left (map (fun t => t +:+ String "010" EmptyString) ts) in
  runOps ops d !! mainList =
    Some (default EmptyString (d !! mainList) +:+ reached left (unlines ts)) /\
  forall q, q <> mainList -> runOps ops d !! q = d !! q.
Proof.
  cbn zeta. rewrite runOps_app.
  change (runOps [OpRead path; OpAppend mainList EmptyString] d)
    with (<[mainList := default EmptyString (d !! mainList) +:+ EmptyString]> d).
  rewrite str_app_nil_r. set (c := default EmptyString (d !! mainList)).
  destruct (runOps_stream mainList left
              (map (fun t => t +:+ String "010" EmptyString) ts)
              (<[mainList := c]> d) c) as [Hp Hq]; [by rewrite lookup_insert_eq|].
  split.
  - by rewrite Hp, concat_terminated.
  - intros q Hne. rewrite Hq by done. by rewrite lookup_insert_ne.
Qed.

(** An import whose two files open either throws or reports success, with
    the system calls of its loop behind it. *)
Lemma importRepos_open g_repos af path w bytes :
  disk w !! path = Some bytes -> appOpens af = true ->
  let ts := importedLines (map (fun r => trimStr (display r)) g_repos)
              (getlines EmptyString bytes) in
  ((exists e, importRepos g_repos af path w = Throw e) /\
   exists line, line ∈ getlines EmptyString bytes /\ trimStr line = "deb") \/
  importRepos g_repos af path w =
    Ret ((true, if decide (length ts = 0%nat) then "No new repos found to import."
                else pretty (length ts) +:+ " repo(s) imported."),
         after ([OpRead path; OpAppend mainList EmptyString] ++
                streamOps mainList (appWritten af)
                  (map (fun t => t +:+ String "010" EmptyString) ts))
               (undoStack w) w).
Proof.
  intros Hpath Hopen ts.
  destruct (importRepos g_repos af path w) as [[[ok msg] w']|e] eqn:Hrun;
    [right|left; split; [by exists e|]].
  2:{ unfold importRepos in Hrun. rewrite bind_sys in Hrun.
      unfold bind at 1, getDisk in Hrun. cbn [disk after runOps foldl applyOp] in Hrun.
      rewrite Hpath, Hopen in Hrun. cbn [negb] in Hrun. rewrite bind_sys in Hrun.
      unfold bind at 1 in Hrun.
      destruct (importLoop _ _ _ _ _) as [[n w1]|e'] eqn:Hloop.
      { by destruct (decide (n = 0%nat)). }
      by destruct (proj1 (importLoop_throws _ _ _ _ _) (ex_intro _ e' Hloop)) as (_ & Hl). }
  unfold importRepos in Hrun. rewrite bind_sys in Hrun.
  unfold bind at 1, getDisk in Hrun. cbn [disk after runOps foldl applyOp] in Hrun.
  rewrite Hpath, Hopen in Hrun. cbn [negb] in Hrun. rewrite bind_sys in Hrun.
  unfold bind at 1 in Hrun.
  destruct (importLoop _ _ _ _ _) as [[n w1]|e] eqn:Hloop; [|done].
  apply importLoop_spec in Hloop as [-> ->]. cbn zeta in Hrun. fold ts in Hrun.
  rewrite !after_after in Hrun. cbn [undoStack after] in Hrun.
  rewrite Nat.add_0_l in Hrun.
  change ([OpRead path] ++ [OpAppend mainList EmptyString])
    with [OpRead path; OpAppend mainList EmptyString] in Hrun.
  destruct (decide (length ts = 0%nat)); by injection Hrun as <- <- <-.
Qed.

(** X18. What an import does, when it returns: it takes no snapshot and
    changes no file but the primary one, to which it only appends. When it
    reports a failure, nothing changed. When it reports success, the lines
    it sent to the primary file are the trimmed lines of the import file
    that start with [deb] and pass the dedup test, in their order, each
    with a line feed, and the message counts them; what the primary file
    gained is what the append stream, whose state is never looked at, let
    through of these bytes: all of them on a stream that stays good, a
    prefix of them otherwise. The import file is not the primary file. *)
Theorem importRepos_appends g_repos af path w ok msg w' :
  importRepos g_repos af path w = Ret ((ok, msg), w') ->
  path <> mainList ->
  undoStack w' = undoStack w /\
  (forall p, p <> mainList -> disk w' !! p = disk w !! p) /\
  (ok = false -> disk w' = disk w) /\
  (ok = true ->
   exists bytes, disk w !! path = Some bytes /\ appOpens af = true /\
     let ts := importedLines (map (fun r => trimStr (display r)) g_repos)
                 (getlines EmptyString bytes) in
     disk w' !! mainList =
       Some (default EmptyString (disk w !! mainList) +:+
             reached (appWritten af) (unlines ts)) /\
     (appWritten af = None ->
      disk w' !! mainList =
        Some (default EmptyString (disk w !! mainList) +:+ unlines ts)) /\
     msg = if decide (length ts = 0%nat) then "No new repos found to import."
           else pretty (length ts) +:+ " repo(s) imported.").
Proof.
  intros Hrun _.
  destruct (disk w !! path) as [bytes|] eqn:Hpath.
  2:{ unfold importRepos in Hrun. rewrite bind_sys in Hrun.
      unfold bind at 1, getDisk in Hrun. cbn [disk after runOps foldl applyOp] in Hrun.
      rewrite Hpath in Hrun. injection Hrun as <- <- <-. by repeat split. }
  destruct (appOpens af) eqn:Hopen.
  2:{ unfold importRepos in Hrun. rewrite bind_sys in Hrun.
      unfold bind at 1, getDisk in Hrun. cbn [disk after runOps foldl applyOp] in Hrun.
      rewrite Hpath, Hopen in Hrun. injection Hrun as <- <- <-. by repeat split. }
  destruct (importRepos_open g_repos af path w bytes Hpath Hopen) as [[[e He] _]|Heq];
    [congruence|].
  rewrite Heq in Hrun. injection Hrun as <- <- <-.
  cbn [undoStack disk after].
  destruct (importOps_final path (appWritten af)
              (importedLines (map (fun r => trimStr (display r)) g_repos)
                 (getlines EmptyString bytes)) (disk w)) as [Hp Hq].
  split; [done|]. split; [exact Hq|]. split; [done|].
  intros _. exists bytes. split; [done|]. split; [done|]. cbn zeta.
  split; [exact Hp|]. split; [|done].
  intros Hw. refine (eq_trans Hp _). by rewrite Hw.
Qed.

Lemma importRepos_appends_witness :
  let loaded := {| file := "/etc/apt/sources.list"; display := "deb http://a focal main";
                   enabled := true; isDeb822 := false; blockIndex := (-1)%Z;
                   uri := "http://a"; suite := "focal"; components := "main";
                   types := "deb" |} in
  let w := {| disk := {[ "/etc/apt/sources.list" := "deb http://a focal main
"; "/root/repos.txt" := "# exported
  deb http://b focal main  
deb http://a focal main
" ]}; undoStack := []; backupDir := "/var/backups/relix"; journal := [] |} in
  exists w',
    importRepos [loaded] (mkAppendFaults true (Some 3%nat)) "/root/repos.txt" w
      = Ret ((true, "1 repo(s) imported."), w') /\
    undoStack w' = [] /\
    disk w' !! "/root/repos.txt" = disk w !! "/root/repos.txt" /\
    disk w' !! "/etc/apt/sources.list" = Some "deb http://a focal main
deb".
Proof.
  intros loaded w.
  assert (exists w', importRepos [loaded] (mkAppendFaults true (Some 3%nat))
                       "/root/repos.txt" w
                     = Ret ((true, "1 repo(s) imported."), w')) as [w' Hrun].
  { eexists. vm_compute. reflexivity. }
  destruct (importRepos_appends _ _ _ _ _ _ _ Hrun) as (Hst & Hframe & _ & Hok); [done|].
  exists w'. split; [exact Hrun|]. split; [exact Hst|]. split; [by apply Hframe|].
  destruct (Hok eq_refl) as (bytes & Hb & _ & Hd & _).
  injection Hb as <-. exact Hd.
Defined.

(** X19. When an import does not return: [importRepos] ends in an
    uncaught [std::out_of_range] exactly when both files open, at least
    one repository is loaded, and some line of the import file is, once
    trimmed, the bare word [deb], whatever the append stream lets
    through. In every other case it returns. The import file is not the
    primary file. *)
Theorem importRepos_throws_iff g_repos af path w :
  path <> mainList ->
  (exists e, importRepos g_repos af path w = Throw e) <->
  appOpens af = true /\ g_repos <> [] /\
  exists bytes line,
    disk w !! path = Some bytes /\ line ∈ getlines EmptyString bytes /\
    trimStr line = "deb".
Proof.
  intros _. unfold importRepos. rewrite bind_sys.
  unfold bind at 1, getDisk. cbn [disk after runOps foldl applyOp].
  destruct (disk w !! path) as [bytes|] eqn:Hpath.
  2:{ split; [by intros [e ?]|by intros (_ & _ & ? & ? & ? & _)]. }
  cbn zeta. destruct (appOpens af); cbn [negb].
  2:{ split; [by intros [e ?]|by intros (? & _)]. }
  rewrite bind_sys. unfold bind at 1.
  set (existing := map _ g_repos).
  assert (existing <> [] <-> g_repos <> []) as Hex.
  { unfold existing. by destruct g_repos. }
  split.
  - intros [e He].
    destruct (importLoop _ _ _ _ _) as [[n w1]|e'] eqn:Hloop.
    { by destruct (decide (n = 0%nat)). }
    destruct (proj1 (importLoop_throws _ _ _ _ _) (ex_intro _ e' Hloop))
      as (Hne & line & Hin & Hl).
    split; [done|]. split; [by apply Hex|]. by exists bytes, line.
  - intros (_ & Hne & bytes' & line & [= <-] & Hin & Hl).
    destruct (proj2 (importLoop_throws existing (getlines EmptyString bytes) 0%nat
                       (appWritten af)
                       (after [OpAppend mainList EmptyString]
                          (undoStack (after [OpRead path] (undoStack w) w))
                          (after [OpRead path] (undoStack w) w))))
      as [e He].
    { split; [by apply Hex|]. by exists line. }
    exists e. by rewrite He.
Qed.

Lemma importRepos_throws_iff_witness :
  let loaded := {| file := "/etc/apt/sources.list"; display := "deb http://a focal main";
                   enabled := true; isDeb822 := false; blockIndex := (-1)%Z;
                   uri := "http://a"; suite := "focal"; components := "main";
                   types := "deb" |} in
  let w := {| disk := {[ "/etc/apt/sources.list" := "deb http://a focal main
"; "/root/repos.txt" := "deb http://b focal main
  deb
" ]}; undoStack := []; backupDir := "/var/backups/relix"; journal := [] |} in
  exists e, importRepos [loaded] (mkAppendFaults true (Some 5%nat)) "/root/repos.txt" w
            = Throw e.
Proof.
  intros loaded w.
  apply (proj2 (importRepos_throws_iff [loaded] (mkAppendFaults true (Some 5%nat))
                  "/root/repos.txt" w ltac:(done))).
  split; [done|]. split; [done|].
  exists "deb http://b focal main
  deb
", "  deb". split; [reflexivity|]. split; [|reflexivity].
  vm_compute. right. left.
Defined.

(** ** The block scan *)

Lemma blank_not_nonblank L j : blankAt L j -> nonBlankAt L j -> False.
Proof. intros (l & Hl & Hb) (l' & Hl' & Hn). congruence. Qed.

Lemma drop_nil_length {A} (L : list A) i : drop i L = [] -> (length L <= i)%nat.
Proof.
  intros H. apply (f_equal length) in H. rewrite length_drop in H. cbn in H. lia.
Qed.

Lemma drop_cons_lookup {A} (L : list A) i x rest :
  drop i L = x :: rest -> L !! i = Some x /\ drop (S i) L = rest.
Proof.
  intros H. assert (L !! i = Some x) as Hx.
  { rewrite <- (Nat.add_0_r i), <- lookup_drop, H. done. }
  split; [done|]. rewrite (drop_S _ _ _ Hx) in H. by injection H.
Qed.

Lemma scan_runs L rest i bs inB r :
  rest = drop i L -> scanInv L i bs inB ->
  r ∈ scanBlocks rest i bs inB -> isRun L r.
Proof.
  revert i bs inB. induction rest as [|l rest IH]; intros i bs inB Hrest Hinv.
  - symmetry in Hrest. apply drop_nil_length in Hrest. cbn [scanBlocks].
    destruct inB; [|by intros ?%elem_of_nil]. intros ->%list_elem_of_singleton.
    destruct Hinv as (Hlt & Hin & Hleft). unfold isRun. cbn [fst snd].
    split; [lia|]. split; [intros j Hj; apply Hin; lia|]. split; [done|].
    intros (l & Hl & _). apply lookup_lt_Some in Hl. lia.
  - symmetry in Hrest. apply drop_cons_lookup in Hrest as [Hl Hrest]. symmetry in Hrest.
    cbn [scanBlocks]. destruct (empty (trimStr l)) eqn:Hb; destruct inB; cbn [negb andb].
    + intros [->|Hr]%elem_of_cons.
      * destruct Hinv as (Hlt & Hin & Hleft). unfold isRun. cbn [fst snd].
        split; [lia|]. split; [intros j Hj; apply Hin; lia|]. split; [done|].
        replace (S (i - 1)) with i by lia. intros Hn.
        apply (blank_not_nonblank L i); [by exists l|done].
      * apply (IH (S i) bs false Hrest); [|done]. right. cbn. rewrite Nat.sub_0_r. by exists l.
    + apply (IH (S i) bs false Hrest). right. cbn. rewrite Nat.sub_0_r. by exists l.
    + apply (IH (S i) bs true Hrest). destruct Hinv as (Hlt & Hin & Hleft).
      split; [lia|]. split; [|done]. intros j Hj.
      destruct (decide (j = i)) as [->|]; [by exists l|apply Hin; lia].
    + apply (IH (S i) i true Hrest). split; [lia|]. split; [|done].
      intros j Hj. replace j with i by lia. by exists l.
Qed.

Lemma scan_covers L rest i bs inB j :
  rest = drop i L -> (inB = true -> (bs < i)%nat) ->
  nonBlankAt L j -> (inB = true /\ (bs <= j)%nat) \/ (i <= j)%nat ->
  exists r, r ∈ scanBlocks rest i bs inB /\ (fst r <= j <= snd r)%nat.
Proof.
  revert i bs inB. induction rest as [|l rest IH]; intros i bs inB Hrest Hbs Hj Hpos.
  - symmetry in Hrest. apply drop_nil_length in Hrest. cbn [scanBlocks].
    assert (j < length L)%nat as Hlt by (destruct Hj as (? & ?%lookup_lt_Some & _); done).
    destruct Hpos as [[-> Hle]|]; [|lia].
    exists (bs, (i - 1)%nat). split; [by left|]. cbn. specialize (Hbs eq_refl). lia.
  - symmetry in Hrest. apply drop_cons_lookup in Hrest as [Hl Hrest]. symmetry in Hrest.
    assert (forall (r : nat * nat) (tl : list (nat * nat)),
              (exists r, r ∈ tl /\ (fst r <= j <= snd r)%nat) ->
              exists r0, r0 ∈ r :: tl /\ (fst r0 <= j <= snd r0)%nat) as Hlift.
    { intros r tl (r0 & Hin & Hr0). exists r0. split; [by right|done]. }
    assert (empty (trimStr l) = true -> j <> i) as Hblank.
    { intros Hb ->. apply (blank_not_nonblank L i); [by exists l|done]. }
    cbn [scanBlocks]. destruct (empty (trimStr l)) eqn:Hb; destruct inB; cbn [negb andb].
    + specialize (Hbs eq_refl). specialize (Hblank eq_refl).
      destruct (decide (j < i)%nat) as [Hlt|Hge].
      * exists (bs, (i - 1)%nat). split; [by left|]. cbn.
        destruct Hpos as [[_ Hle]|]; lia.
      * apply Hlift. apply (IH (S i) bs false Hrest); [done|done|]. right. lia.
    + specialize (Hblank eq_refl). apply (IH (S i) bs false Hrest); [done|done|].
      destruct Hpos as [[? _]|]; [done|]. right. lia.
    + specialize (Hbs eq_refl). apply (IH (S i) bs true Hrest); [lia|done|].
      left. split; [done|]. destruct Hpos as [[_ ?]|]; lia.
    + apply (IH (S i) i true Hrest); [lia|done|].
      destruct Hpos as [[? _]|]; [done|]. left. by split.
Qed.

Lemma runs_meet L r r' j :
  isRun L r -> isRun L r' ->
  (fst r <= j <= snd r)%nat -> (fst r' <= j <= snd r')%nat -> r = r'.
Proof.
  intros (Hle & Hin & Hleft & Hright) (Hle' & Hin' & Hleft' & Hright') Hj Hj'.
  assert (fst r = fst r') as Hfst.
  { destruct (decide (fst r = fst r')) as [|Hne]; [done|]. exfalso.
    destruct (decide (fst r < fst r')%nat).
    - destruct Hleft' as [?|Hb]; [lia|].
      apply (blank_not_nonblank _ _ Hb). apply Hin. lia.
    - destruct Hleft as [?|Hb]; [lia|].
      apply (blank_not_nonblank _ _ Hb). apply Hin'. lia. }
  assert (snd r = snd r') as Hsnd.
  { destruct (decide (snd r = snd r')) as [|Hne]; [done|]. exfalso.
    destruct (decide (snd r < snd r')%nat).
    - apply Hright. apply Hin'. lia.
    - apply Hright'. apply Hin. lia. }
  destruct r, r'. cbn in *. congruence.
Qed.

Lemma blockRanges_runs L r : r ∈ blockRanges L -> isRun L r.
Proof. apply (scan_runs L L 0 0 false); [done|by left]. Qed.

(** X20. The block scan of toggle and delete finds the paragraphs of the
    file: its ranges are exactly the maximal runs of non-blank lines, each
    range inside the file, bounded by a blank line or an end of the file
    on either side, and every non-blank line is in one of them; the ranges
    come in file order. *)
Theorem blockRanges_maximal_runs L :
  (forall r, r ∈ blockRanges L <-> isRun L r) /\
  (forall j, nonBlankAt L j ->
     exists r, r ∈ blockRanges L /\ (fst r <= j <= snd r)%nat) /\
  (forall r, r ∈ blockRanges L -> (snd r < length L)%nat) /\
  rangesAscend (blockRanges L).
Proof.
  assert (forall j, nonBlankAt L j ->
            exists r, r ∈ blockRanges L /\ (fst r <= j <= snd r)%nat) as Hcover.
  { intros j Hj. apply (scan_covers L L 0 0 false j); [done|done|done|right; lia]. }
  split; [|split; [done|split]].
  - intros r. split; [apply blockRanges_runs|]. intros Hrun.
    destruct (Hcover (fst r)) as (r' & Hin & Hr').
    { apply Hrun. destruct Hrun as (? & _). lia. }
    rewrite (runs_meet L r r' (fst r)); [done|done|by apply blockRanges_runs| |done].
    destruct Hrun as (? & _). lia.
  - intros r (Hle & Hin & _)%blockRanges_runs.
    destruct (Hin (snd r)) as (l & Hl%lookup_lt_Some & _); [lia|done].
  - apply (scan_sorted L 0 0 false). done.
Qed.

(** ** Paragraphs in their file *)

Lemma calls_nonblank blk rest block idx :
  Forall (fun l => empty (trimStr l) = false) blk ->
  sourcesCalls (blk ++ rest) block idx = sourcesCalls rest (block ++ blk) idx.
Proof.
  intros H. revert block. induction H as [|l blk Hl _ IH]; intros block.
  - by rewrite app_nil_r.
  - cbn [app sourcesCalls]. rewrite Hl, IH, <- app_assoc. done.
Qed.

Lemma calls_blank_cut A' b X block idx :
  empty (trimStr b) = true ->
  sourcesCalls ((A' ++ [b]) ++ X) block idx =
  sourcesCalls (A' ++ [b]) block idx ++
  sourcesCalls X []
    (idx + Z.of_nat (countAccepted (sourcesCalls (A' ++ [b]) block idx)))%Z.
Proof.
  intros Hb. revert block idx. induction A' as [|l A' IH]; intros block idx.
  - cbn [app sourcesCalls]. rewrite Hb. destruct block as [|x block].
    + cbn. by rewrite Z.add_0_r.
    + cbn [countAccepted app fst]. f_equal. f_equal.
      destruct (accepted (x :: block)); lia.
  - cbn [app sourcesCalls]. destruct (empty (trimStr l)); [|apply IH].
    destruct block as [|x block]; [apply IH|].
    rewrite IH. cbn [app countAccepted fst]. f_equal. f_equal. f_equal.
    destruct (accepted (x :: block)); lia.
Qed.

Lemma calls_cut A X idx :
  blankEnded A ->
  sourcesCalls (A ++ X) [] idx =
  sourcesCalls A [] idx ++
  sourcesCalls X [] (idx + Z.of_nat (countAccepted (sourcesCalls A [] idx)))%Z.
Proof.
  intros [->|(A' & b & -> & Hb)]; [cbn; by rewrite Z.add_0_r|by apply calls_blank_cut].
Qed.

Lemma calls_shift X block idx d :
  sourcesCalls X block (idx + d)%Z =
  map (fun c => (fst c, (snd c + d)%Z)) (sourcesCalls X block idx).
Proof.
  revert block idx. induction X as [|l X IH]; intros block idx; cbn [sourcesCalls].
  - by destruct block.
  - destruct (empty (trimStr l)); [|apply IH]. destruct block as [|x block]; [apply IH|].
    cbn [map fst snd]. f_equal. destruct (accepted (x :: block)); [|apply IH].
    replace (idx + d + 1)%Z with (idx + 1 + d)%Z by lia. apply IH.
Qed.

Lemma calls_block l blk rest idx :
  empty (trimStr l) = false -> Forall (fun l => empty (trimStr l) = false) blk ->
  blankStarted rest ->
  sourcesCalls ((l :: blk) ++ rest) [] idx =
  (l :: blk, idx) :: sourcesCalls (drop 1 rest) [] (idx + counted (l :: blk))%Z.
Proof.
  intros Hl Hblk Hrest. rewrite calls_nonblank by (by constructor). cbn [app].
  unfold counted. destruct Hrest as [->|(b & B & -> & Hb)]; cbn [sourcesCalls drop].
  - done.
  - rewrite Hb. f_equal. destruct (accepted (l :: blk)); f_equal; lia.
Qed.

Lemma scan_false_bs X i bs bs' : scanBlocks X i bs false = scanBlocks X i bs' false.
Proof.
  revert i. induction X as [|l X IH]; intros i; cbn [scanBlocks]; [done|].
  destruct (empty (trimStr l)); cbn [negb andb]; [apply IH|done].
Qed.

Lemma scan_nonblank blk rest i bs :
  Forall (fun l => empty (trimStr l) = false) blk ->
  scanBlocks (blk ++ rest) i bs true = scanBlocks rest (i + length blk) bs true.
Proof.
  intros H. revert i. induction H as [|l blk Hl _ IH]; intros i.
  - cbn. by rewrite Nat.add_0_r.
  - cbn [app scanBlocks length]. rewrite Hl. cbn [negb andb]. rewrite IH. f_equal. lia.
Qed.

Lemma scan_block l blk rest i bs :
  empty (trimStr l) = false -> Forall (fun l => empty (trimStr l) = false) blk ->
  blankStarted rest ->
  exists tl, scanBlocks ((l :: blk) ++ rest) i bs false = (i, (i + length blk)%nat) :: tl.
Proof.
  intros Hl Hblk Hrest. cbn [app scanBlocks]. rewrite Hl. cbn [negb andb].
  rewrite scan_nonblank by done.
  destruct Hrest as [->|(b & B & -> & Hb)]; cbn [scanBlocks].
  - exists []. do 2 f_equal. lia.
  - rewrite Hb. cbn [negb andb]. eexists. f_equal. f_equal. lia.
Qed.

Lemma scan_blank_cut A' b X i bs inB j :
  empty (trimStr b) = true -> j = (i + S (length A'))%nat ->
  scanBlocks ((A' ++ [b]) ++ X) i bs inB =
  scanBlocks (A' ++ [b]) i bs inB ++ scanBlocks X j 0 false.
Proof.
  intros Hb. revert i bs inB j. induction A' as [|l A' IH]; intros i bs inB j ->.
  - cbn [app scanBlocks length]. rewrite Hb. rewrite Nat.add_1_r.
    destruct inB; cbn [negb andb app]; by rewrite (scan_false_bs X (S i) bs 0).
  - cbn [app scanBlocks length].
    destruct (empty (trimStr l)), inB; cbn [negb andb];
      rewrite (IH _ _ _ (i + S (S (length A')))%nat) by lia; done.
Qed.

Lemma ranges_cut A X :
  blankEnded A ->
  blockRanges (A ++ X) = blockRanges A ++ scanBlocks X (length A) 0 false.
Proof.
  intros [->|(A' & b & -> & Hb)]; [done|].
  unfold blockRanges. apply scan_blank_cut; [done|]. rewrite length_app. cbn. lia.
Qed.

Lemma ranges_inj L j k r :
  blockRanges L !! j = Some r -> blockRanges L !! k = Some r -> j = k.
Proof.
  intros Hj Hk.
  assert (fst r <= snd r)%nat as Hle.
  { by destruct (blockRanges_runs L r (list_elem_of_lookup_2 _ _ _ Hj)). }
  destruct (Nat.lt_trichotomy j k) as [Hlt|[->|Hlt]]; [|done|].
  - pose proof (blockRanges_disjoint L j k r r Hlt Hj Hk). lia.
  - pose proof (blockRanges_disjoint L k j r r Hlt Hk Hj). lia.
Qed.

(** The paragraph at position [k] of the scan, with what is before and
    after it: the calls of the parser split the same way. *)
Lemma block_decompose L k r :
  blockRanges L !! k = Some r ->
  exists A l blk rest,
    L = A ++ (l :: blk) ++ rest /\
    take (fst r) L = A /\ slice L r = l :: blk /\ drop (S (snd r)) L = rest /\
    length A = fst r /\ snd r = (fst r + length blk)%nat /\
    empty (trimStr l) = false /\
    Forall (fun l => empty (trimStr l) = false) blk /\
    blankEnded A /\ blankStarted rest /\
    length (sourcesCalls A [] 0%Z) = k.
Proof.
  intros Hk. pose proof (list_elem_of_lookup_2 _ _ _ Hk) as Hin.
  destruct (blockRanges_runs L r Hin) as (Hle & Hnb & Hleft & Hright).
  destruct r as [s e]. cbn [fst snd] in *.
  assert (e < length L)%nat as He.
  { destruct (Hnb e) as (l & Hl%lookup_lt_Some & _); [lia|done]. }
  assert (L = take s L ++ slice L (s, e) ++ drop (S e) L) as HL.
  { unfold slice. cbn [fst snd].
    rewrite <- (take_drop s L) at 1. f_equal.
    rewrite <- (take_drop (S e - s) (drop s L)) at 1. f_equal.
    rewrite drop_drop. f_equal. lia. }
  assert (length (slice L (s, e)) = (S e - s)%nat) as Hlen.
  { unfold slice. cbn [fst snd]. rewrite length_take, length_drop. lia. }
  assert (Forall (fun l => empty (trimStr l) = false) (slice L (s, e))) as Hall.
  { apply Forall_lookup. intros n l [Hl Hn]%slice_lookup. cbn [fst snd] in *.
    destruct (Hnb (s + n)%nat) as (l' & Hl' & Hb); [lia|]. congruence. }
  destruct (slice L (s, e)) as [|l blk] eqn:Hslice; [cbn in Hlen; lia|].
  apply Forall_cons in Hall as [Hl Hblk]. cbn [length] in Hlen.
  assert (blankEnded (take s L)) as HA.
  { destruct (decide (s = 0%nat)) as [->|Hs]; [by left|].
    destruct Hleft as [->|(b & Hb & Hblank)]; [by left|]. right.
    exists (take (s - 1) L), b. split; [|done].
    replace s with (S (s - 1)) at 1 by lia.
    by apply take_S_r. }
  assert (blankStarted (drop (S e) L)) as HR.
  { destruct (drop (S e) L) as [|b B] eqn:Hd; [by left|]. right.
    apply drop_cons_lookup in Hd as [Hb _]. exists b, B. split; [done|].
    destruct (empty (trimStr b)) eqn:Hblank; [done|]. destruct Hright. by exists b. }
  exists (take s L), l, blk, (drop (S e) L).
  assert (length (take s L) = s) as HlenA by (rewrite length_take; lia).
  repeat split; try done; [lia|].
  rewrite (Forall2_length _ _ _ (blockRanges_calls (take s L))).
  apply (ranges_inj L _ k (s, e)); [|done].
  replace (blockRanges L)
    with (blockRanges (take s L ++ (l :: blk) ++ drop (S e) L)) by (by rewrite <- HL).
  rewrite ranges_cut by done. rewrite HlenA.
  destruct (scan_block l blk (drop (S e) L) s 0 Hl Hblk HR) as [tl ->].
  rewrite list_lookup_middle by done. do 2 f_equal. lia.
Qed.

Lemma calls_decompose L k A l blk rest :
  L = A ++ (l :: blk) ++ rest ->
  empty (trimStr l) = false -> Forall (fun l => empty (trimStr l) = false) blk ->
  blankEnded A -> blankStarted rest -> length (sourcesCalls A [] 0%Z) = k ->
  let cA := sourcesCalls A [] 0%Z in
  let i := Z.of_nat (countAccepted cA) in
  sourcesCalls L [] 0%Z =
    cA ++ (l :: blk, i) :: sourcesCalls (drop 1 rest) [] (i + counted (l :: blk))%Z /\
  take k (sourcesCalls L [] 0%Z) = cA /\
  drop (S k) (sourcesCalls L [] 0%Z) =
    sourcesCalls (drop 1 rest) [] (i + counted (l :: blk))%Z.
Proof.
  intros -> Hl Hblk HA HR Hk cA i.
  assert (sourcesCalls (A ++ (l :: blk) ++ rest) [] 0%Z =
          cA ++ (l :: blk, i) :: sourcesCalls (drop 1 rest) [] (i + counted (l :: blk))%Z)
    as ->.
  { rewrite calls_cut by done. rewrite Z.add_0_l. fold cA. fold i.
    by rewrite calls_block. }
  split; [done|]. split.
  - by rewrite take_app_length'.
  - replace (S k) with (k + 1)%nat by lia.
    by rewrite (drop_app_add' cA _ k 1) by done.
Qed.

Lemma dropRange_eq s e i L :
  (s <= S e)%nat ->
  dropRange s e i L = take (s - i) L ++ drop (S e - i) L.
Proof.
  intros Hse. revert i. induction L as [|l L IH]; intros i; cbn [dropRange].
  - by rewrite take_nil, drop_nil.
  - rewrite IH. destruct (Nat.leb_spec s i) as [Hsi|Hsi]; cbn [andb].
    + replace (s - i)%nat with 0%nat by lia. replace (s - S i)%nat with 0%nat by lia.
      destruct (Nat.leb_spec i e) as [Hie|Hie]; cbn [take app].
      * replace (S e - i)%nat with (S (S e - S i)) by lia. done.
      * replace (S e - i)%nat with 0%nat by lia.
        replace (S e - S i)%nat with 0%nat by lia. done.
    + replace (s - i)%nat with (S (s - S i)) by lia.
      replace (S e - i)%nat with (S (S e - S i)) by lia. done.
Qed.

Lemma bind2_map {A B C D} (g : C -> D) (f : A -> B -> C) (f' : A -> B -> D)
    (us : list A) (ss : list B) :
  (forall u s, f' u s = g (f u s)) ->
  (us ≫= fun u => ss ≫= fun s => [f' u s]) =
  map g (us ≫= fun u => ss ≫= fun s => [f u s]).
Proof.
  intros Hg. induction us as [|u us IHu]; [done|].
  rewrite !bind_cons, map_app, IHu. f_equal. clear IHu.
  induction ss as [|s ss IHs]; [done|].
  rewrite !bind_cons, map_app, IHs. cbn [map app]. by rewrite Hg.
Qed.

Lemma blockEntries_reindexed path b idx d :
  blockEntries path b (idx - d)%Z = map (reindexed d) (blockEntries path b idx).
Proof. unfold blockEntries. cbn zeta. by apply bind2_map. Qed.

Lemma callEntries_reindexed path d (cs : list (list string * Z)) :
  flat_map (callEntries path) cs =
  map (reindexed d)
      (flat_map (callEntries path) (map (fun c => (fst c, (snd c + d)%Z)) cs)).
Proof.
  induction cs as [|[b i] cs IH]; [done|].
  cbn [map flat_map fst snd]. rewrite map_app, <- IH. f_equal.
  unfold callEntries. cbn [fst snd]. destruct (accepted b); [|done].
  rewrite <- blockEntries_reindexed. f_equal. lia.
Qed.

Lemma blockEntries_withEnabled path b b' idx :
  sameButEnabled (blockFields b') (blockFields b) ->
  blockEntries path b' idx =
  map (withEnabled (bEnabled (blockFields b'))) (blockEntries path b idx).
Proof.
  unfold sameButEnabled, setEnabled, blockEntries. intros [= Hty Hu Hs Hraw Hc]. cbn zeta.
  rewrite Hty, Hu, Hs, Hraw, Hc. by apply bind2_map.
Qed.

Lemma blockFields_insert_enabled pre x post :
  isEnabledLine x = true ->
  sameButEnabled (blockFields (pre ++ x :: post)) (blockFields (pre ++ post)).
Proof.
  intros Hx. unfold blockFields. rewrite !fold_left_app. cbn [fold_left].
  apply fields_fold_same. by rewrite fieldStep_enabledLine.
Qed.

Lemma findEnabledLine_none L s n :
  (forall j, (s <= j < s + n)%nat -> isEnabledLine (default EmptyString (L !! j)) = false) ->
  findEnabledLine L s n = None.
Proof.
  revert s. induction n as [|n IH]; intros s Hno; [done|]. cbn [findEnabledLine].
  pose proof (Hno s ltac:(lia)) as Hs. unfold isEnabledLine in Hs. rewrite Hs.
  apply IH. intros j Hj. apply Hno. lia.
Qed.

Lemma linesOf_no_newline d path :
  Forall (fun l => hasNewline l = false) (linesOf d path).
Proof.
  unfold linesOf. destruct (d !! path); [by apply getlines_no_newline|constructor].
Qed.

Lemma swallowed_drop L e rest :
  drop (S e) L = rest -> blankStarted rest ->
  match L !! S e with
  | Some l => if empty (trimStr l) then S e else e
  | None => e
  end = (e + swallowed L e)%nat /\
  drop (S e + swallowed L e) L = drop 1 rest.
Proof.
  intros Hd HR. unfold swallowed.
  assert (L !! S e = rest !! 0%nat) as ->.
  { by rewrite <- Hd, lookup_drop, Nat.add_0_r. }
  destruct HR as [->|(b & B & -> & Hb)]; cbn [lookup list_lookup].
  - split; [lia|]. rewrite Nat.add_0_r. by rewrite Hd.
  - rewrite Hb. split; [lia|]. by rewrite <- drop_drop, Hd.
Qed.

(** X21. Delete of a paragraph entry removes the paragraph whose
    position in the file is the entry's [blockIndex]: the file afterwards
    is the lines before the paragraph followed by the lines after it, less
    one blank line behind it. Loading it again gives the entries of the
    paragraphs before, unchanged, and those of the paragraphs after, their
    [blockIndex] lowered by one if the parser had counted the removed
    paragraph. *)
Theorem delete_paragraph_reload flt repo w k r :
  isDeb822 repo = true -> blockIndex repo = Z.of_nat k ->
  let path := file repo in
  let L := linesOf (disk w) path in
  blockRanges L !! k = Some r -> writeOk flt = true ->
  let calls := sourcesCalls L [] 0%Z in
  exists msg w1 i,
    deleteRepoClean flt repo w = Ret ((true, msg), w1) /\
    linesOf (disk w1) path =
      take (fst r) L ++ drop (S (snd r) + swallowed L (snd r)) L /\
    calls !! k = Some (slice L r, i) /\
    parseSourcesFile path L =
      flat_map (callEntries path) (take k calls) ++
      callEntries path (slice L r, i) ++
      flat_map (callEntries path) (drop (S k) calls) /\
    parseSourcesFile path (linesOf (disk w1) path) =
      flat_map (callEntries path) (take k calls) ++
      map (reindexed (counted (slice L r)))
          (flat_map (callEntries path) (drop (S k) calls)).
Proof.
  intros Hdeb Hidx path L Hk Hok calls.
  destruct (block_decompose L k r Hk)
    as (A & l & blk & rest & HL & HA & Hslice & Hrest & HlenA & He & Hl & Hblk & HbA & HbR & Hcount).
  destruct (calls_decompose L k A l blk rest HL Hl Hblk HbA HbR Hcount)
    as (Hcalls & Htake & Hdrop).
  cbn zeta in Hcalls, Htake, Hdrop. fold calls in Hcalls, Htake, Hdrop.
  set (i := Z.of_nat (countAccepted (sourcesCalls A [] 0%Z))) in *.
  destruct (swallowed_drop L (snd r) rest Hrest HbR) as [Hend Hdrop1].
  assert (deletedBlockLines repo L =
          Some (take (fst r) L ++ drop (S (snd r) + swallowed L (snd r)) L)) as Hout.
  { unfold deletedBlockLines. rewrite Hidx, (blockAt_lookup _ _ _ Hk). cbn zeta.
    rewrite Hend, dropRange_eq by lia. by rewrite !Nat.sub_0_r. }
  rewrite deleteRepoClean_eq. cbn zeta. rewrite Hdeb. fold path. fold L. rewrite Hout.
  destruct (commitLines_ok flt path
              (take (fst r) L ++ drop (S (snd r) + swallowed L (snd r)) L) w Hok)
    as (msg & w1 & Hrun & Hdisk).
  exists msg, w1, i. split; [exact Hrun|].
  assert (linesOf (disk w1) path =
          take (fst r) L ++ drop (S (snd r) + swallowed L (snd r)) L) as Hlines.
  { unfold linesOf at 1. rewrite Hdisk. apply getlines_unlines.
    apply Forall_app. split; [apply Forall_take|apply Forall_drop];
      apply linesOf_no_newline. }
  split; [exact Hlines|]. rewrite Hslice.
  assert (calls !! k = Some (l :: blk, i)) as Hck.
  { rewrite Hcalls. by apply list_lookup_middle. }
  split; [exact Hck|]. split.
  - rewrite parseSourcesFile_calls. fold calls.
    rewrite <- (take_drop_middle calls k _ Hck) at 1.
    rewrite flat_map_app. cbn [flat_map]. done.
  - rewrite Hlines, HA, Hdrop1, parseSourcesFile_calls, calls_cut by done.
    rewrite Z.add_0_l. fold i. rewrite flat_map_app, Htake, Hdrop. f_equal.
    rewrite calls_shift. apply callEntries_reindexed.
Qed.

Lemma delete_paragraph_reload_witness :
  let path := "/etc/apt/sources.list.d/ubuntu.sources" in
  let bytes := "Types: deb
URIs: http://a
Suites: focal

Types: deb
URIs: http://b
Suites: jammy
" in
  let e := {| file := path; display := "deb http://a focal";
              enabled := true; isDeb822 := true; blockIndex := 0%Z;
              uri := "http://a"; suite := "focal"; components := EmptyString;
              types := "deb" |} in
  let w := {| disk := {[ path := bytes ]}; undoStack := [];
              backupDir := "/var/backups/relix"; journal := [] |} in
  exists msg w1,
    deleteRepoClean (noFaults "20240101_000000") e w = Ret ((true, msg), w1) /\
    parseSourcesFile path (linesOf (disk w1) path) =
      [ {| file := path; display := "deb http://b jammy";
           enabled := true; isDeb822 := true; blockIndex := 0%Z;
           uri := "http://b"; suite := "jammy"; components := EmptyString;
           types := "deb" |} ].
Proof.
  intros path bytes e w.
  destruct (delete_paragraph_reload (noFaults "20240101_000000") e w 0 (0, 2)%nat)
    as (msg & w1 & i & Hrun & _ & _ & _ & Hparse); try reflexivity.
  exists msg, w1. split; [exact Hrun|].
  refine (eq_trans Hparse _). vm_compute. reflexivity.
Defined.

Lemma enabledValue_enabledText v : enabledValue (enabledText v) = v.
Proof. destruct v; vm_compute; reflexivity. Qed.

Lemma isEnabledLine_enabledText v : isEnabledLine (enabledText v) = true.
Proof. destruct v; vm_compute; reflexivity. Qed.

Lemma nonblank_enabledText v : empty (trimStr (enabledText v)) = false.
Proof. destruct v; vm_compute; reflexivity. Qed.

(** X22. Toggle of a paragraph that has no [Enabled:] line writes one:
    the text of the other state becomes the second line of the paragraph
    whose position is the entry's [blockIndex], and nothing else changes.
    Loading the file again gives the same entries, those of this
    paragraph now in the other state. *)
Theorem toggle_inserts_enabled flt repo w k r :
  isDeb822 repo = true -> blockIndex repo = Z.of_nat k ->
  let path := file repo in
  let L := linesOf (disk w) path in
  blockRanges L !! k = Some r ->
  (forall j, (fst r <= j <= snd r)%nat ->
     isEnabledLine (default EmptyString (L !! j)) = false) ->
  writeOk flt = true ->
  let calls := sourcesCalls L [] 0%Z in
  let newVal := enabledText (negb (enabled repo)) in
  exists msg w1 i,
    toggle flt repo w = Ret ((true, msg), w1) /\
    linesOf (disk w1) path = take (S (fst r)) L ++ newVal :: drop (S (fst r)) L /\
    calls !! k = Some (slice L r, i) /\
    parseSourcesFile path (linesOf (disk w1) path) =
      flat_map (callEntries path) (take k calls) ++
      map (withEnabled (negb (enabled repo))) (callEntries path (slice L r, i)) ++
      flat_map (callEntries path) (drop (S k) calls).
Proof.
  intros Hdeb Hidx path L Hk Hno Hok calls newVal.
  destruct (block_decompose L k r Hk)
    as (A & l & blk & rest & HL & HA & Hslice & Hrest & HlenA & He & Hl & Hblk & HbA & HbR & Hcount).
  destruct (calls_decompose L k A l blk rest HL Hl Hblk HbA HbR Hcount)
    as (Hcalls & Htake & Hdrop).
  cbn zeta in Hcalls, Htake, Hdrop. fold calls in Hcalls, Htake, Hdrop.
  set (i := Z.of_nat (countAccepted (sourcesCalls A [] 0%Z))) in *.
  assert (Forall (fun x => isEnabledLine x = false) blk) as Hplain.
  { apply Forall_lookup. intros n x Hx.
    destruct (slice_lookup L r (S n) x) as [HLx Hn]; [by rewrite Hslice|].
    specialize (Hno (fst r + S n)%nat ltac:(lia)). by rewrite HLx in Hno. }
  assert (take (S (fst r)) L ++ newVal :: drop (S (fst r)) L
          = A ++ (l :: newVal :: blk) ++ rest) as Hsplit.
  { rewrite HL at 1 2. replace (S (fst r)) with (length A + 1)%nat by lia.
    rewrite take_app_add', drop_app_add' by done. cbn [app take drop].
    rewrite <- app_assoc. done. }
  assert (toggledBlockLines repo L =
          Some (take (S (fst r)) L ++ newVal :: drop (S (fst r)) L)) as Hout.
  { unfold toggledBlockLines. rewrite Hidx, (blockAt_lookup _ _ _ Hk). cbn zeta.
    unfold enabledLine. rewrite findEnabledLine_none.
    - unfold insertAt, newVal, enabledText. by destruct (enabled repo).
    - intros j Hj. apply Hno. lia. }
  unfold toggle. rewrite Hdeb, toggleDeb822_eq. fold path. fold L. rewrite Hout.
  destruct (commitLines_ok flt path
              (take (S (fst r)) L ++ newVal :: drop (S (fst r)) L) w Hok)
    as (msg & w1 & Hrun & Hdisk).
  exists msg, w1, i. split; [exact Hrun|].
  assert (linesOf (disk w1) path =
          take (S (fst r)) L ++ newVal :: drop (S (fst r)) L) as Hlines.
  { unfold linesOf at 1. rewrite Hdisk. apply getlines_unlines.
    apply Forall_app. split; [apply Forall_take, linesOf_no_newline|].
    constructor; [apply hasNewline_enabledText|apply Forall_drop, linesOf_no_newline]. }
  split; [exact Hlines|]. rewrite Hslice.
  assert (calls !! k = Some (l :: blk, i)) as Hck.
  { rewrite Hcalls. by apply list_lookup_middle. }
  split; [exact Hck|].
  pose proof (blockFields_insert_enabled [l] newVal blk (isEnabledLine_enabledText _)) as Hsame.
  cbn [app] in Hsame.
  assert (counted (l :: newVal :: blk) = counted (l :: blk)) as Hcnt.
  { unfold counted. by rewrite (accepted_same _ _ Hsame). }
  destruct (calls_decompose _ k A l (newVal :: blk) rest Hsplit Hl) as (Hcalls' & _ & _);
    [by constructor; [apply nonblank_enabledText|]|done|done|done|].
  cbn zeta in Hcalls'. fold i in Hcalls'.
  rewrite Hlines, parseSourcesFile_calls, Hcalls', Hcnt, <- Hdrop, <- Htake.
  rewrite flat_map_app. cbn [flat_map]. f_equal. f_equal.
  unfold callEntries. cbn [fst snd]. rewrite (accepted_same _ _ Hsame).
  destruct (accepted (l :: blk)); [|done].
  rewrite (blockEntries_withEnabled path (l :: blk) (l :: newVal :: blk) i Hsame).
  f_equal. f_equal.
  refine (eq_trans (blockFields_one_enabled [l] newVal blk
                      (isEnabledLine_enabledText _) Hplain) _).
  apply enabledValue_enabledText.
Qed.

Lemma toggle_inserts_enabled_witness :
  let path := "/etc/apt/sources.list.d/ubuntu.sources" in
  let bytes := "Types: deb
URIs: http://a
Suites: focal
" in
  let e := {| file := path; display := "deb http://a focal";
              enabled := true; isDeb822 := true; blockIndex := 0%Z;
              uri := "http://a"; suite := "focal"; components := EmptyString;
              types := "deb" |} in
  let w := {| disk := {[ path := bytes ]}; undoStack := [];
              backupDir := "/var/backups/relix"; journal := [] |} in
  exists msg w1,
    toggle (noFaults "20240101_000000") e w = Ret ((true, msg), w1) /\
    linesOf (disk w1) path =
      ["Types: deb"; "Enabled: no"; "URIs: http://a"; "Suites: focal"] /\
    parseSourcesFile path (linesOf (disk w1) path) = [withEnabled false e].
Proof.
  intros path bytes e w.
  destruct (toggle_inserts_enabled (noFaults "20240101_000000") e w 0 (0, 2)%nat)
    as (msg & w1 & i & Hrun & Hlines & Hcall & Hparse); try reflexivity.
  { intros j Hj. cbn [fst snd] in Hj.
    assert (j = 0 \/ j = 1 \/ j = 2)%nat as [->|[->| ->]] by lia; vm_compute; reflexivity. }
  vm_compute in Hcall. injection Hcall as <-.
  exists msg, w1. split; [exact Hrun|]. split.
  - refine (eq_trans Hlines _). vm_compute. reflexivity.
  - refine (eq_trans Hparse _). vm_compute. reflexivity.
Defined.

(** ** The selection *)

Lemma wrapInt_id z : isInt z -> wrapInt z = z.
Proof. unfold isInt, wrapInt. intros H. rewrite Z.mod_small; lia. Qed.

Lemma clampSelection_form LINES g_filtered v :
  (0 <= LINES)%Z -> (Z.of_nat (length g_filtered) + LINES <= 2147483647)%Z ->
  isInt (g_selected v) -> isInt (g_scrollOff v) ->
  let n := Z.of_nat (length g_filtered) in
  let v' := clampSelection LINES g_filtered v in
  (n = 0%Z -> v' = {| g_selected := 0; g_scrollOff := 0 |}) /\
  ((0 < n)%Z ->
   (0 <= g_selected v' < n)%Z /\
   (0 <= g_scrollOff v' <= g_selected v')%Z /\
   (g_selected v' < g_scrollOff v' + listRows LINES)%Z /\
   ((0 <= g_selected v < n)%Z -> g_selected v' = g_selected v)) /\
  clampSelection LINES g_filtered v' = v'.
Proof.
  intros HL Hn Hsel Hoff n v'. unfold isInt in *.
  assert (forall u,
            isInt (g_selected u) -> isInt (g_scrollOff u) -> (0 < n)%Z ->
            let s := Z.max 0 (Z.min (g_selected u) (n - 1)) in
            let o1 := Z.min (g_scrollOff u) s in
            let o2 := if (o1 + listRows LINES <=? s)%Z
                      then (s - listRows LINES + 1)%Z else o1 in
            clampSelection LINES g_filtered u =
              {| g_selected := s; g_scrollOff := Z.max 0 o2 |}) as Hform.
  { intros u Hu1 Hu2 Hpos. unfold isInt in *. cbn zeta. unfold clampSelection. fold n.
    rewrite (wrapInt_id n) by (unfold isInt; lia).
    destruct (Z.eqb_spec n 0) as [|_]; [lia|].
    rewrite (wrapInt_id (n - 1)), (wrapInt_id (LINES - 5)) by (unfold isInt; lia).
    assert ((if (LINES - 5 <? 1)%Z then 1%Z else (LINES - 5)%Z) = listRows LINES) as ->.
    { unfold listRows. destruct (Z.ltb_spec (LINES - 5) 1); lia. }
    set (s := Z.max 0 (Z.min (g_selected u) (n - 1))).
    assert ((if (s <? g_scrollOff u)%Z then s else g_scrollOff u)
            = Z.min (g_scrollOff u) s) as ->.
    { destruct (Z.ltb_spec s (g_scrollOff u)); lia. }
    assert (1 <= listRows LINES <= LINES + 1)%Z as Hrows by (unfold listRows; lia).
    rewrite (wrapInt_id (Z.min (g_scrollOff u) s + listRows LINES))
      by (unfold isInt; lia).
    rewrite (wrapInt_id (s - listRows LINES)) by (unfold isInt; lia).
    rewrite (wrapInt_id (s - listRows LINES + 1)) by (unfold isInt; lia).
    done. }
  assert (1 <= listRows LINES)%Z as Hrows by (unfold listRows; lia).
  destruct (decide (n = 0%Z)) as [Hz|Hnz].
  - assert (v' = {| g_selected := 0; g_scrollOff := 0 |}) as Hv'.
    { unfold v', clampSelection. fold n. rewrite Hz. done. }
    split; [done|]. split; [lia|]. rewrite Hv'. unfold clampSelection. fold n.
    rewrite Hz. done.
  - assert (0 < n)%Z as Hpos by lia.
    pose proof (Hform v ltac:(done) ltac:(done) Hpos) as Hv. cbn zeta in Hv. fold v' in Hv.
    split; [lia|].
    assert ((0 <= g_selected v' < n)%Z /\
            (0 <= g_scrollOff v' <= g_selected v')%Z /\
            (g_selected v' < g_scrollOff v' + listRows LINES)%Z) as (H1 & H2 & H3).
    { rewrite Hv. cbn [g_selected g_scrollOff].
      destruct (Z.leb_spec (Z.min (g_scrollOff v) (Z.max 0 (Z.min (g_selected v) (n - 1)))
                            + listRows LINES)
                           (Z.max 0 (Z.min (g_selected v) (n - 1)))); lia. }
    split.
    { intros _. split; [done|]. split; [done|]. split; [done|].
      intros Hin. rewrite Hv. cbn [g_selected]. lia. }
    rewrite (Hform v') by (unfold isInt; lia). cbn zeta.
    destruct v' as [s' o']. cbn [g_selected g_scrollOff] in *. f_equal; [lia|].
    destruct (Z.leb_spec (Z.min o' (Z.max 0 (Z.min s' (n - 1))) + listRows LINES)
                         (Z.max 0 (Z.min s' (n - 1)))); lia.
Qed.

(** X23. [clampSelection] puts the selection on an entry and in view: for
    a non-empty list the selected row is a row of the list, the scroll
    offset is not negative and not behind the selection, and the selection
    lies within the [listHeight()] rows from the offset on; a selection
    that is already on a row stays; for an empty list both are 0. Clamping
    twice is clamping once. The list and the terminal are no larger than
    an [int] can count together. *)
Theorem clampSelection_in_view LINES g_filtered v :
  (0 <= LINES)%Z -> (Z.of_nat (length g_filtered) + LINES <= 2147483647)%Z ->
  isInt (g_selected v) -> isInt (g_scrollOff v) ->
  let n := Z.of_nat (length g_filtered) in
  let v' := clampSelection LINES g_filtered v in
  (n = 0%Z -> v' = {| g_selected := 0; g_scrollOff := 0 |}) /\
  ((0 < n)%Z ->
   (0 <= g_selected v' < n)%Z /\
   (0 <= g_scrollOff v' <= g_selected v')%Z /\
   (g_selected v' < g_scrollOff v' + listRows LINES)%Z /\
   ((0 <= g_selected v < n)%Z -> g_selected v' = g_selected v)) /\
  clampSelection LINES g_filtered v' = v'.
Proof. apply clampSelection_form. Qed.

Lemma clampSelection_in_view_witness :
  let v' := clampSelection 24 [2; 0; 1]%nat {| g_selected := (-1); g_scrollOff := 7 |} in
  (0 <= g_selected v' < 3)%Z /\ (0 <= g_scrollOff v' <= g_selected v')%Z.
Proof.
  intros v'.
  destruct (clampSelection_in_view 24 [2; 0; 1]%nat {| g_selected := (-1); g_scrollOff := 7 |})
    as (_ & H & _); try (unfold isInt; cbn; lia).
  destruct H as (H1 & H2 & _); [cbn; lia|]. split; [exact H1|exact H2].
Defined.

(** ** Filter and sort *)

Lemma ltb_leb a b : String.ltb a b = negb (String.leb b a).
Proof.
  unfold String.ltb, String.leb. rewrite (String.compare_antisym b a).
  by destruct (String.compare a b).
Qed.

Lemma leb_trans a b c :
  String.leb a b = true -> String.leb b c = true -> String.leb a c = true.
Proof.
  intros H1 H2. apply Is_true_true.
  apply (@transitivity _ String.le _ a b c); by apply Is_true_true.
Qed.

Lemma leb_refl a : String.leb a a = true.
Proof. apply Is_true_true. apply (@reflexivity _ String.le _). Qed.

Lemma leRepos_total m a b : leRepos m a b = true \/ leRepos m b a = true.
Proof.
  unfold leRepos, cmpRepos.
  destruct (m =? 1)%Z; [|destruct (m =? 2)%Z].
  - destruct (enabled a), (enabled b); cbn; auto;
      rewrite !ltb_leb, !negb_involutive; apply String.leb_total.
  - rewrite !ltb_leb, !negb_involutive. apply String.leb_total.
  - rewrite (String.eqb_sym (file a) (file b)).
    destruct (String.eqb (file b) (file a)); cbn; rewrite !ltb_leb, !negb_involutive;
      apply String.leb_total.
Qed.

Lemma leRepos_trans m a b c :
  leRepos m a b = true -> leRepos m b c = true -> leRepos m a c = true.
Proof.
  unfold leRepos, cmpRepos.
  destruct (m =? 1)%Z; [|destruct (m =? 2)%Z].
  - destruct (enabled a), (enabled b), (enabled c); cbn;
      rewrite ?ltb_leb, ?negb_involutive; try done; apply leb_trans.
  - rewrite !ltb_leb, !negb_involutive. apply leb_trans.
  - destruct (String.eqb_spec (file b) (file a)) as [Hba|Hba];
      destruct (String.eqb_spec (file c) (file b)) as [Hcb|Hcb];
      destruct (String.eqb_spec (file c) (file a)) as [Hca|Hca];
      cbn [negb]; rewrite ?ltb_leb, ?negb_involutive;
      try (exfalso; congruence).
    + apply leb_trans.
    + rewrite <- Hba. by intros _ H.
    + rewrite Hcb. by intros H _.
    + intros H1 H2. exfalso. apply Hba. rewrite Hca in H2.
      symmetry. by apply String.leb_antisym.
    + apply leb_trans.
Qed.

Lemma cmpRepos_le m ra rb : cmpRepos m ra rb = negb (leRepos m rb ra).
Proof. unfold leRepos. by rewrite negb_involutive. Qed.

Lemma sortsBefore_trans m g a b c :
  is_Some (g !! a) -> is_Some (g !! b) -> is_Some (g !! c) ->
  sortsBefore m g a b -> sortsBefore m g b c -> sortsBefore m g a c.
Proof.
  intros [ra Ha] [rb Hb] [rc Hc]. unfold sortsBefore, cmp. rewrite Ha, Hb, Hc.
  rewrite !cmpRepos_le, !negb_true_iff, !negb_false_iff.
  pose proof (leRepos_trans m) as Ht. pose proof (leRepos_total m) as Htot.
  intros [H1|[H1 L1]] [H2|[H2 L2]].
  - left. destruct (leRepos m rc ra) eqn:H3; [|done].
    destruct (Htot rb rc) as [H4|H4]; [|congruence].
    pose proof (Ht _ _ _ H4 H3). congruence.
  - left. destruct (leRepos m rc ra) eqn:H3; [|done].
    pose proof (Ht _ _ _ H2 H3). congruence.
  - left. destruct (leRepos m rc ra) eqn:H3; [|done].
    pose proof (Ht _ _ _ H3 H1). congruence.
  - right. split; [by eapply Ht|lia].
Qed.

Lemma sortedBy_cons R x l :
  sortedBy R (x :: l) <-> Forall (R x) l /\ sortedBy R l.
Proof.
  split.
  - intros H. split.
    + apply Forall_lookup. intros j b Hb. by apply (H 0%nat (S j) x b); [lia| |].
    + intros i j a b Hij Ha Hb. by apply (H (S i) (S j) a b); [lia| |].
  - intros [Hx Hl] i j a b Hij Ha Hb. destruct j as [|j]; [lia|]. cbn in Hb.
    destruct i as [|i].
    + cbn in Ha. injection Ha as <-. by eapply (proj1 (Forall_lookup _ _) Hx).
    + cbn in Ha. apply (Hl i j a b); [lia|done|done].
Qed.

Lemma sortedBy_nil R : sortedBy R [].
Proof. by intros i j a b _ ?. Qed.

Lemma insertSorted_perm lt x l : insertSorted lt x l ≡ₚ x :: l.
Proof.
  induction l as [|y ys IH]; [done|]. cbn [insertSorted].
  destruct (lt y x); [|done]. rewrite IH. apply Permutation_swap.
Qed.

Lemma stable_sort_perm lt l : stable_sort lt l ≡ₚ l.
Proof.
  induction l as [|x xs IH]; [done|]. cbn [stable_sort foldr].
  fold (stable_sort lt xs). by rewrite insertSorted_perm, IH.
Qed.

Lemma insertSorted_sorted m g x l :
  is_Some (g !! x) -> Forall (fun y => is_Some (g !! y)) l ->
  Forall (fun y => (x < y)%nat) l ->
  sortedBy (sortsBefore m g) l ->
  sortedBy (sortsBefore m g) (insertSorted (cmp m g) x l).
Proof.
  intros Hx. induction l as [|y ys IH]; intros Hval Hlt Hs; cbn [insertSorted].
  - apply sortedBy_cons. split; [constructor|apply sortedBy_nil].
  - apply Forall_cons in Hval as [Hy Hval]. apply Forall_cons in Hlt as [Hxy Hlt].
    apply sortedBy_cons in Hs as [Hys Hs].
    destruct (cmp m g y x) eqn:Hc.
    + apply sortedBy_cons. split; [|by apply IH].
      rewrite insertSorted_perm. constructor; [by left|done].
    + assert (sortsBefore m g x y) as Hfirst by (by right).
      apply sortedBy_cons. split; [|by apply sortedBy_cons].
      constructor; [done|].
      apply Forall_lookup. intros j z Hz.
      apply (sortsBefore_trans m g x y z); [done|done| |done|].
      * by apply (proj1 (Forall_lookup _ _) Hval j z).
      * by apply (proj1 (Forall_lookup _ _) Hys j z).
Qed.

Lemma stable_sort_sorted m g l :
  Forall (fun y => is_Some (g !! y)) l -> sortedBy lt l ->
  sortedBy (sortsBefore m g) (stable_sort (cmp m g) l).
Proof.
  induction l as [|x xs IH]; intros Hval Hs; [apply sortedBy_nil|].
  apply Forall_cons in Hval as [Hx Hval]. apply sortedBy_cons in Hs as [Hlt Hs].
  cbn [stable_sort foldr]. fold (stable_sort (cmp m g) xs).
  apply insertSorted_sorted; [done| | |by apply IH].
  - by rewrite stable_sort_perm.
  - by rewrite stable_sort_perm.
Qed.

Lemma filterFrom_spec f i repos :
  sortedBy lt (filterFrom f i repos) /\
  Forall (fun j => (i <= j)%nat) (filterFrom f i repos) /\
  forall j, j ∈ filterFrom f i repos <->
    (i <= j)%nat /\ exists r, repos !! (j - i)%nat = Some r /\
      empty f || containsCI (display r) f = true.
Proof.
  revert i. induction repos as [|r rest IH]; intros i; cbn [filterFrom].
  - split; [apply sortedBy_nil|]. split; [constructor|]. intros j. split.
    + by intros ?%elem_of_nil.
    + by intros (_ & r & ? & _).
  - destruct (IH (S i)) as (Hs & Hge & Hin).
    assert (forall j, (i <= j)%nat /\
              (exists r0, (r :: rest) !! (j - i)%nat = Some r0 /\
                 empty f || containsCI (display r0) f = true) <->
              (j = i /\ empty f || containsCI (display r) f = true) \/
              j ∈ filterFrom f (S i) rest) as Hsplit.
    { intros j. rewrite Hin. split.
      - intros (Hij & r0 & Hr0 & Hp). destruct (decide (j = i)) as [->|Hne].
        + left. rewrite Nat.sub_diag in Hr0. cbn in Hr0. by injection Hr0 as ->.
        + right. split; [lia|]. exists r0. split; [|done].
          replace (j - i)%nat with (S (j - S i)) in Hr0 by lia. done.
      - intros [[-> Hp]|(Hij & r0 & Hr0 & Hp)].
        + split; [lia|]. exists r. by rewrite Nat.sub_diag.
        + split; [lia|]. exists r0. split; [|done].
          replace (j - i)%nat with (S (j - S i)) by lia. done. }
    destruct (empty f || containsCI (display r) f) eqn:Hp.
    + split; [|split].
      * apply sortedBy_cons. split; [|done].
        eapply Forall_impl; [exact Hge|]. cbn. lia.
      * constructor; [lia|]. eapply Forall_impl; [exact Hge|]. cbn. lia.
      * intros j. rewrite Hsplit, elem_of_cons. split.
        -- intros [->|Hj]; [by left|by right].
        -- intros [[-> _]|Hj]; [by left|by right].
    + split; [done|]. split.
      * eapply Forall_impl; [exact Hge|]. cbn. lia.
      * intros j. rewrite Hsplit. split; [by right|]. by intros [[_ ?]|Hj].
Qed.

Lemma sortedBy_lt_NoDup l : sortedBy lt l -> NoDup l.
Proof.
  induction l as [|x xs IH]; [constructor|]. intros [Hx Hs]%sortedBy_cons.
  constructor; [|by apply IH]. intros Hin.
  pose proof (proj1 (Forall_forall _ _) Hx x Hin). lia.
Qed.

Lemma rebuildFiltered_elem m f g i :
  i ∈ rebuildFiltered m f g <-> shown f g i.
Proof.
  unfold rebuildFiltered, shown. rewrite stable_sort_perm.
  destruct (filterFrom_spec f 0 g) as (_ & _ & Hin). rewrite Hin, Nat.sub_0_r.
  split; [by intros [_ ?]|]. intros ?. split; [lia|done].
Qed.

(** X24. What [rebuildFiltered] leaves in [g_filtered]: each index of an
    entry whose text contains the filter, case-insensitively, once, and
    nothing else; with an empty filter, every index. Every element is a
    valid index into [g_repos], whatever the sort mode. *)
Theorem rebuildFiltered_shown sortMode g_filterStr g_repos :
  let res := rebuildFiltered sortMode g_filterStr g_repos in
  NoDup res /\
  (forall i, i ∈ res <->
     exists r, g_repos !! i = Some r /\
       (g_filterStr = EmptyString \/ containsCI (display r) g_filterStr = true)) /\
  (forall i, i ∈ res -> (i < length g_repos)%nat) /\
  (g_filterStr = EmptyString -> res ≡ₚ seq 0 (length g_repos)).
Proof.
  intros res.
  assert (forall i, i ∈ res <->
            exists r, g_repos !! i = Some r /\
              (g_filterStr = EmptyString \/ containsCI (display r) g_filterStr = true))
    as Hin.
  { intros i. unfold res. rewrite rebuildFiltered_elem. unfold shown.
    split; intros (r & Hr & Hp); exists r; (split; [done|]).
    - apply orb_true_iff in Hp as [Hp|Hp]; [left; by destruct g_filterStr|by right].
    - apply orb_true_iff. destruct Hp as [->|Hp]; [by left|by right]. }
  assert (NoDup res) as Hnd.
  { unfold res, rebuildFiltered. rewrite stable_sort_perm.
    apply sortedBy_lt_NoDup. apply filterFrom_spec. }
  split; [done|]. split; [done|]. split.
  - intros i (r & Hr%lookup_lt_Some & _)%Hin. done.
  - intros ->. apply NoDup_Permutation; [done|apply NoDup_seq|].
    intros i. rewrite Hin, elem_of_seq. split.
    + intros (r & Hr%lookup_lt_Some & _). lia.
    + intros [_ Hi]. destruct (lookup_lt_is_Some_2 g_repos i) as [r Hr]; [lia|].
      exists r. split; [done|by left].
Qed.

(** X25. The order of [g_filtered] after [rebuildFiltered]: of two
    elements the earlier one compares less than the later one under [cmp],
    or the two compare equivalent and the earlier one is the smaller
    index. No element compares less than one before it. *)
Theorem rebuildFiltered_order sortMode g_filterStr g_repos i j a b :
  let res := rebuildFiltered sortMode g_filterStr g_repos in
  (i < j)%nat -> res !! i = Some a -> res !! j = Some b ->
  sortsBefore sortMode g_repos a b /\ cmp sortMode g_repos b a = false.
Proof.
  intros res Hij Ha Hb.
  assert (sortedBy (sortsBefore sortMode g_repos) res) as Hs.
  { unfold res, rebuildFiltered. apply stable_sort_sorted; [|apply filterFrom_spec].
    apply Forall_forall. intros x Hx.
    destruct (filterFrom_spec g_filterStr 0 g_repos) as (_ & _ & Hin).
    apply Hin in Hx as (_ & r & Hr & _). rewrite Nat.sub_0_r in Hr. by exists r. }
  pose proof (Hs i j a b Hij Ha Hb) as Hab. split; [done|].
  destruct Hab as [Hlt|[Hge _]]; [|done].
  unfold cmp in *. destruct (g_repos !! a) as [ra|]; [|done].
  destruct (g_repos !! b) as [rb|]; [|done].
  destruct (leRepos_total sortMode ra rb) as [H|H]; unfold leRepos in H;
    apply negb_true_iff in H; congruence.
Qed.

Lemma rebuildFiltered_order_witness :
  let mk f d en := {| file := f; display := d; enabled := en; isDeb822 := false;
                      blockIndex := (-1)%Z; uri := EmptyString; suite := EmptyString;
                      components := EmptyString; types := "deb" |} in
  let g_repos := [ mk "/etc/apt/sources.list" "# deb http://b focal main" false;
                   mk "/etc/apt/sources.list" "deb http://c focal main" true;
                   mk "/etc/apt/sources.list" "deb http://a focal main" true ] in
  rebuildFiltered 1 "HTTP" g_repos = [2; 1; 0]%nat /\
  sortsBefore 1 g_repos 2 1.
Proof.
  intros mk g_repos.
  assert (rebuildFiltered 1 "HTTP" g_repos = [2; 1; 0]%nat) as Hres
    by (vm_compute; reflexivity).
  split; [exact Hres|].
  apply (rebuildFiltered_order 1 "HTTP" g_repos 0 1 2 1); [lia| |];
    rewrite Hres; reflexivity.
Defined.

(** X26. After [clampSelection], [currentRepoIndex] never reads outside
    [g_filtered]: on the list [rebuildFiltered] made it returns -1 when no
    entry passes the filter, and otherwise the index of an entry of
    [g_repos] that passes it. *)
Theorem currentRepoIndex_in_bounds LINES sortMode g_filterStr g_repos v :
  (0 <= LINES)%Z -> (Z.of_nat (length g_repos) + LINES <= 2147483647)%Z ->
  isInt (g_selected v) -> isInt (g_scrollOff v) ->
  let res := rebuildFiltered sortMode g_filterStr g_repos in
  exists ri,
    currentRepoIndex res (clampSelection LINES res v) = Some ri /\
    (res = [] -> ri = (-1)%Z) /\
    (res <> [] -> exists i, ri = Z.of_nat i /\ shown g_filterStr g_repos i).
Proof.
  intros HL Hn Hsel Hoff res.
  assert (length res <= length g_repos)%nat as Hlen.
  { assert (NoDup res) as Hnd.
    { unfold res, rebuildFiltered. rewrite stable_sort_perm.
      apply sortedBy_lt_NoDup. apply filterFrom_spec. }
    assert (forall i, i ∈ res -> (i < length g_repos)%nat) as Hlt.
    { intros i Hi.
      apply (proj1 (rebuildFiltered_elem sortMode g_filterStr g_repos i)) in Hi
        as (r & Hr%lookup_lt_Some & _).
      done. }
    replace (length g_repos) with (length (seq 0 (length g_repos)))
      by apply length_seq.
    apply submseteq_length, NoDup_submseteq; [done|].
    intros i Hi. apply elem_of_seq. specialize (Hlt i Hi). lia. }
  destruct (clampSelection_form LINES res v) as (Hempty & Hsome & _); [lia|lia|done|done|].
  destruct res as [|x xs] eqn:Hres.
  - exists (-1)%Z. by repeat split.
  - destruct Hsome as (Hs & _); [cbn; lia|].
    set (v' := clampSelection LINES (x :: xs) v) in *.
    unfold currentRepoIndex. destruct (Z.ltb_spec (g_selected v') 0) as [|_]; [lia|].
    destruct (lookup_lt_is_Some_2 (x :: xs) (Z.to_nat (g_selected v'))) as [i Hi]; [lia|].
    rewrite Hi. exists (Z.of_nat i). split; [done|]. split; [done|]. intros _.
    exists i. split; [done|].
    apply (proj1 (rebuildFiltered_elem sortMode g_filterStr g_repos i)).
    fold res. rewrite Hres. by eapply list_elem_of_lookup_2.
Qed.

Lemma currentRepoIndex_in_bounds_witness :
  let mk f d en := {| file := f; display := d; enabled := en; isDeb822 := false;
                      blockIndex := (-1)%Z; uri := EmptyString; suite := EmptyString;
                      components := EmptyString; types := "deb" |} in
  let g_repos := [ mk "/etc/apt/sources.list" "deb http://b focal main" true;
                   mk "/etc/apt/sources.list" "deb http://a focal main" true ] in
  exists ri,
    currentRepoIndex (rebuildFiltered 0 EmptyString g_repos)
      (clampSelection 24 (rebuildFiltered 0 EmptyString g_repos)
         {| g_selected := 5; g_scrollOff := 0 |}) = Some ri.
Proof.
  intros mk g_repos.
  destruct (currentRepoIndex_in_bounds 24 0 EmptyString g_repos
              {| g_selected := 5; g_scrollOff := 0 |}) as (ri & Hri & _);
    try (unfold isInt; cbn; lia).
  by exists ri.
Defined.

Lemma parseListLine_in_range_witness :
  is_Some (substrFrom (trimStr "  # deb http://a focal main ") 1) /\
  is_Some (dropMarker (trimStr "  # deb http://a focal main ")).
Proof.
  apply (parseListLine_in_range "  # deb http://a focal main "). vm_compute. reflexivity.
Defined.

(** ** Names inside a directory *)

Lemma replaceSlash_noSlash s : noSlash (replaceSlash s) = true.
Proof.
  unfold noSlash. induction s as [|c s IH]; [done|]. cbn [replaceSlash allChars].
  rewrite IH, andb_true_r. by destruct (Ascii.eqb c "/") eqn:Hc; [|rewrite Hc].
Qed.

Lemma stripUnderscores_noSlash s : noSlash s = true -> noSlash (stripUnderscores s) = true.
Proof.
  unfold noSlash. induction s as [|c s IH]; [done|]. cbn [allChars stripUnderscores].
  intros [Hc Hs]%andb_true_iff. specialize (IH Hs).
  destruct (stripUnderscores s) as [|c' r].
  - destruct (Ascii.eqb c "_"); [done|]. cbn [allChars]. by rewrite Hc.
  - cbn [allChars] in *. by rewrite Hc, IH.
Qed.

(** X27. The files the engine derives a name for lie directly in their
    directory: the cache path of [metaFromCache] is a name without [/]
    under [/var/lib/apt/lists/], whatever the URI and the suite of the
    entry, and the destination of [backupFile] is a name without [/] under
    the backup directory, whatever the source path (the time stamp having
    none). *)
Theorem derived_paths_stay_inside :
  (forall repo, exists name,
     relPath repo = "/var/lib/apt/lists/" +:+ name /\ noSlash name = true) /\
  (forall dir src ts, noSlash ts = true ->
     exists name, backupDest dir src ts = dir +:+ "/" +:+ name /\ noSlash name = true).
Proof.
  split.
  - intros repo. unfold relPath. cbn zeta. eexists. split; [reflexivity|].
    unfold noSlash. rewrite !allChars_app.
    fold (noSlash (replaceSlash (suite repo))). rewrite replaceSlash_noSlash.
    match goal with |- context [stripUnderscores ?h] =>
      fold (noSlash (stripUnderscores h)); rewrite (stripUnderscores_noSlash h)
    end; [done|].
    apply replaceSlash_noSlash.
  - intros dir src ts Hts. unfold backupDest. eexists. split; [reflexivity|].
    unfold noSlash in *. rewrite !allChars_app, Hts.
    fold (noSlash (replaceSlash src)). by rewrite replaceSlash_noSlash.
Qed.

(** ** The configuration *)

Lemma configText_lines cfg :
  Cfg.configText cfg =
  unlines [ "theme=" +:+ pretty (Cfg.themeIndex cfg);
            "sort=" +:+ pretty (Cfg.sortMode cfg);
            "backup_dir=" +:+ Cfg.backupDir cfg;
            "confirmToggle=" +:+ (if Cfg.confirmToggle cfg then "1" else "0") ].
Proof.
  unfold Cfg.configText, unlines. cbn [fold_right].
  rewrite !str_app_assoc. reflexivity.
Qed.

Lemma configStep_backup_dir cfg dir :
  Cfg.configStep cfg ("backup_dir=" +:+ dir) =
  Cfg.mkConfig (Cfg.themeIndex cfg) (Cfg.sortMode cfg) (trimStr dir) (Cfg.confirmToggle cfg).
Proof. reflexivity. Qed.

(** X28. The configuration survives a save and a load: for a
    configuration as [loadConfig] leaves it (theme 0..3, sort mode 0..2)
    whose backup directory has no line feed and no white space at either
    end, [saveConfig] writes a file from which [loadConfig] restores
    exactly this configuration, whatever [g_cfg] held before. And whatever
    the file holds, [loadConfig] leaves the theme within 0..3 and the sort
    mode within 0..2. *)
Theorem config_round_trip home cfg g_cfg w :
  (0 <= Cfg.themeIndex cfg <= 3)%Z -> (0 <= Cfg.sortMode cfg <= 2)%Z ->
  trimStr (Cfg.backupDir cfg) = Cfg.backupDir cfg ->
  hasNewline (Cfg.backupDir cfg) = false ->
  (exists w',
     Cfg.saveConfig None (mkAppendFaults true None) home cfg w = Ret (tt, w') /\
     disk w' !! Cfg.configPath home = Some (Cfg.configText cfg) /\
     Cfg.loadConfig g_cfg (disk w' !! Cfg.configPath home) = cfg) /\
  (forall bytes,
     (0 <= Cfg.themeIndex (Cfg.loadConfig g_cfg (Some bytes)) <= 3)%Z /\
     (0 <= Cfg.sortMode (Cfg.loadConfig g_cfg (Some bytes)) <= 2)%Z).
Proof.
  intros Ht Hs Hdir Hnl. split.
  2:{ intros bytes. cbn [Cfg.loadConfig Cfg.themeIndex Cfg.sortMode]. lia. }
  eexists. split; [reflexivity|].
  assert (disk (after [OpMkdir (Cfg.configDir home); OpCreate (Cfg.configPath home);
                       OpAppend (Cfg.configPath home) (Cfg.configText cfg)]
                      (undoStack w) w) !! Cfg.configPath home
          = Some (Cfg.configText cfg)) as Hdisk.
  { cbn [disk after]. unfold runOps. cbn [foldl applyOp].
    rewrite lookup_insert_eq, lookup_insert_eq. done. }
  split; [exact Hdisk|].
  etrans; [exact (f_equal (Cfg.loadConfig g_cfg) Hdisk)|].
  unfold Cfg.loadConfig. rewrite configText_lines, getlines_unlines.
  2:{ destruct cfg as [t s d c]. cbn [Cfg.themeIndex Cfg.sortMode Cfg.backupDir Cfg.confirmToggle] in *.
      assert (t = 0 \/ t = 1 \/ t = 2 \/ t = 3)%Z as Ht' by lia.
      assert (s = 0 \/ s = 1 \/ s = 2)%Z as Hs' by lia.
      repeat constructor.
      - destruct Ht' as [->|[->|[->| ->]]]; reflexivity.
      - destruct Hs' as [->|[->| ->]]; reflexivity.
      - exact Hnl.
      - by destruct c. }
  cbn [fold_left]. rewrite configStep_backup_dir, Hdir.
  destruct cfg as [t s d c]. cbn [Cfg.themeIndex Cfg.sortMode Cfg.backupDir Cfg.confirmToggle] in *.
  assert (t = 0 \/ t = 1 \/ t = 2 \/ t = 3)%Z as Ht' by lia.
  assert (s = 0 \/ s = 1 \/ s = 2)%Z as Hs' by lia.
  destruct g_cfg as [t0 s0 d0 c0].
  destruct Ht' as [->|[->|[->| ->]]]; destruct Hs' as [->|[->| ->]]; destruct c;
    reflexivity.
Qed.

Lemma config_round_trip_witness :
  let cfg := {| Cfg.themeIndex := 2; Cfg.sortMode := 1;
                Cfg.backupDir := "/var/backups/my relix";
                Cfg.confirmToggle := true |} in
  let w := {| disk := ∅; undoStack := []; backupDir := "/var/backups/relix";
              journal := [] |} in
  exists w',
    Cfg.saveConfig None (mkAppendFaults true None) (Some "/root") cfg w = Ret (tt, w') /\
    disk w' !! "/root/.config/relix/config" = Some "theme=2
sort=1
backup_dir=/var/backups/my relix
confirmToggle=1
" /\
    Cfg.loadConfig Cfg.defaults (disk w' !! "/root/.config/relix/config") = cfg.
Proof.
  intros cfg w.
  destruct (config_round_trip (Some "/root") cfg Cfg.defaults w)
    as [(w' & Hrun & Hdisk & Hload) _]; try reflexivity; try (cbn; lia).
  exists w'. split; [exact Hrun|]. split; [exact Hdisk|exact Hload].
Defined.

(** ** Export and import *)













(** ** The parts of a URI *)

Lemma prefix_app_stop p s c r :
  allChars (fun x => negb (Ascii.eqb x c)) p = true ->
  String.prefix p (s +:+ String c r) = String.prefix p s.
Proof.
  revert s. induction p as [|a p IH]; intros s Hp; [by destruct s|].
  cbn [allChars] in Hp. apply andb_true_iff in Hp as [Ha Hp].
  destruct s as [|x s].
  - rewrite str_app_nil_l, prefix_cons.
    destruct (ascii_dec a c) as [->|]; [|done].
    by rewrite Ascii.eqb_refl in Ha.
  - rewrite str_app_cons, !prefix_cons. destruct (ascii_dec a x); [by apply IH|done].
Qed.

Lemma findStr_scheme scheme rest :
  noColon scheme = true ->
  findStr "://" (scheme +:+ "://" +:+ rest) = Some (String.length scheme).
Proof.
  unfold noColon. induction scheme as [|c s IH]; intros Hs.
  - rewrite str_app_nil_l. change ("://" +:+ rest) with (String ":" ("//" +:+ rest)).
    cbn [findStr].
    assert (String.prefix "://" (String ":" ("//" +:+ rest)) = true) as ->
      by exact (prefix_app "://" rest).
    done.
  - cbn [allChars] in Hs. apply andb_true_iff in Hs as [Hc Hs].
    rewrite str_app_cons. cbn [findStr].
    change "://" with (String ":" "//") at 1. rewrite prefix_cons.
    destruct (ascii_dec ":" c) as [<-|_]; [done|].
    rewrite IH by done. done.
Qed.

Lemma substring_skip a b :
  String.substring (String.length a) (String.length b) (a +:+ b) = b.
Proof.
  induction a as [|c a IH]; [by rewrite str_app_nil_l, substring_all|].
  rewrite str_app_cons. cbn [String.length String.substring]. exact IH.
Qed.

Lemma afterKey_app a b : afterKey (String.length a) (a +:+ b) = b.
Proof.
  unfold afterKey. rewrite str_length_app.
  replace (String.length a + String.length b - String.length a)%nat
    with (String.length b) by lia.
  apply substring_skip.
Qed.

Lemma substring_take a b : String.substring 0 (String.length a) (a +:+ b) = a.
Proof.
  induction a as [|c a IH]; [by destruct b|].
  rewrite str_app_cons. cbn [String.length String.substring]. by rewrite IH.
Qed.

Lemma findChar_app c a b :
  allChars (fun x => negb (Ascii.eqb x c)) a = true ->
  Cfg.findChar c (a +:+ b) = (fun i => (String.length a + i)%nat) <$> Cfg.findChar c b.
Proof.
  induction a as [|x a IH]; intros Ha.
  - rewrite str_app_nil_l. by destruct (Cfg.findChar c b).
  - cbn [allChars] in Ha. apply andb_true_iff in Ha as [Hx Ha].
    rewrite str_app_cons. cbn [Cfg.findChar String.length].
    apply negb_true_iff in Hx. rewrite Hx, IH by done.
    by destruct (Cfg.findChar c b).
Qed.

Lemma rfindChar_none c s :
  allChars (fun x => negb (Ascii.eqb x c)) s = true -> rfindChar c s = None.
Proof.
  induction s as [|x s IH]; [done|]. cbn [allChars rfindChar].
  intros [Hx Hs]%andb_true_iff. rewrite IH by done.
  apply negb_true_iff in Hx. by rewrite Hx.
Qed.

Lemma rfindChar_app c a b i :
  rfindChar c b = Some i -> rfindChar c (a +:+ b) = Some (String.length a + i)%nat.
Proof.
  intros Hb. induction a as [|x a IH]; [done|].
  rewrite str_app_cons. cbn [rfindChar String.length]. by rewrite IH.
Qed.

(** X30. The address [checkReachable] asks for: of a URI
    [scheme://host], with [:port] and [/path] optional, it resolves
    [host] and connects to [port]; without a port it takes 443 when the
    URI starts with [https] and 80 otherwise. The scheme, the host and the
    port hold no colon, the host and the port no slash. *)
Theorem hostPort_of_uri scheme host port path :
  noColon scheme = true -> noColon host = true -> noSlash host = true ->
  (forall p, port = Some p -> noColon p = true /\ noSlash p = true) ->
  hostPort (uriOf scheme host port path) =
    (host, match port with
           | Some p => p
           | None => if startsWith "https" scheme then "443" else "80"
           end).
Proof.
  intros Hscheme Hcolon Hslash Hport. unfold hostPort, uriOf.
  set (P := match port with Some p => ":" +:+ p | None => EmptyString end).
  set (Q := match path with Some r => "/" +:+ r | None => EmptyString end).
  rewrite findStr_scheme by done.
  assert (afterKey (String.length scheme + 3) (scheme +:+ "://" +:+ host +:+ P +:+ Q)
          = (host +:+ P) +:+ Q) as ->.
  { rewrite <- (str_app_assoc scheme "://"), <- (str_app_assoc host P Q).
    replace (String.length scheme + 3)%nat with (String.length (scheme +:+ "://"))
      by (rewrite str_length_app; done).
    apply afterKey_app. }
  assert (startsWith "https" (scheme +:+ "://" +:+ host +:+ P +:+ Q)
          = startsWith "https" scheme) as ->.
  { unfold startsWith. by apply (prefix_app_stop "https" scheme ":"). }
  assert (noSlash (host +:+ P) = true) as HhP.
  { unfold noSlash, P in *. rewrite allChars_app, Hslash.
    destruct port as [p|]; [|done]. destruct (Hport p eq_refl) as [_ Hp].
    rewrite allChars_app. unfold noSlash in Hp. by rewrite Hp. }
  assert (match Cfg.findChar "/" ((host +:+ P) +:+ Q) with
          | Some slash => substr ((host +:+ P) +:+ Q) 0 slash
          | None => (host +:+ P) +:+ Q
          end = host +:+ P) as ->.
  { rewrite findChar_app by exact HhP. unfold Q. destruct path as [r|].
    - change ("/" +:+ r) with (String "/" r).
      cbn [Cfg.findChar fmap option_fmap option_map Ascii.eqb Bool.eqb].
      rewrite Nat.add_0_r. apply substring_take.
    - cbn. by rewrite str_app_nil_r. }
  unfold P. destruct port as [p|].
  - destruct (Hport p eq_refl) as [Hp _].
    rewrite (rfindChar_app ":" host (":" +:+ p) 0).
    2:{ change (":" +:+ p) with (String ":" p). cbn [rfindChar].
        by rewrite (rfindChar_none ":" p Hp). }
    rewrite Nat.add_0_r. unfold substr. rewrite substring_take. f_equal.
    replace (String.length host + 1)%nat with (String.length (host +:+ ":"))
      by (rewrite str_length_app; done).
    rewrite <- (afterKey_app (host +:+ ":") p) at 2. by rewrite str_app_assoc.
  - rewrite str_app_nil_r. by rewrite (rfindChar_none ":" host Hcolon).
Qed.

Lemma hostPort_of_uri_witness :
  hostPort "https://ppa.launchpad.net:8443/team/ubuntu" = ("ppa.launchpad.net", "8443") /\
  hostPort "https://deb.debian.org/debian" = ("deb.debian.org", "443").
Proof.
  split.
  - apply (hostPort_of_uri "https" "ppa.launchpad.net" (Some "8443") (Some "team/ubuntu"));
      try reflexivity.
    by intros p [= <-].
  - apply (hostPort_of_uri "https" "deb.debian.org" None (Some "debian")); try reflexivity.
    by intros p.
Defined.

(** ** The two enumerations of blocks *)








